(** * Relationship graph, influence scoring and deal health

    A shallow embedding of the graph engine of the sales dashboard
    ([GraphService] in [CDN/js/calendar.js], [LinkedInService], and
    [SalesOrchestratorService] in [CDN/js/meeting-service.js]).

    Conventions of the embedding.
    - JavaScript numbers that the code only adds, multiplies by decimal
      constants, compares and rounds are rationals ([Q]); whole numbers
      (scores, counts, millisecond timestamps) are [Z]; a number that
      may be [NaN] is an [option].  Rounding of IEEE doubles is outside
      the rational model: what is stated of a strength there is stated
      so that it also holds of the rounded value, and the strength update
      itself is given on doubles in module [Binary64].
    - A value that may be [undefined] or [null] is an [option]; a string
      tested for truthiness is truthy when it is present and not empty.
    - The arrays [nodes], [edges] and [interactions] of the service are
      lists in push order; the object [hierarchy] of [getOrgChart] and the
      [Set]s of visited ids are finite maps and sets.
    - [new Date()] is a parameter [now] (milliseconds); a date field holds
      the time value of [new Date(field)], [None] when that is [NaN]. *)

From Stdlib Require Import ZArith QArith Qround Qminmax Lqa Lia List Bool Ascii String.
From Stdlib Require Import PrimFloat Sorted.
From stdpp Require Import base option strings pretty gmap.
Import ListNotations.

Local Open Scope string_scope.
Local Open Scope Z_scope.

Set Warnings "-inexact-float".

(** ** JavaScript primitives *)

Module JS.

(** [c.toLowerCase()] on one ASCII character. *)
Definition lower_ascii (c : ascii) : ascii :=
  let n := nat_of_ascii c in
  if (Nat.leb 65 n && Nat.leb n 90)%bool then ascii_of_nat (n + 32) else c.

(** [s.toLowerCase()], for titles written in ASCII. *)
Fixpoint toLowerCase (s : string) : string :=
  match s with
  | EmptyString => EmptyString
  | String c rest => String (lower_ascii c) (toLowerCase rest)
  end.

(** [hay.includes(needle)]. *)
Fixpoint includes (hay needle : string) : bool :=
  (String.prefix needle hay ||
     match hay with
     | EmptyString => false
     | String _ rest => includes rest needle
     end)%bool.

(** Truthiness of a possibly missing string. *)
Definition truthy (o : option string) : bool :=
  match o with
  | Some s => negb (String.eqb s "")
  | None => false
  end.

(** [a || b] on possibly missing strings. *)
Definition or_else (a b : option string) : option string :=
  if truthy a then a else b.

(** [Math.round]: nearest integer, ties towards +infinity. *)
Definition round (x : Q) : Z := Qfloor (x + (1 # 2)).

(** [Math.floor]. *)
Definition floor (x : Q) : Z := Qfloor x.

Definition ms_per_day : Z := 1000 * 60 * 60 * 24.

(** The names of the members an object literal inherits from
    [Object.prototype]. *)
Definition prototype_members : list string :=
  ["constructor"; "hasOwnProperty"; "isPrototypeOf"; "propertyIsEnumerable";
   "toLocaleString"; "toString"; "valueOf"; "__proto__";
   "__defineGetter__"; "__defineSetter__"; "__lookupGetter__";
   "__lookupSetter__"].

(** What [table[key]] reads from an object literal: the value of an own
    key, a member inherited from [Object.prototype] (a function, or the
    prototype object itself for [__proto__]: truthy, and neither a string
    nor a number), or [undefined]. *)
Inductive Read (A : Type) : Type :=
| Own (a : A)
| Inherited
| Undefined.

Arguments Own {A} a.
Arguments Inherited {A}.
Arguments Undefined {A}.

(** [table[key]]; a missing key reads the property named "undefined",
    which no table of the program has. *)
Definition read {A} (table : list (string * A)) (key : option string)
  : Read A :=
  match key with
  | Some k =>
      match List.find (fun kv => String.eqb (fst kv) k) table with
      | Some kv => Own (snd kv)
      | None =>
          if List.existsb (String.eqb k) prototype_members
          then Inherited else Undefined
      end
  | None => Undefined
  end.

End JS.

(** ** Data model of [GraphService] *)

Inductive NodeType := contact | account | deal.

Definition NodeType_eqb (a b : NodeType) : bool :=
  match a, b with
  | contact, contact | account, account | deal, deal => true
  | _, _ => false
  end.

(** [node.metadata] of a contact node. *)
Record NodeMeta := {
  dealCount : Z;
  interactionCount : Z;
  lastInteraction : option Z
}.

(** An element of [this.nodes].  Fields that no modelled function reads
    (phone, industry, size, location, website, value, stage) are left out. *)
Record Node := {
  n_id : string;
  n_type : NodeType;
  n_name : string;
  n_title : option string;
  n_company : option string;
  n_email : option string;
  influenceScore : Z;
  n_role : option string;
  n_hubspotId : option string;
  n_metadata : option NodeMeta;
  linkedin_verified : bool
}.

(** [edge.metadata]. *)
Record EdgeMeta := {
  em_source : option string;
  em_lastVerified : option Z;
  em_lastInteraction : option Z;
  em_interactionCount : option Z
}.

(** An element of [this.edges]. *)
Record Edge := {
  e_id : string;
  source : string;
  target : string;
  e_type : string;
  strength : Q;
  confirmed : bool;
  e_metadata : option EdgeMeta
}.

(** An element of [this.interactions]. *)
Record Interaction := {
  i_id : string;
  i_contactId : string;
  i_type : string;
  i_date : option Z;
  i_duration : option Q;
  i_dealId : option string;
  i_completed : bool
}.

(** The mutable fields of the service object. *)
Record GraphService := {
  nodes : list Node;
  edges : list Edge;
  interactions : list Interaction
}.

Definition set_influenceScore (n : Node) (s : Z) : Node :=
  {| n_id := n_id n; n_type := n_type n; n_name := n_name n;
     n_title := n_title n; n_company := n_company n; n_email := n_email n;
     influenceScore := s; n_role := n_role n; n_hubspotId := n_hubspotId n;
     n_metadata := n_metadata n; linkedin_verified := linkedin_verified n |}.

Definition set_metadata (n : Node) (m : option NodeMeta) : Node :=
  {| n_id := n_id n; n_type := n_type n; n_name := n_name n;
     n_title := n_title n; n_company := n_company n; n_email := n_email n;
     influenceScore := influenceScore n; n_role := n_role n;
     n_hubspotId := n_hubspotId n;
     n_metadata := m; linkedin_verified := linkedin_verified n |}.

Definition set_strength (e : Edge) (s : Q) (m : option EdgeMeta) : Edge :=
  {| e_id := e_id e; source := source e; target := target e;
     e_type := e_type e; strength := s; confirmed := confirmed e;
     e_metadata := m |}.

(** [this.nodes.find(n => n.id === id)]. *)
Definition find_node (ns : list Node) (id : string) : option Node :=
  List.find (fun n => String.eqb (n_id n) id) ns.

(** [e.type !== 'works_at' && e.type !== 'belongs_to']. *)
Definition non_structural (e : Edge) : bool :=
  (negb (String.eqb (e_type e) "works_at") &&
   negb (String.eqb (e_type e) "belongs_to"))%bool.

(** [(e.source === id || e.target === id)] and not structural: the filter
    shared by the scorer, [findPath] and [updateRelationshipStrength]. *)
Definition touches (id : string) (e : Edge) : bool :=
  ((String.eqb (source e) id || String.eqb (target e) id) &&
   non_structural e)%bool.

(** ** Influence scorer *)

(** [roleScores], in the key order [Object.entries] enumerates. *)
Definition roleScores : list (string * Z) :=
  [("ceo", 30); ("cto", 25); ("cfo", 25); ("vp", 20);
   ("director", 15); ("manager", 10); ("other", 5)].

(** The loop over [Object.entries(roleScores)]: the points of the first
    key the lowercased title includes; nothing is added when no key is
    included. *)
Definition role_points (title : option string) : Z :=
  let t := JS.toLowerCase (default "" (JS.or_else title (Some ""))) in
  match List.find (fun rp => JS.includes t (fst rp)) roleScores with
  | Some rp => snd rp
  | None => 0
  end.

Definition dealEdges (es : list Edge) (contactId : string) : list Edge :=
  List.filter (fun e => (String.eqb (source e) contactId &&
                         JS.includes (e_type e) "deal")%bool) es.

Definition strongRelationships (es : list Edge) (contactId : string)
  : list Edge :=
  List.filter (fun e => (touches contactId e &&
                         Qle_bool (7 # 10) (strength e))%bool) es.

(** [daysAgo <= 90] for one interaction; a [NaN] date compares false. *)
Definition within_90_days (now : Z) (i : Interaction) : bool :=
  match i_date i with
  | Some t => Qle_bool (inject_Z (now - t) / inject_Z JS.ms_per_day) 90
  | None => false
  end.

Definition recentInteractions (ints : list Interaction) (now : Z)
  (contactId : string) : list Interaction :=
  List.filter (fun i => (String.eqb (i_contactId i) contactId &&
                         within_90_days now i)%bool) ints.

Definition connections (es : list Edge) (contactId : string) : Z :=
  Z.of_nat (List.length (List.filter (touches contactId) es)).

Definition zlen {A} (l : list A) : Z := Z.of_nat (List.length l).

(** The running [score] before rounding. *)
Definition raw_score (g : GraphService) (now : Z) (cid : string)
  (title : option string) : Q :=
  (inject_Z (role_points title)
   + inject_Z (Z.min (zlen (dealEdges (edges g) cid) * 10) 20)
   + inject_Z (Z.min (zlen (strongRelationships (edges g) cid) * 3) 20)
   + inject_Z (Z.min (zlen (recentInteractions (interactions g) now cid) * 2) 15)
   + Qmin (inject_Z (connections (edges g) cid) * (3 # 2)) 15)%Q.

Definition calculateContactInfluence (g : GraphService) (now : Z)
  (contactId : string) : Z :=
  match find_node (nodes g) contactId with
  | None => 0
  | Some c =>
      if negb (NodeType_eqb (n_type c) contact) then 0
      else Z.min (JS.round (raw_score g now contactId (n_title c))) 100
  end.

(** [calculateInfluenceScores]: the [forEach] writes each score into the
    node in place, so the store a later iteration reads already holds the
    scores written by the earlier ones.  [seen] are the nodes already
    passed, [todo] those still to come. *)
Fixpoint scores_loop (seen todo : list Node) (es : list Edge)
  (ints : list Interaction) (now : Z) : list Node :=
  match todo with
  | [] => seen
  | n :: rest =>
      let g := {| nodes := (seen ++ todo)%list; edges := es; interactions := ints |} in
      let n' := if NodeType_eqb (n_type n) contact
                then set_influenceScore n (calculateContactInfluence g now (n_id n))
                else n in
      scores_loop (seen ++ [n'])%list rest es ints now
  end.

Definition calculateInfluenceScores (g : GraphService) (now : Z)
  : GraphService :=
  {| nodes := scores_loop [] (nodes g) (edges g) (interactions g) now;
     edges := edges g;
     interactions := interactions g |}.

(** ** Built-in fixtures: [loadMockGraphData] *)

Module Mock.

Definition mk_contact (id name title company email role : string)
  (deals count last : Z) : Node :=
  {| n_id := id; n_type := contact; n_name := name;
     n_title := Some title; n_company := Some company;
     n_email := Some email; influenceScore := 0; n_role := Some role;
     n_hubspotId := None;
     n_metadata := Some {| dealCount := deals; interactionCount := count;
                           lastInteraction := Some last |};
     linkedin_verified := false |}.

Definition mk_other (id : string) (ty : NodeType) (name : string) : Node :=
  {| n_id := id; n_type := ty; n_name := name; n_title := None;
     n_company := None; n_email := None; influenceScore := 0;
     n_role := None; n_hubspotId := None; n_metadata := None;
     linkedin_verified := false |}.

Definition mk_edge (id src tgt ty : string) (s : Q) (conf : bool)
  (m : option EdgeMeta) : Edge :=
  {| e_id := id; source := src; target := tgt; e_type := ty;
     strength := s; confirmed := conf; e_metadata := m |}.

Definition mk_int (id cid ty : string) (date : Z) (dur : option Q)
  : Interaction :=
  {| i_id := id; i_contactId := cid; i_type := ty; i_date := Some date;
     i_duration := dur; i_dealId := None; i_completed := true |}.

(** Time values of the fixture's date strings (UTC midnight). *)
Definition d_2024_01_05 : Z := 1704412800000.
Definition d_2024_01_08 : Z := 1704672000000.
Definition d_2024_01_10 : Z := 1704844800000.
Definition d_2024_01_12 : Z := 1705017600000.
Definition d_2024_01_14 : Z := 1705190400000.
Definition d_2024_01_15 : Z := 1705276800000.

Definition mock_nodes : list Node :=
  [ mk_contact "contact_1" "Sarah Johnson" "VP of Engineering"
      "Acme Corporation" "sarah.johnson@acme.com" "decision_maker"
      2 15 d_2024_01_15;
    mk_contact "contact_2" "Michael Chen" "CTO"
      "Acme Corporation" "michael.chen@acme.com" "decision_maker"
      1 8 d_2024_01_10;
    mk_contact "contact_3" "Emily Rodriguez" "Procurement Manager"
      "Acme Corporation" "emily.rodriguez@acme.com" "influencer"
      1 5 d_2024_01_08;
    mk_contact "contact_4" "David Lee" "Engineering Manager"
      "Acme Corporation" "david.lee@acme.com" "end_user"
      0 3 d_2024_01_05;
    mk_contact "contact_5" "John Smith" "CEO"
      "TechStart Inc" "john.smith@techstart.com" "decision_maker"
      1 4 d_2024_01_12;
    mk_other "account_1" account "Acme Corporation";
    mk_other "account_2" account "TechStart Inc";
    mk_other "deal_1" deal "Q4 Enterprise License";
    mk_other "deal_2" deal "Q1 Starter Package" ].

Definition meta_hubspot : option EdgeMeta :=
  Some {| em_source := Some "hubspot"; em_lastVerified := Some d_2024_01_15;
          em_lastInteraction := None; em_interactionCount := None |}.

Definition meta_works_with : option EdgeMeta :=
  Some {| em_source := None; em_lastVerified := None;
          em_lastInteraction := Some d_2024_01_10;
          em_interactionCount := Some 8 |}.

Definition meta_linkedin : option EdgeMeta :=
  Some {| em_source := Some "linkedin_suggestion"; em_lastVerified := None;
          em_lastInteraction := None; em_interactionCount := None |}.

Definition mock_edges : list Edge :=
  [ mk_edge "edge_1" "contact_2" "contact_1" "reports_to" (9 # 10) true meta_hubspot;
    mk_edge "edge_2" "contact_1" "contact_4" "manages" (85 # 100) true None;
    mk_edge "edge_3" "contact_1" "contact_3" "works_with" (7 # 10) true meta_works_with;
    mk_edge "edge_4" "contact_1" "deal_1" "decision_maker_for" (95 # 100) true None;
    mk_edge "edge_5" "contact_2" "deal_1" "influencer_for" (8 # 10) true None;
    mk_edge "edge_6" "contact_3" "deal_1" "influencer_for" (6 # 10) true None;
    mk_edge "edge_7" "contact_5" "deal_2" "decision_maker_for" (9 # 10) true None;
    mk_edge "edge_8" "contact_1" "account_1" "works_at" 1 true None;
    mk_edge "edge_9" "contact_2" "account_1" "works_at" 1 true None;
    mk_edge "edge_10" "contact_3" "account_1" "works_at" 1 true None;
    mk_edge "edge_11" "contact_4" "account_1" "works_at" 1 true None;
    mk_edge "edge_12" "contact_5" "account_2" "works_at" 1 true None;
    mk_edge "edge_13" "deal_1" "account_1" "belongs_to" 1 true None;
    mk_edge "edge_14" "deal_2" "account_2" "belongs_to" 1 true None;
    mk_edge "edge_15" "contact_1" "contact_5" "former_colleague" (5 # 10) false meta_linkedin ].

Definition mock_interactions : list Interaction :=
  [ mk_int "int_1" "contact_1" "call" d_2024_01_15 (Some 30%Q);
    mk_int "int_2" "contact_1" "email" d_2024_01_14 None;
    mk_int "int_3" "contact_2" "call" d_2024_01_10 (Some 45%Q);
    mk_int "int_4" "contact_3" "meeting" d_2024_01_08 (Some 60%Q);
    mk_int "int_5" "contact_1" "call" d_2024_01_05 (Some 20%Q) ].

End Mock.

Definition loadMockGraphData (now : Z) : GraphService :=
  calculateInfluenceScores
    {| nodes := Mock.mock_nodes; edges := Mock.mock_edges;
       interactions := Mock.mock_interactions |} now.

(** ** Graph query engine *)

(** The argument of [getGraphData]. *)
Record Filter := {
  accountId : option string;
  dealId : option string;
  minInfluence : option Z
}.

(** [arr.includes(x)] on an array of ids. *)
Definition id_in (x : string) (l : list string) : bool :=
  List.existsb (String.eqb x) l.

(** The [if (filter.accountId)] block. *)
Definition filter_account (aid : string) (ne : list Node * list Edge)
  : list Node * list Edge :=
  let accountContacts :=
    List.map source
      (List.filter (fun e => (String.eqb (target e) aid &&
                              String.eqb (e_type e) "works_at")%bool) (snd ne)) in
  (List.filter (fun n => (id_in (n_id n) accountContacts ||
                          String.eqb (n_id n) aid)%bool) (fst ne),
   List.filter (fun e => (id_in (source e) accountContacts ||
                          id_in (target e) accountContacts ||
                          String.eqb (source e) aid ||
                          String.eqb (target e) aid)%bool) (snd ne)).

(** The [if (filter.dealId)] block. *)
Definition filter_deal (did : string) (ne : list Node * list Edge)
  : list Node * list Edge :=
  let dealContacts :=
    List.map source
      (List.filter (fun e => (String.eqb (target e) did &&
                              JS.includes (e_type e) "deal")%bool) (snd ne)) in
  (List.filter (fun n => (id_in (n_id n) dealContacts ||
                          String.eqb (n_id n) did)%bool) (fst ne),
   List.filter (fun e => (id_in (source e) dealContacts ||
                          id_in (target e) dealContacts ||
                          String.eqb (source e) did ||
                          String.eqb (target e) did)%bool) (snd ne)).

(** The [if (filter.minInfluence)] block. *)
Definition filter_influence (m : Z) (ne : list Node * list Edge)
  : list Node * list Edge :=
  let ns := List.filter (fun n => (negb (NodeType_eqb (n_type n) contact) ||
                                   (m <=? influenceScore n))%bool) (fst ne) in
  let nodeIds := List.map n_id ns in
  (ns, List.filter (fun e => (id_in (source e) nodeIds &&
                              id_in (target e) nodeIds)%bool) (snd ne)).

Definition getGraphData (g : GraphService) (f : Filter)
  : list Node * list Edge :=
  let r0 := (nodes g, edges g) in
  let r1 := match accountId f with
            | Some aid => if JS.truthy (Some aid) then filter_account aid r0 else r0
            | None => r0
            end in
  let r2 := match dealId f with
            | Some did => if JS.truthy (Some did) then filter_deal did r1 else r1
            | None => r1
            end in
  match minInfluence f with
  | Some m => if m =? 0 then r2 else filter_influence m r2
  | None => r2
  end.

Definition getAccountContacts (g : GraphService) (aid : string) : list Node :=
  let contactIds :=
    List.map source
      (List.filter (fun e => (String.eqb (target e) aid &&
                              String.eqb (e_type e) "works_at")%bool) (edges g)) in
  List.filter (fun n => id_in (n_id n) contactIds) (nodes g).

(** How a modelled call ends: with a value, with an uncaught [TypeError],
    or (for loops run on fuel) without having finished. *)
Inductive Outcome (A : Type) : Type :=
| Returned (a : A)
| Thrown
| OutOfFuel.
Arguments Returned {A} a.
Arguments Thrown {A}.
Arguments OutOfFuel {A}.

(** The other end of an edge seen from [currentId]:
    [e.source === currentId ? e.target : e.source]. *)
Definition other_end (currentId : string) (e : Edge) : string :=
  if String.eqb (source e) currentId then target e else source e.

Definition neighbors (es : list Edge) (currentId : string) : list string :=
  List.map (other_end currentId) (List.filter (touches currentId) es).

(** The [while (queue.length > 0)] loop of [findPath]; one unit of fuel per
    iteration.  The queue holds pairs [(currentId, path)]. *)
Fixpoint findPath_loop (fuel : nat) (es : list Edge) (targetId : string)
  (maxDepth : Z) (visited : gset string) (queue : list (string * list string))
  : Outcome (option (list string)) :=
  match fuel with
  | O => OutOfFuel
  | S fuel' =>
      match queue with
      | [] => Returned None
      | (currentId, path) :: rest =>
          if String.eqb currentId targetId then Returned (Some path)
          else if zlen path >? maxDepth
          then findPath_loop fuel' es targetId maxDepth visited rest
          else if bool_decide (currentId ∈ visited)
          then findPath_loop fuel' es targetId maxDepth visited rest
          else
            let visited' := {[currentId]} ∪ visited in
            let pushed :=
              List.map (fun nb => (nb, (path ++ [nb])%list))
                (List.filter (fun nb => negb (bool_decide (nb ∈ visited')))
                   (neighbors es currentId)) in
            findPath_loop fuel' es targetId maxDepth visited' (rest ++ pushed)%list
      end
  end.

(** Every id that is an end of some edge, once each. *)
Definition endpoints (es : list Edge) : list string :=
  remove_dups (List.flat_map (fun e => [source e; target e]) es).

Definition degree (es : list Edge) (v : string) : nat :=
  List.length (List.filter (touches v) es).

(** Work left for the loop: each id not yet visited can still be dequeued
    once as a fresh id and push one entry per touching edge. *)
Definition potential (es : list Edge) (visited : gset string) : nat :=
  list_sum (List.map (fun v => if bool_decide (v ∈ visited) then O
                               else S (degree es v)) (endpoints es)).

Definition findPath_fuel (es : list Edge) : nat :=
  S (S (potential es ∅)).

(** [findPath(sourceId, targetId, maxDepth)]; the ids of the path found are
    mapped to the nodes (or [undefined], here [None]) that carry them. *)
Definition findPath (g : GraphService) (sourceId targetId : string)
  (maxDepth : Z) : Outcome (option (list (option Node))) :=
  match findPath_loop (findPath_fuel (edges g)) (edges g) targetId maxDepth
          ∅ [(sourceId, [sourceId])] with
  | Returned (Some path) => Returned (Some (List.map (find_node (nodes g)) path))
  | Returned None => Returned None
  | Thrown => Thrown
  | OutOfFuel => OutOfFuel
  end.

(** The value of the default parameter [maxDepth = 3]. *)
Definition default_maxDepth : Z := 3.

(** ** Relationship strength updater *)

(** The [metadata] argument of [trackInteraction]; [completed] is [None]
    when the caller does not pass it. *)
Record Metadata := {
  duration : option Q;
  md_dealId : option string;
  completed : option bool
}.

(** [metadata.completed !== false]. *)
Definition not_false (c : option bool) : bool :=
  match c with
  | Some false => false
  | _ => true
  end.

(** [metadata.duration || 0]. *)
Definition callDuration (md : Metadata) : Q :=
  match duration md with
  | Some d => d
  | None => 0
  end.

(** The [increase] computed for each edge. *)
Definition increase (interactionType : string) (md : Metadata) : Q :=
  let base :=
    if String.eqb interactionType "call"
    then (0.02 + (if Qlt_le_dec 30 (callDuration md) then 0.03 else 0))%Q
    else if String.eqb interactionType "meeting" then 0.04%Q
    else if String.eqb interactionType "email" then 0.01%Q
    else 0.005%Q in
  if not_false (completed md) then (base * 1.2)%Q else base.

(** The metadata an edge carries after the update. *)
Definition touch_metadata (now : Z) (m : option EdgeMeta) : option EdgeMeta :=
  let m0 := default {| em_source := None; em_lastVerified := None;
                       em_lastInteraction := None;
                       em_interactionCount := None |} m in
  Some {| em_source := em_source m0;
          em_lastVerified := em_lastVerified m0;
          em_lastInteraction := Some now;
          em_interactionCount :=
            Some (default 0 (em_interactionCount m0) + 1) |}.

(** The body of [contactEdges.forEach], in exact arithmetic; the doubles
    of the engine round the sum ([Binary64.strengthen]). *)
Definition strengthen (now : Z) (inc : Q) (e : Edge) : Edge :=
  set_strength e (Qmin (strength e + inc) 1) (touch_metadata now (e_metadata e)).

(** [updateRelationshipStrength]: the edges selected by the filter are
    updated where they stand in [this.edges]. *)
Definition updateRelationshipStrength (g : GraphService) (now : Z)
  (contactId interactionType : string) (md : Metadata) : GraphService :=
  {| nodes := nodes g;
     edges := List.map (fun e => if touches contactId e
                                 then strengthen now (increase interactionType md) e
                                 else e) (edges g);
     interactions := interactions g |}.

(** Apply [f] to the first element that satisfies [p]. *)
Fixpoint update_first {A} (p : A -> bool) (f : A -> A) (l : list A) : list A :=
  match l with
  | [] => []
  | x :: rest => if p x then f x :: rest else x :: update_first p f rest
  end.

Definition is_contact_with_id (contactId : string) (n : Node) : bool :=
  (String.eqb (n_id n) contactId && NodeType_eqb (n_type n) contact)%bool.

Definition bump_metadata (now : Z) (n : Node) : Node :=
  match n_metadata n with
  | Some m =>
      set_metadata n
        (Some {| dealCount := dealCount m;
                 interactionCount := interactionCount m + 1;
                 lastInteraction := Some now |})
  | None => n
  end.

(** [trackInteraction(contactId, type, metadata)].  The metadata keys the
    callers pass (duration, dealId, completed, notes) do not override the
    interaction's own id, contactId, type or date.  Reading
    [contact.metadata.interactionCount] on a contact node without metadata
    throws after the interaction was pushed.  The fire-and-forget sync to
    the CRM does not touch the store. *)
Definition trackInteraction (g : GraphService) (now : Z)
  (contactId type : string) (md : Metadata)
  : GraphService * Outcome Interaction :=
  let interaction :=
    {| i_id := "int_" ++ pretty now; i_contactId := contactId;
       i_type := type; i_date := Some now; i_duration := duration md;
       i_dealId := md_dealId md; i_completed := not_false (completed md) |} in
  let g1 := {| nodes := nodes g; edges := edges g;
               interactions := (interactions g ++ [interaction])%list |} in
  match List.find (is_contact_with_id contactId) (nodes g1) with
  | Some c =>
      match n_metadata c with
      | None => (g1, Thrown)
      | Some _ =>
          let g2 := {| nodes := update_first (is_contact_with_id contactId)
                                  (bump_metadata now) (nodes g1);
                       edges := edges g1; interactions := interactions g1 |} in
          (calculateInfluenceScores
             (updateRelationshipStrength g2 now contactId type md) now,
           Returned interaction)
      end
  | None =>
      (calculateInfluenceScores
         (updateRelationshipStrength g1 now contactId type md) now,
       Returned interaction)
  end.

(** ** Org chart *)

(** A value of the [hierarchy] object. *)
Record HEntry := {
  h_contact : Node;
  reportsTo : option string;
  manages : list string;
  level : Z
}.

Definition set_reportsTo (r : string) (h : HEntry) : HEntry :=
  {| h_contact := h_contact h; reportsTo := Some r; manages := manages h;
     level := level h |}.

Definition push_manages (r : string) (h : HEntry) : HEntry :=
  {| h_contact := h_contact h; reportsTo := reportsTo h;
     manages := (manages h ++ [r])%list; level := level h |}.

Definition set_level (l : Z) (h : HEntry) : HEntry :=
  {| h_contact := h_contact h; reportsTo := reportsTo h;
     manages := manages h; level := l |}.

Definition is_org_type (e : Edge) : bool :=
  (String.eqb (e_type e) "reports_to" || String.eqb (e_type e) "manages")%bool.

Definition orgEdges (contacts : list Node) (es : list Edge) : list Edge :=
  List.filter (fun e =>
      (List.existsb (fun c => (String.eqb (n_id c) (source e) ||
                               String.eqb (n_id c) (target e))%bool) contacts
       && is_org_type e)%bool) es.

(** [contacts.forEach(contact => hierarchy[contact.id] = {...})]. *)
Definition init_hierarchy (contacts : list Node) : gmap string HEntry :=
  List.fold_left (fun h c =>
      <[n_id c := {| h_contact := c; reportsTo := None; manages := [];
                     level := 0 |}]> h) contacts ∅.

(** The body of [orgEdges.forEach]; reading a property of
    [hierarchy[id]] throws when [id] is not a key. *)
Definition org_step (h : gmap string HEntry) (e : Edge)
  : Outcome (gmap string HEntry) :=
  if String.eqb (e_type e) "reports_to" then
    match h !! source e with
    | None => Thrown
    | Some hs =>
        let h1 := <[source e := set_reportsTo (target e) hs]> h in
        match h1 !! target e with
        | None => Thrown
        | Some ht =>
            if id_in (source e) (manages ht) then Returned h1
            else Returned (<[target e := push_manages (source e) ht]> h1)
        end
    end
  else if String.eqb (e_type e) "manages" then
    match h !! source e with
    | None => Thrown
    | Some hs =>
        let h1 := if id_in (target e) (manages hs) then h
                  else <[source e := push_manages (target e) hs]> h in
        match h1 !! target e with
        | None => Thrown
        | Some ht => Returned (<[target e := set_reportsTo (source e) ht]> h1)
        end
    end
  else Returned h.

Fixpoint org_steps (h : gmap string HEntry) (es : list Edge)
  : Outcome (gmap string HEntry) :=
  match es with
  | [] => Returned h
  | e :: rest =>
      match org_step h e with
      | Returned h' => org_steps h' rest
      | Thrown => Thrown
      | OutOfFuel => OutOfFuel
      end
  end.

(** The recursive closure [calculateLevels(contactId, visited)]; one unit
    of fuel per call. *)
Fixpoint calculateLevels (fuel : nat) (h : gmap string HEntry)
  (contactId : string) (visited : gset string) : Outcome Z :=
  match fuel with
  | O => OutOfFuel
  | S fuel' =>
      if bool_decide (contactId ∈ visited) then Returned 0
      else
        match h !! contactId with
        | None => Thrown
        | Some node =>
            match reportsTo node with
            | Some m =>
                if JS.truthy (Some m) then
                  match calculateLevels fuel' h m ({[contactId]} ∪ visited) with
                  | Returned l => Returned (l + 1)
                  | Thrown => Thrown
                  | OutOfFuel => OutOfFuel
                  end
                else Returned 0
            | None => Returned 0
            end
        end
  end.

(** [Object.keys(hierarchy).forEach(id => hierarchy[id].level = ...)]: each
    level is computed with a fresh visited set and written into the object
    the next computation reads. *)
Fixpoint assign_levels (fuel : nat) (h : gmap string HEntry)
  (keys : list string) : Outcome (gmap string HEntry) :=
  match keys with
  | [] => Returned h
  | k :: rest =>
      match calculateLevels fuel h k ∅ with
      | Returned l => assign_levels fuel (alter (set_level l) k h) rest
      | Thrown => Thrown
      | OutOfFuel => OutOfFuel
      end
  end.

(** [getOrgChart(accountId)].  The keys are taken in the order of the
    finite map rather than in insertion order; a level written for one
    key is not read when the level of another is computed. *)
Definition getOrgChart (g : GraphService) (aid : string)
  : Outcome (gmap string HEntry) :=
  let contacts := getAccountContacts g aid in
  match org_steps (init_hierarchy contacts) (orgEdges contacts (edges g)) with
  | Returned h => assign_levels (S (size h)) h (map_to_list h).*1
  | Thrown => Thrown
  | OutOfFuel => OutOfFuel
  end.

(** ** Importer: [loadFromHubSpot] *)

(** A contact as [hubspotService.getContacts()] returns it. *)
Record HContact := {
  hc_id : string;
  hc_hubspotId : option string;
  hc_name : string;
  hc_title : option string;
  hc_company : option string;
  hc_email : option string;
  hc_role : option string;
  hc_reportsTo : option string;
  hc_managerId : option string;
  hc_companyId : option string;
  hc_dealCount : option Z;
  hc_lastInteraction : option Z
}.

(** A company as [getCompanies()] returns it. *)
Record HCompany := {
  co_id : string;
  co_hubspotId : option string;
  co_name : string
}.

(** A deal as [getDeals()] returns it. *)
Record HDeal := {
  hd_id : string;
  hd_hubspotId : option string;
  hd_name : string;
  hd_companyId : option string;
  hd_contactIds : option (list string)
}.

(** An interaction as [getContactInteractions()] returns it. *)
Record HInteraction := {
  hi_id : string;
  hi_type : string;
  hi_date : option Z;
  hi_duration : option Q
}.

(** [x === y] where [x] may be [undefined] and [y] is a string. *)
Definition opt_is (x : option string) (y : string) : bool :=
  match x with
  | Some s => String.eqb s y
  | None => false
  end.

Definition node_of_contact (c : HContact) : Node :=
  {| n_id := hc_id c; n_type := contact; n_name := hc_name c;
     n_title := hc_title c; n_company := hc_company c; n_email := hc_email c;
     influenceScore := 0; n_role := hc_role c; n_hubspotId := hc_hubspotId c;
     n_metadata :=
       Some {| dealCount := default 0 (hc_dealCount c);
               interactionCount := 0;
               lastInteraction := hc_lastInteraction c |};
     linkedin_verified := false |}.

Definition node_of_company (c : HCompany) : Node :=
  {| n_id := co_id c; n_type := account; n_name := co_name c;
     n_title := None; n_company := None; n_email := None;
     influenceScore := 0; n_role := None; n_hubspotId := co_hubspotId c;
     n_metadata := None; linkedin_verified := false |}.

Definition node_of_deal (d : HDeal) : Node :=
  {| n_id := hd_id d; n_type := deal; n_name := hd_name d;
     n_title := None; n_company := None; n_email := None;
     influenceScore := 0; n_role := None; n_hubspotId := hd_hubspotId d;
     n_metadata := None; linkedin_verified := false |}.

Definition plain_edge (id src tgt ty : string) (s : Q) (m : option EdgeMeta)
  : Edge :=
  {| e_id := id; source := src; target := tgt; e_type := ty; strength := s;
     confirmed := true; e_metadata := m |}.

(** The [reports_to] edge of one contact, when its manager is found. *)
Definition reports_edge (now : Z) (contacts : list HContact) (c : HContact)
  : list Edge :=
  match JS.or_else (hc_reportsTo c) (hc_managerId c) with
  | Some managerId =>
      if JS.truthy (Some managerId) then
        match List.find (fun m => (String.eqb (hc_id m) managerId ||
                                   opt_is (hc_hubspotId m) managerId)%bool)
                contacts with
        | Some manager =>
            [plain_edge ("edge_" ++ hc_id c ++ "_reports_" ++ hc_id manager)
               (hc_id c) (hc_id manager) "reports_to" 0.9
               (Some {| em_source := Some "hubspot";
                        em_lastVerified := Some now;
                        em_lastInteraction := None;
                        em_interactionCount := None |})]
        | None => []
        end
      else []
  | None => []
  end.

(** [companies.find(c => c.hubspotId === companyId)], for a truthy id. *)
Definition find_company (companies : list HCompany) (companyId : option string)
  : option HCompany :=
  match companyId with
  | Some cid =>
      if JS.truthy (Some cid)
      then List.find (fun co => opt_is (co_hubspotId co) cid) companies
      else None
  | None => None
  end.

Definition works_at_edge (companies : list HCompany) (c : HContact)
  : list Edge :=
  match find_company companies (hc_companyId c) with
  | Some co =>
      [plain_edge ("edge_" ++ hc_id c ++ "_works_at_" ++ co_id co)
         (hc_id c) (co_id co) "works_at" 1 None]
  | None => []
  end.

Definition belongs_to_edge (companies : list HCompany) (d : HDeal)
  : list Edge :=
  match find_company companies (hd_companyId d) with
  | Some co =>
      [plain_edge ("edge_" ++ hd_id d ++ "_belongs_to_" ++ co_id co)
         (hd_id d) (co_id co) "belongs_to" 1 None]
  | None => []
  end.

(** The edge of one entry of [deal.contactIds]. *)
Definition deal_contact_edge (contacts : list HContact) (d : HDeal)
  (contactId : string) : list Edge :=
  match List.find (fun c => opt_is (hc_hubspotId c) contactId) contacts with
  | Some c =>
      let dm := opt_is (hc_role c) "decision_maker" in
      let relationshipType :=
        if dm then "decision_maker_for" else "influencer_for" in
      [plain_edge ("edge_" ++ hc_id c ++ "_" ++ relationshipType ++ "_" ++ hd_id d)
         (hc_id c) (hd_id d) relationshipType
         (if dm then 0.95 else 0.7) None]
  | None => []
  end.

(** [this.edges] as the two [for] loops leave it. *)
Definition build_edges (now : Z) (contacts : list HContact)
  (deals : list HDeal) (companies : list HCompany) : list Edge :=
  (List.flat_map (fun c => reports_edge now contacts c ++
                           works_at_edge companies c) contacts ++
   List.flat_map (fun d => belongs_to_edge companies d ++
                           List.flat_map (deal_contact_edge contacts d)
                             (default [] (hd_contactIds d))) deals)%list.

Definition interaction_of (contactId : string) (h : HInteraction)
  : Interaction :=
  {| i_id := hi_id h; i_contactId := contactId; i_type := hi_type h;
     i_date := hi_date h; i_duration := hi_duration h; i_dealId := None;
     i_completed := true |}.

(** One iteration of the loop of [loadInteractionHistory] over a contact
    node; [history] answers [getContactInteractions], which returns an
    empty array when the request fails. *)
Definition load_history_step (history : string -> list HInteraction)
  (n : Node) : Node * list Interaction :=
  match n_hubspotId n with
  | Some hid =>
      if (NodeType_eqb (n_type n) contact && JS.truthy (Some hid))%bool then
        let got := history hid in
        (match got, n_metadata n with
         | first :: _, Some m =>
             set_metadata n
               (Some {| dealCount := dealCount m;
                        interactionCount := zlen got;
                        lastInteraction := hi_date first |})
         | _, _ => n
         end,
         List.map (interaction_of (n_id n)) got)
      else (n, [])
  | None => (n, [])
  end.

Definition loadInteractionHistory (configured : bool)
  (history : string -> list HInteraction) (g : GraphService) : GraphService :=
  if configured then
    let steps := List.map (load_history_step history) (nodes g) in
    {| nodes := List.map fst steps;
       edges := edges g;
       interactions := (interactions g ++ List.flat_map snd steps)%list |}
  else g.

(** [loadFromHubSpot], given what the three [get...] calls returned.  The
    array [this.interactions] is not reset by the function; [ints0] is its
    content at the call. *)
Definition loadFromHubSpot (now : Z) (configured : bool)
  (history : string -> list HInteraction) (ints0 : list Interaction)
  (contacts : list HContact) (deals : list HDeal) (companies : list HCompany)
  : GraphService :=
  loadInteractionHistory configured history
    {| nodes := (List.map node_of_contact contacts ++
                 List.map node_of_company companies ++
                 List.map node_of_deal deals)%list;
       edges := build_edges now contacts deals companies;
       interactions := ints0 |}.

(** ** Enrichment: [enrichWithLinkedIn] *)

(** What the profile lookups of [LinkedInService] return. *)
Record Profile := {
  headline : option string
}.

(** An element of the array [getRelationshipSuggestions] returns, after
    [normalizeRelationships]. *)
Record Suggestion := {
  s_source : string;
  s_target : string;
  s_type : string;
  s_strength : Q;
  s_metadata : option EdgeMeta
}.

(** The answers of the external profile service. *)
Record LinkedIn := {
  getProfileByEmail : string -> option Profile;
  searchProfile : string -> string -> option Profile;
  getRelationshipSuggestions : string -> list string -> list Suggestion
}.

(** [mergeLinkedInData(contact, profile)] followed by
    [Object.assign(contact, enriched)], on the fields of the model.  Of
    the [linkedin] object the merge attaches only [verified] is kept; its
    [lastEnriched] is the clock at the merge, so it differs from one
    enrichment to the next, and nothing below speaks of it. *)
Definition mergeLinkedInData (c : Node) (p : Profile) : Node :=
  {| n_id := n_id c; n_type := n_type c; n_name := n_name c;
     n_title := JS.or_else (n_title c) (JS.or_else (headline p) (Some ""));
     n_company := n_company c; n_email := n_email c;
     influenceScore := influenceScore c; n_role := n_role c;
     n_hubspotId := n_hubspotId c; n_metadata := n_metadata c;
     linkedin_verified := true |}.

(** [enrichContact(contact)] of a configured service. *)
Definition enrichContact (li : LinkedIn) (c : Node) : Node :=
  let by_search :=
    if (JS.truthy (Some (n_name c)) && JS.truthy (n_company c))%bool
    then match searchProfile li (n_name c) (default "" (n_company c)) with
         | Some p => mergeLinkedInData c p
         | None => c
         end
    else c in
  match n_email c with
  | Some email =>
      if JS.truthy (Some email)
      then match getProfileByEmail li email with
           | Some p => mergeLinkedInData c p
           | None => by_search
           end
      else by_search
  | None => by_search
  end.

(** The loop over [suggestions]: an edge is pushed unless an edge between
    the same two ids, in either direction, is already in [this.edges]. *)
Definition add_suggestion (es : list Edge) (s : Suggestion) : list Edge :=
  if List.existsb (fun e =>
       ((String.eqb (source e) (s_source s) && String.eqb (target e) (s_target s)) ||
        (String.eqb (source e) (s_target s) && String.eqb (target e) (s_source s)))%bool) es
  then es
  else (es ++ [{| e_id := "edge_linkedin_" ++ s_source s ++ "_" ++ s_target s;
                  source := s_source s; target := s_target s;
                  e_type := s_type s; strength := s_strength s;
                  confirmed := false; e_metadata := s_metadata s |}])%list.

(** One iteration of [for (const contact of contacts)]; [others] are the
    ids of the other contacts of the snapshot. *)
Definition enrich_step (li : LinkedIn) (others : list string)
  (es : list Edge) (c : Node) : Node * list Edge :=
  let enriched := enrichContact li c in
  (enriched,
   if linkedin_verified enriched
   then List.fold_left add_suggestion
          (getRelationshipSuggestions li (n_id enriched) others) es
   else es).

(** The loop over the nodes: contact nodes are enriched where they stand,
    the edges pushed so far are threaded through. *)
Fixpoint enrich_loop (li : LinkedIn) (all : list string) (todo : list Node)
  (es : list Edge) : list Node * list Edge :=
  match todo with
  | [] => ([], es)
  | n :: rest =>
      if NodeType_eqb (n_type n) contact then
        let others := List.filter (fun i => negb (String.eqb i (n_id n))) all in
        let '(n', es') := enrich_step li others es n in
        let '(rest', es'') := enrich_loop li all rest es' in
        (n' :: rest', es'')
      else
        let '(rest', es') := enrich_loop li all rest es in
        (n :: rest', es')
  end.

(** [enrichWithLinkedIn]; [service] is [None] when no configured
    [linkedinService] is installed. *)
Definition enrichWithLinkedIn (service : option LinkedIn) (g : GraphService)
  : GraphService :=
  match service with
  | None => g
  | Some li =>
      let all := List.map n_id
                   (List.filter (fun n => NodeType_eqb (n_type n) contact)
                      (nodes g)) in
      let '(ns, es) := enrich_loop li all (nodes g) (edges g) in
      {| nodes := ns; edges := es; interactions := interactions g |}
  end.

(** ** Deal health orchestrator ([SalesOrchestratorService]) *)

(** A date-valued field: missing (or empty), present but not parseable
    (its time value is [NaN]), or present with a time value. *)
Inductive DateField :=
| NoDate
| BadDate
| DateAt (t : Z).

(** A JavaScript number that may not be finite: [parseFloat] returns
    [NaN] for a text that does not start with a number and an infinity for
    the text "Infinity". *)
Inductive Num :=
| NaN
| MinusInfinity
| Number (q : Q)
| PlusInfinity.

(** A deal of the pipeline, as [dataService.getPipeline()] returns it.
    With a connected CRM the probability is
    [parseFloat(deal.properties?.pipeline || 0)], which is [NaN] for a
    pipeline name; a missing probability behaves as [NaN] in every place
    that reads it.  A value that is [NaN] behaves as 0 in the two places
    that read it ([deal.value > 200000] and [deal.value || 0]), so the
    value is a rational. *)
Record Deal := {
  d_id : string;
  d_name : string;
  stage : option string;
  probability : Num;
  value : Q;
  lastActivity : DateField;
  stageEntryDate : DateField;
  d_contacts : list string
}.

(** An entry of a deal's activity log. *)
Record Activity := {
  a_type : string;
  a_date : DateField;
  a_emailOpened : bool;
  a_opens : option Z;
  a_linkUrl : option string;
  a_metaUrl : option string;
  a_url : option string;
  a_linkClicked : option string;
  a_action : option string
}.

(** What [telemetryService.getRecentEngagement(deal.id, 24)] returns. *)
Record Telemetry := {
  emails_opened : Z;
  emails_clicked : Z;
  documents_viewed : Z;
  calendar_accepted : Z
}.

(** [avgStageDurations], as the constructor fills it. *)
Definition avgStageDurations : list (string * Z) :=
  [("new", 3); ("contacted", 5); ("qualified", 7); ("negotiation", 14);
   ("proposal", 10); ("closed", 0)].

(** [this.avgStageDurations[deal.stage] || 7]; [None] when what is read is
    not a number: for a stage named like a member of [Object.prototype]
    the table answers with that member, which is truthy. *)
Definition avgDuration (stage : option string) : option Z :=
  match JS.read avgStageDurations stage with
  | JS.Own d => Some (if d =? 0 then 7 else d)
  | JS.Inherited => None
  | JS.Undefined => Some 7
  end.

(** [Math.floor((now - date) / (1000 * 60 * 60 * 24))]. *)
Definition days_since (now t : Z) : Z :=
  JS.floor (inject_Z (now - t) / inject_Z JS.ms_per_day).

(** [calculateDaysInStage]; [None] is [NaN]. *)
Definition calculateDaysInStage (now : Z) (d : Deal) : option Z :=
  if (negb (JS.truthy (stage d)) || opt_is (stage d) "closed")%bool
  then Some 0
  else
    match stageEntryDate d with
    | DateAt t => Some (days_since now t)
    | BadDate => None
    | NoDate =>
        match lastActivity d with
        | DateAt t => Some (days_since now t)
        | BadDate => None
        | NoDate => Some (days_since now now)
        end
    end.

(** The object [detectStalling] returns; a [threshold] of [None] is
    [NaN]. *)
Record Stalling := {
  isStalling : bool;
  daysInStage : option Z;
  threshold : option Q;
  st_stage : option string
}.

(** [x > y] where [x] may be [NaN]. *)
Definition gt_num (x : option Z) (y : Q) : bool :=
  match x with
  | Some n => if Qlt_le_dec y (inject_Z n) then true else false
  | None => false
  end.

(** [detectStalling]: [avgDuration * 1.5] is [NaN] when [avgDuration] is
    not a number, and no number is above [NaN]. *)
Definition detectStalling (now : Z) (d : Deal) : Stalling :=
  let days := calculateDaysInStage now d in
  let thr := option_map (fun avg => (inject_Z avg * 1.5)%Q)
               (avgDuration (stage d)) in
  {| isStalling := match thr with
                   | Some t => gt_num days t
                   | None => false
                   end;
     daysInStage := days; threshold := thr; st_stage := stage d |}.

(** [if (!a.date) return false; if (new Date(a.date) < last24Hours) return
    false]: what passes both tests.  A [NaN] date is not below the cut-off. *)
Definition not_before (cutoff : Z) (d : DateField) : bool :=
  match d with
  | NoDate => false
  | BadDate => true
  | DateAt t => negb (t <? cutoff)
  end.

(** [a.date] present and [new Date(a.date) >= last24Hours]. *)
Definition at_or_after (cutoff : Z) (d : DateField) : bool :=
  match d with
  | DateAt t => cutoff <=? t
  | _ => false
  end.

Definition count {A} (p : A -> bool) (l : list A) : Z := zlen (List.filter p l).

(** [x || y] on numbers. *)
Definition num_or (x y : Z) : Z := if x =? 0 then y else x.

Definition is_pricing_link (a : Activity) : bool :=
  let linkUrl :=
    default "" (JS.or_else (a_linkUrl a)
                  (JS.or_else (a_metaUrl a) (JS.or_else (a_url a) (Some "")))) in
  (JS.includes (JS.toLowerCase linkUrl) "pricing" ||
   JS.includes (JS.toLowerCase linkUrl) "price" ||
   opt_is (a_linkClicked a) "pricing")%bool.

(** The object [detectMomentum] returns. *)
Record Momentum := {
  emailOpens : Z;
  emailClicks : Z;
  pricingClicks : Z;
  proposalOpens : Z;
  meetingAccepted : bool;
  hasMomentum : bool
}.

(** [detectMomentum]; [telemetryData] is [None] when no telemetry service
    answers.  The last test of the proposal filter ends in
    [|| a.type === 'document_view'], which holds for every entry that
    reached it, so the texts it also inspects are not part of the model. *)
Definition detectMomentum (now : Z) (telemetryData : option Telemetry)
  (activities : list Activity) : Momentum :=
  let last24Hours := now - 24 * 60 * 60 * 1000 in
  let tele f := match telemetryData with Some t => f t | None => 0 end in
  let recentEmailOpens :=
    num_or (tele emails_opened)
      (count (fun a =>
         ((String.eqb (a_type a) "email" || String.eqb (a_type a) "email_open") &&
          not_before last24Hours (a_date a) &&
          (a_emailOpened a ||
           match a_opens a with Some n => 0 <? n | None => false end ||
           String.eqb (a_type a) "email_open"))%bool) activities) in
  let recentEmailClicks :=
    num_or (tele emails_clicked)
      (count (fun a => (String.eqb (a_type a) "email_click" &&
                        at_or_after last24Hours (a_date a))%bool) activities) in
  let pricing :=
    count (fun a =>
      ((String.eqb (a_type a) "email_click" || String.eqb (a_type a) "link") &&
       not_before last24Hours (a_date a) && is_pricing_link a)%bool) activities in
  let proposals :=
    num_or (tele documents_viewed)
      (count (fun a => (String.eqb (a_type a) "document_view" &&
                        not_before last24Hours (a_date a))%bool) activities) in
  let accepted :=
    ((0 <? tele calendar_accepted) ||
     List.existsb (fun a =>
       (String.eqb (a_type a) "calendar_interaction" &&
        at_or_after last24Hours (a_date a) &&
        opt_is (a_action a) "accepted")%bool) activities)%bool in
  {| emailOpens := recentEmailOpens;
     emailClicks := recentEmailClicks;
     pricingClicks := pricing;
     proposalOpens := proposals;
     meetingAccepted := accepted;
     hasMomentum := ((2 <? recentEmailOpens) || (0 <? recentEmailClicks) ||
                     (1 <? pricing) || (0 <? proposals) || accepted)%bool |}.

(** [arr.sort(cmp)] for a comparator given by [before a b], which holds
    when [cmp(a, b) < 0]; the sort is stable.  The language fixes the
    resulting order only for a consistent comparator; where a comparator
    answers [NaN] for some pairs, [js_sort] is one of the orders an engine
    may leave, and no statement below relies on it there. *)
Fixpoint sort_insert {A} (before : A -> A -> bool) (x : A) (l : list A)
  : list A :=
  match l with
  | [] => [x]
  | y :: rest => if before x y then x :: y :: rest
                 else y :: sort_insert before x rest
  end.

Definition js_sort {A} (before : A -> A -> bool) (l : list A) : list A :=
  List.fold_left (fun acc x => sort_insert before x acc) l [].

(** The time value of a date that is present; [None] is [NaN]. *)
Definition time_of (d : DateField) : option Z :=
  match d with
  | DateAt t => Some t
  | _ => None
  end.

(** [new Date(b.date) - new Date(a.date) < 0]; false when either is [NaN]. *)
Definition later (a b : Activity) : bool :=
  match time_of (a_date a), time_of (a_date b) with
  | Some ta, Some tb => tb <? ta
  | _, _ => false
  end.

(** [calculateLastContactDays]; [None] is [NaN].  When some dates of the
    log are not parseable the order the engine's sort leaves is not fixed by
    the language; [js_sort] is one such order. *)
Definition calculateLastContactDays (now : Z) (d : Deal)
  (activities : list Activity) : option Z :=
  match activities with
  | [] =>
      match lastActivity d with
      | DateAt t => Some (days_since now t)
      | BadDate => None
      | NoDate => Some 999
      end
  | _ =>
      let contactActivities :=
        js_sort later
          (List.filter (fun a =>
             (id_in (a_type a) ["call"; "email"; "meeting"] &&
              match a_date a with NoDate => false | _ => true end)%bool)
             activities) in
      match contactActivities with
      | [] => Some 999
      | a :: _ => option_map (days_since now) (time_of (a_date a))
      end
  end.

(** The object [detectGhosting] returns. *)
Record Ghosting := {
  isGhosting : bool;
  lastContactDays : option Z
}.

Definition detectGhosting (now : Z) (d : Deal) (activities : list Activity)
  : Ghosting :=
  let days := calculateLastContactDays now d activities in
  {| isGhosting := (gt_num days 7 && negb (opt_is (stage d) "closed"))%bool;
     lastContactDays := days |}.

(** [score + x] for a term [x] that is finite or [NaN] ([None]). *)
Definition num_add (score : Num) (x : option Q) : Num :=
  match score, x with
  | NaN, _ | _, None => NaN
  | Number a, Some b => Number (a + b)
  | MinusInfinity, Some _ => MinusInfinity
  | PlusInfinity, Some _ => PlusInfinity
  end.

(** [1 + Math.floor(p / 10)]. *)
Definition base_score (p : Num) : Num :=
  match p with
  | Number q => Number (1 + inject_Z (JS.floor (q / 10)))
  | other => other
  end.

(** [Math.min(Math.max(Math.round(score), 1), 10)]; [None] is [NaN], which
    [Math.round], [Math.max] and [Math.min] pass on. *)
Definition clamp_score (score : Num) : option Z :=
  match score with
  | NaN => None
  | MinusInfinity => Some 1
  | Number q => Some (Z.min (Z.max (JS.round q) 1) 10)
  | PlusInfinity => Some 10
  end.

(** [Math.min(days / k, cap)] for a day count that may be [NaN]. *)
Definition capped (days : option Z) (k cap : Q) : option Q :=
  option_map (fun n => Qmin (inject_Z n / k) cap) days.

(** [calculateUrgencyScore]; [None] is [NaN]. *)
Definition calculateUrgencyScore (d : Deal) (m : Momentum) (s : Stalling)
  (gh : Ghosting) : option Z :=
  let score0 := base_score (probability d) in
  let score1 :=
    if hasMomentum m
    then num_add (num_add (num_add score0
                             (Some (inject_Z (emailOpens m) * 0.5)%Q))
                    (Some (inject_Z (pricingClicks m) * 1)%Q))
           (Some (inject_Z (proposalOpens m) * 1.5)%Q)
    else score0 in
  let score2 :=
    if isStalling s then num_add score1 (capped (daysInStage s) 10 3)
    else score1 in
  let score3 :=
    if isGhosting gh then num_add score2 (capped (lastContactDays gh) 7 2)
    else score2 in
  let score4 :=
    if Qlt_le_dec 200000 (value d) then num_add score3 (Some 1%Q)
    else score3 in
  clamp_score score4.

(** [deal.probability > 50]. *)
Definition likely (d : Deal) : bool :=
  match probability d with
  | Number p => if Qlt_le_dec 50 p then true else false
  | PlusInfinity => true
  | NaN | MinusInfinity => false
  end.

(** Why an action is suggested: one constructor per [actions.push] of
    [generateSmartActions]; the rationale and draft texts are built from
    the constructor's arguments and the contact's name. *)
Inductive Rationale :=
| ProposalOpened
| PricingViewed
| HighEmailEngagement
| NoContact (days : option Z)
| GoingCold
| StuckInStage (stage : option string) (days : option Z)
| RegularFollowUp.

Record Action := {
  action_type : string;
  target_name : string;
  rationale : Rationale
}.

Definition generateSmartActions (now : Z) (d : Deal)
  (activities : list Activity) (m : Momentum) (s : Stalling) (gh : Ghosting)
  : list Action :=
  let primaryContact :=
    match d_contacts d with
    | c :: _ => if JS.truthy (Some c) then c else "the team"
    | [] => "the team"
    end in
  let act ty r := {| action_type := ty; target_name := primaryContact;
                     rationale := r |} in
  let hot :=
    if hasMomentum m then
      if 0 <? proposalOpens m then [act "EMAIL" ProposalOpened]
      else if 0 <? pricingClicks m then [act "EMAIL" PricingViewed]
      else if 2 <? emailOpens m then [act "CALL" HighEmailEngagement]
      else []
    else [] in
  let cold :=
    if isGhosting gh then
      (act "EMAIL" (NoContact (lastContactDays gh)) ::
       (if likely d then [act "LINKEDIN" GoingCold] else []))
    else [] in
  let stuck :=
    if isStalling s
    then [act "CALL" (StuckInStage (st_stage s) (daysInStage s))]
    else [] in
  let actions := (hot ++ cold ++ stuck)%list in
  let actions' :=
    match actions with
    | [] =>
        if (negb (opt_is (stage d) "closed") &&
            gt_num (calculateLastContactDays now d activities) 3)%bool
        then [act "EMAIL" RegularFollowUp]
        else []
    | _ => actions
    end in
  List.firstn 3 actions'.

(** The [signalReason] of a hot lead; [None] is the empty string. *)
Inductive SignalReason :=
| OpenedProposal (n : Z)
| ClickedPricing (n : Z)
| OpenedEmails (n : Z).

Definition signalReason (m : Momentum) : option SignalReason :=
  if 0 <? proposalOpens m then Some (OpenedProposal (proposalOpens m))
  else if 0 <? pricingClicks m then Some (ClickedPricing (pricingClicks m))
  else if 2 <? emailOpens m then Some (OpenedEmails (emailOpens m))
  else None.

(** An element of [hotLeads]; an [urgency_score] of [None] is [NaN]. *)
Record HotLead := {
  hl_deal_id : string;
  lead_name : string;
  signal_reason : SignalReason;
  urgency_score : option Z
}.

Inductive RiskIssue :=
| StuckInStageFor (stage : option string) (days : option Z)
| NoContactFor (days : option Z).

Record Risk := {
  r_deal_id : string;
  r_deal_name : string;
  issue : RiskIssue
}.

(** What one iteration of the loop of [analyze] pushes on the three
    arrays. *)
Definition analyze_deal (now : Z) (telemetry : string -> option Telemetry)
  (getDealActivities : string -> list Activity) (d : Deal)
  : list HotLead * list Risk * list Action :=
  let activities := getDealActivities (d_id d) in
  let momentum := detectMomentum now (telemetry (d_id d)) activities in
  let stalling := detectStalling now d in
  let ghosting := detectGhosting now d activities in
  let hot :=
    if hasMomentum momentum then
      match signalReason momentum with
      | Some r =>
          [{| hl_deal_id := d_id d; lead_name := d_name d; signal_reason := r;
              urgency_score :=
                calculateUrgencyScore d momentum stalling ghosting |}]
      | None => []
      end
    else [] in
  let risks :=
    ((if isStalling stalling
      then [{| r_deal_id := d_id d; r_deal_name := d_name d;
               issue := StuckInStageFor (st_stage stalling)
                          (daysInStage stalling) |}]
      else []) ++
     (if isGhosting ghosting
      then [{| r_deal_id := d_id d; r_deal_name := d_name d;
               issue := NoContactFor (lastContactDays ghosting) |}]
      else []))%list in
  (hot, risks, generateSmartActions now d activities momentum stalling ghosting).

(** The object [analyze] returns. *)
Record Analysis := {
  hot_leads : list HotLead;
  risks : list Risk;
  smart_actions : list Action
}.

(** [b.urgency_score - a.urgency_score < 0] for two hot leads; false when
    either score is [NaN]. *)
Definition hotter (a b : HotLead) : bool :=
  match urgency_score a, urgency_score b with
  | Some sa, Some sb => sb <? sa
  | _, _ => false
  end.

(** [(dealB?.value || 0) - (dealA?.value || 0) < 0] for two risks. *)
Definition risk_before (activeDeals : list Deal) (a b : Risk) : bool :=
  let value_of r :=
    match List.find (fun d => String.eqb (d_id d) (r_deal_id r)) activeDeals with
    | Some d => value d
    | None => 0%Q
    end in
  if Qlt_le_dec (value_of b) (value_of a) then true else false.

(** [analyze()], given the pipeline and the stored logs. *)
Definition analyze (now : Z) (telemetry : string -> option Telemetry)
  (getDealActivities : string -> list Activity) (deals : list Deal)
  : Analysis :=
  let activeDeals :=
    List.filter (fun d => negb (opt_is (stage d) "closed")) deals in
  let per_deal :=
    List.map (analyze_deal now telemetry getDealActivities) activeDeals in
  let hotLeads := List.flat_map (fun r => fst (fst r)) per_deal in
  let risks0 := List.flat_map (fun r => snd (fst r)) per_deal in
  let smartActions := List.flat_map snd per_deal in
  {| hot_leads :=
       List.firstn 5
         (js_sort hotter hotLeads);
     risks := List.firstn 5 (js_sort (risk_before activeDeals) risks0);
     smart_actions := List.firstn 5 smartActions |}.

(** ** Further queries of [GraphService] *)

(** An element of the array [getContactRelationships] returns: the edge,
    the node at its other end ([None] when no node carries that id) and
    the direction seen from the contact. *)
Record Relationship := {
  r_edge : Edge;
  otherNode : option Node;
  direction : string
}.

Definition getContactRelationships (g : GraphService) (contactId : string)
  : list Relationship :=
  List.map (fun e =>
      {| r_edge := e;
         otherNode := find_node (nodes g) (other_end contactId e);
         direction := if String.eqb (source e) contactId
                      then "outgoing" else "incoming" |})
    (List.filter (fun e => (String.eqb (source e) contactId ||
                            String.eqb (target e) contactId)%bool) (edges g)).

(** An element of the array [getInfluenceRecommendations] returns. *)
Record Recommendation := {
  rec_type : string;
  rec_contact : Node;
  rec_priority : string
}.

(** [getInfluenceRecommendations(dealId)]. *)
Definition getInfluenceRecommendations (g : GraphService) (dealId : string)
  : list Recommendation :=
  let dealContacts :=
    List.map (fun e => (source e, strength e))
      (List.filter (fun e => (String.eqb (target e) dealId &&
                              JS.includes (e_type e) "deal")%bool) (edges g)) in
  let strengthen_recs :=
    List.flat_map (fun cs =>
        match find_node (nodes g) (fst cs) with
        | Some c =>
            if ((70 <? influenceScore c) &&
                (if Qlt_le_dec (snd cs) 0.7 then true else false))%bool
            then [{| rec_type := "strengthen_relationship"; rec_contact := c;
                     rec_priority := "high" |}]
            else []
        | None => []
        end) dealContacts in
  let accountId :=
    option_map source
      (List.find (fun e => (String.eqb (target e) dealId &&
                            String.eqb (e_type e) "belongs_to")%bool)
         (edges g)) in
  let engage_recs :=
    match accountId with
    | Some aid =>
        if JS.truthy (Some aid) then
          List.flat_map (fun c =>
              if (negb (id_in (n_id c) (List.map fst dealContacts)) &&
                  (60 <? influenceScore c))%bool
              then [{| rec_type := "engage_contact"; rec_contact := c;
                       rec_priority := "medium" |}]
              else [])
            (getAccountContacts g aid)
        else []
    | None => []
    end in
  (strengthen_recs ++ engage_recs)%list.

(** The [dateRange] of the filters of [getContactInteractions]. *)
Record DateRange := {
  dr_start : DateField;
  dr_end : DateField
}.

(** The [filters] argument of [getContactInteractions]. *)
Record InteractionFilters := {
  f_type : option string;
  f_dateRange : option DateRange
}.

(** [interactionDate < startDate] is false as soon as one side is [NaN];
    a missing bound is not tested. *)
Definition before_start (d : option Z) (start : DateField) : bool :=
  match start, d with
  | DateAt s, Some t => t <? s
  | _, _ => false
  end.

Definition after_end (d : option Z) (stop : DateField) : bool :=
  match stop, d with
  | DateAt s, Some t => s <? t
  | _, _ => false
  end.

(** The comparator [(a, b) => new Date(b.date) - new Date(a.date)] is
    negative: [a] is dated after [b]. *)
Definition newer (a b : Interaction) : bool :=
  match i_date a, i_date b with
  | Some ta, Some tb => tb <? ta
  | _, _ => false
  end.

(** What the three [filter] calls of [getContactInteractions] keep. *)
Definition selected (contactId : string) (filters : InteractionFilters)
  (i : Interaction) : bool :=
  (String.eqb (i_contactId i) contactId &&
   match f_type filters with
   | Some ty => if JS.truthy (Some ty) then String.eqb (i_type i) ty else true
   | None => true
   end &&
   match f_dateRange filters with
   | Some r => negb (before_start (i_date i) (dr_start r)) &&
               negb (after_end (i_date i) (dr_end r))
   | None => true
   end)%bool.

(** [getContactInteractions(contactId, filters)]: the copies made by
    [filter] are sorted, [this.interactions] is left as it is. *)
Definition getContactInteractions (g : GraphService) (contactId : string)
  (filters : InteractionFilters) : list Interaction :=
  js_sort newer (List.filter (selected contactId filters) (interactions g)).

Definition no_filters : InteractionFilters :=
  {| f_type := None; f_dateRange := None |}.

(** The object [getInteractionStats] returns.  [lastInteraction] is [None]
    when there is no interaction; [averageDaysBetween] is [None] for
    fewer than two interactions and [Some None] when it is [NaN]. *)
Record InteractionStats := {
  total : Z;
  byType : gmap string Z;
  totalCallDuration : Q;
  st_lastInteraction : option (option Z);
  averageDaysBetween : option (option Z)
}.

(** [stats.byType[t] = (stats.byType[t] || 0) + 1]. *)
Definition count_type (m : gmap string Z) (i : Interaction) : gmap string Z :=
  <[i_type i := num_or (default 0 (m !! i_type i)) 0 + 1]> m.

(** The sum of the day gaps between consecutive interactions; [None] when
    a date is [NaN]. *)
Fixpoint total_gap_days (l : list Interaction) : option Q :=
  match l with
  | a :: ((b :: _) as rest) =>
      match i_date a, i_date b, total_gap_days rest with
      | Some ta, Some tb, Some s =>
          Some (s + inject_Z (ta - tb) / inject_Z JS.ms_per_day)%Q
      | _, _, _ => None
      end
  | _ => Some 0%Q
  end.

Definition getInteractionStats (g : GraphService) (contactId : string)
  : InteractionStats :=
  let l := getContactInteractions g contactId no_filters in
  {| total := zlen l;
     byType := List.fold_left count_type l ∅;
     totalCallDuration :=
       List.fold_left (fun s i =>
           if String.eqb (i_type i) "call" then
             match i_duration i with
             | Some d => (s + d)%Q
             | None => s
             end
           else s) l 0%Q;
     st_lastInteraction := option_map i_date (List.head l);
     averageDaysBetween :=
       match l with
       | _ :: _ :: _ =>
           Some (option_map
                   (fun s => JS.round (s / inject_Z (zlen l - 1)))
                   (total_gap_days l))
       | _ => None
       end |}.

(** ** [initialize] *)





(** ** [LinkedInService]: normalising relationship suggestions *)

(** [typeMap] of [determineRelationshipType]. *)
Definition relationship_typeMap : list (string * string) :=
  [("colleague", "former_colleague"); ("school", "alumni");
   ("connection", "connected"); ("mutual", "mutual_connection")].

(** [typeMap[type] || 'suggested']; [None] when what is returned is not a
    string: for a type named like a member of [Object.prototype] the map
    answers with that member, which is truthy. *)
Definition determineRelationshipType (type : option string) : option string :=
  match JS.read relationship_typeMap type with
  | JS.Own t => Some (if JS.truthy (Some t) then t else "suggested")
  | JS.Inherited => None
  | JS.Undefined => Some "suggested"
  end.

(** A relationship as the profile service's backend sends it. *)
Record RawRelationship := {
  rr_sourceId : option string;
  rr_source : option string;
  rr_targetId : option string;
  rr_target : option string;
  rr_type : option string;
  rr_relationshipType : option string;
  rr_confidence : option Q;
  rr_strength : option Q;
  rr_confirmed : bool
}.

(** An element of the array [normalizeRelationships] returns; a type of
    [None] is a value that is not a string. *)
Record NormalizedRelationship := {
  nr_source : option string;
  nr_target : option string;
  nr_type : option string;
  nr_strength : Q;
  nr_confirmed : bool
}.

(** Truthiness of a possibly missing number. *)
Definition truthy_num (x : option Q) : bool :=
  match x with
  | Some q => negb (Qeq_bool q 0)
  | None => false
  end.

(** [rel.confidence || rel.strength || 0.5]. *)
Definition normalized_strength (r : RawRelationship) : Q :=
  if truthy_num (rr_confidence r) then default 0%Q (rr_confidence r)
  else if truthy_num (rr_strength r) then default 0%Q (rr_strength r)
  else 0.5%Q.

Definition normalizeRelationship (r : RawRelationship)
  : NormalizedRelationship :=
  {| nr_source := JS.or_else (rr_sourceId r) (rr_source r);
     nr_target := JS.or_else (rr_targetId r) (rr_target r);
     nr_type := determineRelationshipType
                  (JS.or_else (rr_type r) (rr_relationshipType r));
     nr_strength := normalized_strength r;
     nr_confirmed := rr_confirmed r |}.

Definition normalizeRelationships (l : list RawRelationship)
  : list NormalizedRelationship :=
  List.map normalizeRelationship l.

(** The edge [enrichWithLinkedIn] pushes for a normalised suggestion whose
    two ids are present and whose type is a string. *)
Definition suggested_edge (n : NormalizedRelationship) : option Edge :=
  match nr_source n, nr_target n, nr_type n with
  | Some s, Some t, Some ty =>
      Some {| e_id := "edge_linkedin_" ++ s ++ "_" ++ t; source := s;
              target := t; e_type := ty; strength := nr_strength n;
              confirmed := false; e_metadata := None |}
  | _, _, _ => None
  end.

(** ** [HubSpotService]: normalising CRM records *)

(** [determineRole(title)]. *)
Definition determineRole (title : string) : string :=
  let t := JS.toLowerCase title in
  if (JS.includes t "ceo" || JS.includes t "chief executive")%bool
  then "decision_maker"
  else if (JS.includes t "cto" || JS.includes t "chief technology")%bool
  then "decision_maker"
  else if (JS.includes t "cfo" || JS.includes t "chief financial")%bool
  then "decision_maker"
  else if (JS.includes t "vp" || JS.includes t "vice president")%bool
  then "decision_maker"
  else if JS.includes t "director" then "influencer"
  else if JS.includes t "manager" then "influencer"
  else "end_user".

(** [typeMap] of [determineInteractionType]. *)
Definition interaction_typeMap : list (string * string) :=
  [("CALL", "call"); ("EMAIL", "email"); ("MEETING", "meeting");
   ("NOTE", "note"); ("TASK", "task")].

(** [typeMap[activityType] || 'other']; [None] when what is returned is
    not a string. *)
Definition determineInteractionType (activityType : option string)
  : option string :=
  match JS.read interaction_typeMap activityType with
  | JS.Own t => Some (if JS.truthy (Some t) then t else "other")
  | JS.Inherited => None
  | JS.Undefined => Some "other"
  end.

(** ASCII white space, which [trim] removes at both ends. *)
Definition is_space (c : ascii) : bool :=
  let n := nat_of_ascii c in
  ((Nat.leb 9 n && Nat.leb n 13) || Nat.eqb n 32)%bool.

Fixpoint trim_left (s : string) : string :=
  match s with
  | EmptyString => EmptyString
  | String c rest => if is_space c then trim_left rest else s
  end.

Fixpoint trim_right (s : string) : string :=
  match s with
  | EmptyString => EmptyString
  | String c rest =>
      match trim_right rest with
      | EmptyString => if is_space c then EmptyString
                       else String c EmptyString
      | r => String c r
      end
  end.

(** [s.trim()], for names written in ASCII. *)
Definition trim (s : string) : string := trim_right (trim_left s).

(** [x || ''] on a possibly missing string. *)
Definition or_empty (x : option string) : string :=
  default "" (JS.or_else x (Some "")).

(** A contact as the CRM backend sends it: its id, the entries of
    [properties] and the first associated company. *)
Record RawContact := {
  rc_id : string;
  rc_firstname : option string;
  rc_lastname : option string;
  rc_email : option string;
  rc_jobtitle : option string;
  rc_company : option string;
  rc_reports_to : option string;
  rc_manager_id : option string;
  rc_companyAssoc : option string;
  rc_dealAssocs : option Z;
  rc_last_contacted : option Z
}.

Record RawCompany := {
  rco_id : string;
  rco_name : option string
}.

Record RawDeal := {
  rd_id : string;
  rd_dealname : option string;
  rd_companyAssoc : option string;
  rd_contactAssocs : option (list string)
}.

Definition normalizeContact (c : RawContact) : HContact :=
  {| hc_id := "hubspot_contact_" ++ rc_id c;
     hc_hubspotId := Some (rc_id c);
     hc_name := trim (or_empty (rc_firstname c) ++ " " ++
                      or_empty (rc_lastname c));
     hc_title := Some (or_empty (rc_jobtitle c));
     hc_company := Some (or_empty (rc_company c));
     hc_email := Some (or_empty (rc_email c));
     hc_role := Some (determineRole (or_empty (rc_jobtitle c)));
     hc_reportsTo := JS.or_else (rc_reports_to c) (rc_manager_id c);
     hc_managerId := rc_manager_id c;
     hc_companyId := rc_companyAssoc c;
     hc_dealCount := Some (num_or (default 0 (rc_dealAssocs c)) 0);
     hc_lastInteraction := rc_last_contacted c |}.

Definition normalizeContacts (l : list RawContact) : list HContact :=
  List.map normalizeContact l.

Definition normalizeCompany (c : RawCompany) : HCompany :=
  {| co_id := "hubspot_company_" ++ rco_id c;
     co_hubspotId := Some (rco_id c);
     co_name := default "" (JS.or_else (rco_name c) (Some "Unnamed Company")) |}.

Definition normalizeCompanies (l : list RawCompany) : list HCompany :=
  List.map normalizeCompany l.

Definition normalizeDeal (d : RawDeal) : HDeal :=
  {| hd_id := "hubspot_deal_" ++ rd_id d;
     hd_hubspotId := Some (rd_id d);
     hd_name := default "" (JS.or_else (rd_dealname d) (Some "Unnamed Deal"));
     hd_companyId := rd_companyAssoc d;
     hd_contactIds := Some (default [] (rd_contactAssocs d)) |}.

Definition normalizeDeals (l : list RawDeal) : list HDeal :=
  List.map normalizeDeal l.

(** [loadFromHubSpot] run on the backend's records, as [getContacts],
    [getDeals] and [getCompanies] normalise them. *)
Definition import_raw (now : Z) (history : string -> list HInteraction)
  (ints0 : list Interaction) (contacts : list RawContact)
  (deals : list RawDeal) (companies : list RawCompany) : GraphService :=
  loadFromHubSpot now true history ints0
    (normalizeContacts contacts) (normalizeDeals deals)
    (normalizeCompanies companies).

(** ** [TelemetryService]: recent engagement *)

(** Tracked records as the three telemetry stores keep them. *)
Record TrackedEmail := {
  te_dealId : option string;
  te_lastOpened : DateField;
  te_lastClicked : DateField
}.

Record TrackedDocument := {
  td_dealId : option string;
  td_lastViewed : DateField
}.

Record TrackedEvent := {
  ev_dealId : option string;
  ev_lastInteraction : DateField;
  ev_accepted : bool;
  ev_inviteOpened : bool
}.

(** The three telemetry stores. *)
Record TelemetryStores := {
  tracked_emails : list TrackedEmail;
  tracked_documents : list TrackedDocument;
  tracked_events : list TrackedEvent
}.

(** [field && new Date(field) > cutoff]. *)
Definition after_cutoff (cutoff : Z) (d : DateField) : bool :=
  match d with
  | DateAt t => cutoff <? t
  | _ => false
  end.

(** The object [getRecentEngagement] returns. *)
Record RecentEngagement := {
  re_emails_opened : Z;
  re_emails_clicked : Z;
  re_documents_viewed : Z;
  re_calendar_accepted : Z;
  re_calendar_opened : Z
}.

(** [getRecentEngagement(dealId, hours)]; the three [getDeal...] calls keep
    the records whose [dealId] is the one asked for. *)
Definition getRecentEngagement (now : Z) (ts : TelemetryStores)
  (dealId : string) (hours : Z) : RecentEngagement :=
  let cutoff := now - hours * 60 * 60 * 1000 in
  let emails := List.filter (fun e => opt_is (te_dealId e) dealId)
                  (tracked_emails ts) in
  let documents := List.filter (fun d => opt_is (td_dealId d) dealId)
                     (tracked_documents ts) in
  let events := List.filter (fun e => opt_is (ev_dealId e) dealId)
                  (tracked_events ts) in
  {| re_emails_opened :=
       count (fun e => after_cutoff cutoff (te_lastOpened e)) emails;
     re_emails_clicked :=
       count (fun e => after_cutoff cutoff (te_lastClicked e)) emails;
     re_documents_viewed :=
       count (fun d => after_cutoff cutoff (td_lastViewed d)) documents;
     re_calendar_accepted :=
       count (fun e => (after_cutoff cutoff (ev_lastInteraction e) &&
                        ev_accepted e)%bool) events;
     re_calendar_opened :=
       count (fun e => (after_cutoff cutoff (ev_lastInteraction e) &&
                        ev_inviteOpened e)%bool) events |}.

(** [hasHotSignals(dealId)]. *)
Definition hasHotSignals (now : Z) (ts : TelemetryStores) (dealId : string)
  : bool :=
  let recent := getRecentEngagement now ts dealId 24 in
  ((2 <=? re_emails_opened recent) || (1 <=? re_emails_clicked recent) ||
   (1 <=? re_documents_viewed recent) ||
   (1 <=? re_calendar_accepted recent))%bool.

(** The fields of the recent engagement that [detectMomentum] reads. *)
Definition telemetry_of (r : RecentEngagement) : Telemetry :=
  {| emails_opened := re_emails_opened r;
     emails_clicked := re_emails_clicked r;
     documents_viewed := re_documents_viewed r;
     calendar_accepted := re_calendar_accepted r |}.

(** ** Notions used in the statements *)

(** Two node arrays that agree on the id, type and title of every
    element. *)
Definition same_shape (l l' : list Node) : Prop :=
  Forall2 (fun a b => n_id a = n_id b /\ n_type a = n_type b /\
                      n_title a = n_title b) l l'.

(** The node one iteration of the [forEach] of [calculateInfluenceScores]
    leaves, when the scores are computed on the store [g]. *)
Definition rescore (g : GraphService) (now : Z) (n : Node) : Node :=
  if NodeType_eqb (n_type n) contact
  then set_influenceScore n (calculateContactInfluence g now (n_id n))
  else n.

(** Every strength of the array lies in [[0, 1]]. *)
Definition strengths_in_unit (es : list Edge) : Prop :=
  Forall (fun e => (0 <= strength e <= 1)%Q) es.

(** Every contact node carries a [metadata] object, as the nodes built by
    [loadMockGraphData] and [loadFromHubSpot] do. *)
Definition contacts_have_metadata (ns : list Node) : Prop :=
  Forall (fun n => n_type n = contact -> n_metadata n <> None) ns.

(** The same edge, up to its strength and metadata. *)
Definition same_edge (e e' : Edge) : Prop :=
  e_id e' = e_id e /\ source e' = source e /\ target e' = target e /\
  e_type e' = e_type e /\ confirmed e' = confirmed e.

(** The same edge, with a strength that was not lowered and lies in
    [[0, 1]]. *)
Definition not_weakened (e e' : Edge) : Prop :=
  same_edge e e' /\ (strength e <= strength e')%Q /\
  (0 <= strength e' <= 1)%Q.

(** Both ends of every returned edge are ids of returned nodes. *)
Definition edges_closed (r : list Node * list Edge) : Prop :=
  forall e, In e (snd r) ->
            In (source e) (List.map n_id (fst r)) /\
            In (target e) (List.map n_id (fst r)).

(** [b] is reached from [a] along one non-structural edge, in either
    direction. *)
Definition adjacent (es : list Edge) (a b : string) : Prop :=
  exists e, In e es /\ touches a e = true /\ other_end a e = b.

(** Consecutive ids of [p] are adjacent. *)
Fixpoint walk (es : list Edge) (p : list string) : Prop :=
  match p with
  | a :: ((b :: _) as q) => adjacent es a b /\ walk es q
  | _ => True
  end.

(** [p] is a sequence of ids that starts at [a], ends at [b] and walks
    along non-structural edges; it has [length p - 1] hops. *)
Definition connects (es : list Edge) (a b : string) (p : list string) : Prop :=
  List.hd_error p = Some a /\ List.last p a = b /\ p <> [] /\ walk es p.

Definition hops (p : list string) : Z := zlen p - 1.

(** No non-structural edge has [b] as an end. *)
Definition isolated (es : list Edge) (b : string) : bool :=
  List.forallb (fun e => negb (non_structural e &&
                               (String.eqb (source e) b ||
                                String.eqb (target e) b))) es.

(** The share of one id in [potential]. *)
Definition weight (es : list Edge) (visited : gset string) (v : string) : nat :=
  if bool_decide (v ∈ visited) then O else S (degree es v).

(** What holds of every queue entry of [findPath]: its path walks from the
    source to its id, and is the initial path or has at most [maxDepth]
    hops. *)
Definition entry_ok (es : list Edge) (sourceId : string) (maxDepth : Z)
  (entry : string * list string) : Prop :=
  connects es sourceId (fst entry) (snd entry) /\
  (snd entry = [sourceId] \/ hops (snd entry) <= maxDepth).

(** The level the recursion of [calculateLevels] assigns to [k] under the
    visited set [visited]: a revisited id is at level 0, an id without a
    manager is at level 0, and any other id is one level below its
    manager, the manager's level being taken with [k] marked visited. *)
Inductive LevelOf (h : gmap string HEntry)
  : string -> gset string -> Z -> Prop :=
| level_revisited k visited :
    k ∈ visited -> LevelOf h k visited 0
| level_top k visited node :
    k ∉ visited -> h !! k = Some node ->
    JS.truthy (reportsTo node) = false ->
    LevelOf h k visited 0
| level_below k visited node m l :
    k ∉ visited -> h !! k = Some node ->
    reportsTo node = Some m -> JS.truthy (Some m) = true ->
    LevelOf h m ({[k]} ∪ visited) l ->
    LevelOf h k visited (l + 1).

(** Two hierarchies with the same keys and the same [reportsTo]
    pointers. *)
Definition same_pointers (h h' : gmap string HEntry) : Prop :=
  forall k, reportsTo <$> (h !! k) = reportsTo <$> (h' !! k).

(** The reporting lines of [h] have no cycle: some rank decreases from
    each entry to its manager. *)
Definition acyclic (h : gmap string HEntry) : Prop :=
  exists rank : string -> nat,
    forall k node m,
      h !! k = Some node -> reportsTo node = Some m ->
      JS.truthy (Some m) = true -> (rank m < rank k)%nat.

(** A store in which two contacts of one account report to each other. *)
Definition cyclic_store : GraphService :=
  {| nodes := [ Mock.mk_contact "a" "Ann" "VP" "Loop Inc" "ann@loop.io"
                  "decision_maker" 0 0 0;
                Mock.mk_contact "b" "Bob" "Manager" "Loop Inc" "bob@loop.io"
                  "influencer" 0 0 0;
                Mock.mk_other "acct" account "Loop Inc" ];
     edges := [ Mock.mk_edge "e1" "a" "acct" "works_at" 1 true None;
                Mock.mk_edge "e2" "b" "acct" "works_at" 1 true None;
                Mock.mk_edge "e3" "a" "b" "reports_to" (9 # 10) true None;
                Mock.mk_edge "e4" "b" "a" "reports_to" (9 # 10) true None ];
     interactions := [] |}.

(** A profile service that suggests, for every contact, a relationship
    with an id no node carries. *)
Definition ghost_service : LinkedIn :=
  {| getProfileByEmail := fun _ => Some {| headline := None |};
     searchProfile := fun _ _ => None;
     getRelationshipSuggestions := fun cid _ =>
       [{| s_source := cid; s_target := "ghost";
           s_type := "mutual_connection"; s_strength := 0.5;
           s_metadata := None |}] |}.

(** An answer of the relationship endpoint whose confidence is not a
    share of one. *)
Definition overconfident_relationship : RawRelationship :=
  {| rr_sourceId := Some "contact_2"; rr_source := None;
     rr_targetId := Some "contact_4"; rr_target := None;
     rr_type := Some "colleague"; rr_relationshipType := None;
     rr_confidence := Some 7%Q; rr_strength := None;
     rr_confirmed := false |}.

(** A profile service that knows every contact and returns, for contact_2,
    that answer as [normalizeRelationships] leaves it. *)
Definition overconfident_service : LinkedIn :=
  {| getProfileByEmail := fun _ => Some {| headline := None |};
     searchProfile := fun _ _ => None;
     getRelationshipSuggestions := fun cid _ =>
       if String.eqb cid "contact_2"
       then [{| s_source := "contact_2"; s_target := "contact_4";
                s_type := "former_colleague"; s_strength := 7;
                s_metadata := Some {| em_source := Some "linkedin";
                                      em_lastVerified := None;
                                      em_lastInteraction := None;
                                      em_interactionCount := None |} |}]
       else [] |}.

(** An import batch in which Bob reports to a contact that was not
    imported. *)
Definition bob_alone : list HContact :=
  [{| hc_id := "hubspot_contact_2"; hc_hubspotId := Some "2";
      hc_name := "Bob"; hc_title := Some "Manager"; hc_company := None;
      hc_email := None; hc_role := Some "influencer";
      hc_reportsTo := Some "1"; hc_managerId := None; hc_companyId := None;
      hc_dealCount := None; hc_lastInteraction := None |}].

(** The per-stage averages the stalling rule is stated with. *)
Definition stage_averages : list (string * Z) :=
  [("new", 3); ("contacted", 5); ("qualified", 7); ("proposal", 10);
   ("negotiation", 14)].

(** A deal in stage [s] whose only date is a last activity at [t]. *)
Definition deal_in_stage (s : string) (t : Z) : Deal :=
  {| d_id := "deal"; d_name := "Deal"; stage := Some s;
     probability := Number 50;
     value := 50000; lastActivity := DateAt t; stageEntryDate := NoDate;
     d_contacts := ["Pat Doe"] |}.

(** A log entry: a non-pricing link of an email clicked at [t]. *)
Definition email_click_at (t : Z) : Activity :=
  {| a_type := "email_click"; a_date := DateAt t; a_emailOpened := false;
     a_opens := None; a_linkUrl := Some "https://example.com/blog";
     a_metaUrl := None; a_url := None; a_linkClicked := None;
     a_action := None |}.

(** The momentum [m] with its flag switched off. *)
Definition without_momentum (m : Momentum) : Momentum :=
  {| emailOpens := emailOpens m; emailClicks := emailClicks m;
     pricingClicks := pricingClicks m; proposalOpens := proposalOpens m;
     meetingAccepted := meetingAccepted m; hasMomentum := false |}.

(** A store in which a contact of the account reports to a contact
    outside it. *)
Definition cross_account_store : GraphService :=
  {| nodes := [ Mock.mk_contact "a" "Ann" "VP" "Loop Inc" "ann@loop.io"
                  "decision_maker" 0 0 0;
                Mock.mk_contact "z" "Zed" "CEO" "Other Inc" "zed@other.io"
                  "decision_maker" 0 0 0;
                Mock.mk_other "acct" account "Loop Inc" ];
     edges := [ Mock.mk_edge "e1" "a" "acct" "works_at" 1 true None;
                Mock.mk_edge "e2" "a" "z" "reports_to" (9 # 10) true None ];
     interactions := [] |}.

(** A clock value used in the examples: 2024-01-17T00:00:00Z. *)
Definition example_now : Z := 1705449600000.

(** ** The strength update in binary64 *)

(** [updateRelationshipStrength] with the strengths as the IEEE doubles the
    engine holds.  The edge record keeps the fields the filter reads; the
    time stamp and counter the update also writes are as in the rational
    model. *)
Module Binary64.

Record Edge := {
  source : string;
  target : string;
  e_type : string;
  strength : float
}.

(** The filter that selects [contactEdges]. *)
Definition touches (contactId : string) (e : Edge) : bool :=
  ((String.eqb (source e) contactId || String.eqb (target e) contactId) &&
   negb (String.eqb (e_type e) "works_at") &&
   negb (String.eqb (e_type e) "belongs_to"))%bool.

(** [Math.min(x, 1.0)]. *)
Definition min_one (x : float) : float :=
  if PrimFloat.is_nan x then x
  else if PrimFloat.ltb x 1%float then x else 1%float.

(** [metadata.duration || 0]. *)
Definition callDuration (duration : option float) : float :=
  match duration with
  | Some d => if (PrimFloat.is_nan d || PrimFloat.eqb d 0%float)%bool
              then 0%float else d
  | None => 0%float
  end.

(** The [increase] computed for each edge. *)
Definition increase (interactionType : string) (duration : option float)
  (completed : option bool) : float :=
  let base :=
    if String.eqb interactionType "call"
    then PrimFloat.add 0.02%float
           (if PrimFloat.ltb 30%float (callDuration duration)
            then 0.03%float else 0%float)
    else if String.eqb interactionType "meeting" then 0.04%float
    else if String.eqb interactionType "email" then 0.01%float
    else 0.005%float in
  if not_false completed then PrimFloat.mul base 1.2%float else base.

(** The body of [contactEdges.forEach], on the strength. *)
Definition strengthen (inc : float) (e : Edge) : Edge :=
  {| source := source e; target := target e; e_type := e_type e;
     strength := min_one (PrimFloat.add (strength e) inc) |}.

Definition updateRelationshipStrength (contactId interactionType : string)
  (duration : option float) (completed : option bool) (es : list Edge)
  : list Edge :=
  List.map (fun e => if touches contactId e
                     then strengthen (increase interactionType duration completed) e
                     else e) es.


End Binary64.

(** ** Notions used in the further statements *)

(** No edge type of the array contains the letters deal. *)
Definition no_deal_types (es : list Edge) : Prop :=
  Forall (fun e => JS.includes (e_type e) "deal" = false) es.

(** The edge types the import and the fixtures write. *)
Definition crm_types : list string :=
  ["reports_to"; "works_at"; "belongs_to"; "decision_maker_for";
   "influencer_for"].

(** The filter with its [minInfluence] removed. *)
Definition without_minInfluence (f : Filter) : Filter :=
  {| accountId := accountId f; dealId := dealId f; minInfluence := None |}.

(** [a] is dated no earlier than [b], both dates being valid. *)
Definition not_older (a b : Interaction) : Prop :=
  exists ta tb, i_date a = Some ta /\ i_date b = Some tb /\ tb <= ta.

(** [n] calls of [updateRelationshipStrength] with the same arguments. *)
Fixpoint repeat_update (n : nat) (g : GraphService) (now : Z)
  (contactId interactionType : string) (md : Metadata) : GraphService :=
  match n with
  | O => g
  | S k => updateRelationshipStrength
             (repeat_update k g now contactId interactionType md)
             now contactId interactionType md
  end.

(** The ids of the contacts of an account. *)
Definition account_ids (g : GraphService) (aid : string) : list string :=
  List.map n_id (getAccountContacts g aid).

(** An edge of the org chart with exactly one end among the account's
    contacts. *)
Definition leaves_account (g : GraphService) (aid : string) (e : Edge) : bool :=
  (is_org_type e &&
   xorb (id_in (source e) (account_ids g aid))
        (id_in (target e) (account_ids g aid)))%bool.

(** The value [risk_before] compares: that of the first active deal with
    the risk's id, 0 when there is none. *)
Definition risk_value (activeDeals : list Deal) (r : Risk) : Q :=
  match List.find (fun d => String.eqb (d_id d) (r_deal_id r)) activeDeals with
  | Some d => value d
  | None => 0%Q
  end.

(** The deals [analyze] looks at. *)
Definition active_deals (deals : list Deal) : list Deal :=
  List.filter (fun d => negb (opt_is (stage d) "closed")) deals.

(** A log entry that counts as a contact: a call, an email or a meeting
    with a date. *)
Definition is_contact_activity (a : Activity) : bool :=
  (id_in (a_type a) ["call"; "email"; "meeting"] &&
   match a_date a with NoDate => false | _ => true end)%bool.

(** Every dated entry of the log is dated before the cut-off. *)
Definition all_stale (cutoff : Z) (log : list Activity) : Prop :=
  Forall (fun a => match a_date a with
                   | DateAt t => t < cutoff
                   | BadDate => False
                   | NoDate => True
                   end) log.

(** The unordered pair of ids an edge joins is the pair [(a, b)]. *)
Definition joins (e : Edge) (a b : string) : Prop :=
  (source e = a /\ target e = b) \/ (source e = b /\ target e = a).

(** [needle] occurs in [hay]. *)
Definition occurs_in (needle hay : string) : Prop :=
  exists pre post, hay = (pre ++ needle ++ post)%string.

(** Edges kept up to strength and metadata, no strong edge made weak. *)
Definition kept_strong (e e' : Edge) : Prop :=
  same_edge e e' /\
  (Qle_bool (7 # 10) (strength e) = true ->
   Qle_bool (7 # 10) (strength e') = true).

(** From [c], the ids of [l] are reached one after the other along
    non-structural edges, and the last one reached is [t]. *)
Fixpoint chain (es : list Edge) (c : string) (l : list string) (t : string)
  : Prop :=
  match l with
  | [] => c = t
  | x :: l' => adjacent es c x /\ chain es x l' t
  end.

(** The queue of [findPath] holds paths of [k] hops followed by paths of
    [k + 1] hops. *)
Definition levelled (queue : list (string * list string)) : Prop :=
  exists k Q1 Q2,
    queue = (Q1 ++ Q2)%list /\
    Forall (fun entry => hops (snd entry) = k) Q1 /\
    Forall (fun entry => hops (snd entry) = k + 1) Q2.

(** Some queue entry can still be completed to a path to [t] of at most
    [d] hops through ids not yet visited. *)
Definition on_track (es : list Edge) (t : string) (d : Z)
  (visited : gset string) (queue : list (string * list string)) : Prop :=
  exists c path l,
    In (c, path) queue /\ chain es c l t /\ hops path + zlen l <= d /\
    (c ∉ visited) /\ Forall (fun v => v ∉ visited) l.

(** Every element of a path is a node of the store. *)
Definition all_nodes (g : GraphService) (found : list (option Node)) : Prop :=
  Forall (fun o => exists n, o = Some n /\ In n (nodes g)) found.

(** The end of an org edge that reports, and the end it reports to. *)
Definition child_of (e : Edge) : string :=
  if String.eqb (e_type e) "reports_to" then source e else target e.

Definition manager_of (e : Edge) : string :=
  if String.eqb (e_type e) "reports_to" then target e else source e.

(** The entry of key [k] once [c] has been linked to its manager [m]. *)
Definition linked (c m k : string) (node : HEntry) : HEntry :=
  {| h_contact := h_contact node;
     reportsTo := if String.eqb k c then Some m else reportsTo node;
     manages := if (String.eqb k m && negb (id_in c (manages node)))%bool
                then (manages node ++ [c])%list else manages node;
     level := level node |}.

(** [e] is an org edge of the store that makes [k] report to [m]. *)
Definition reports (g : GraphService) (k m : string) (e : Edge) : Prop :=
  In e (edges g) /\ is_org_type e = true /\
  child_of e = k /\ manager_of e = m.

(** A hierarchy over the nodes [contacts]: its keys are their ids, every
    entry carries a node of [contacts] with the id of its key, every
    manager pointer names a key whose [manages] list holds the reporting
    key, and the [manages] lists hold keys, each once and each for an org
    edge of the store. *)
Definition org_wf (g : GraphService) (contacts : list Node)
  (h : gmap string HEntry) : Prop :=
  (forall k, is_Some (h !! k) <-> In k (List.map n_id contacts)) /\
  (forall k node,
      h !! k = Some node ->
      n_id (h_contact node) = k /\ In (h_contact node) contacts) /\
  (forall k node m,
      h !! k = Some node -> reportsTo node = Some m ->
      (exists e, reports g k m e) /\
      exists mnode, h !! m = Some mnode /\ In k (manages mnode)) /\
  (forall m mnode,
      h !! m = Some mnode ->
      List.NoDup (manages mnode) /\
      forall k, In k (manages mnode) ->
                is_Some (h !! k) /\ exists e, reports g k m e).

(** The fields of an entry that the level pass leaves alone. *)
Definition links (node : HEntry) : Node * option string * list string :=
  (h_contact node, reportsTo node, manages node).

(** The deal [d] with another probability. *)
Definition with_probability (d : Deal) (p : Num) : Deal :=
  {| d_id := d_id d; d_name := d_name d; stage := stage d;
     probability := p;
     value := value d; lastActivity := lastActivity d;
     stageEntryDate := stageEntryDate d; d_contacts := d_contacts d |}.

(** The score of [a] is a number, and so is the score of [b], which is no
    higher. *)
Definition outscores (a b : HotLead) : Prop :=
  match urgency_score a, urgency_score b with
  | Some x, Some y => y <= x
  | _, _ => False
  end.

(** A penalty of [calculateUrgencyScore] is applied to a day count that is
    [NaN]; the flags [detectStalling] and [detectGhosting] return never
    ask for it. *)
Definition penalty_on_nan (s : Stalling) (gh : Ghosting) : Prop :=
  (isStalling s = true /\ daysInStage s = None) \/
  (isGhosting gh = true /\ lastContactDays gh = None).

(** [primaryContact] of [generateSmartActions]: [contacts[0] || 'the team']. *)
Definition primary_contact (d : Deal) : string :=
  match d_contacts d with
  | c :: _ => if JS.truthy (Some c) then c else "the team"
  | [] => "the team"
  end.

(** The cut-off [last24Hours] of [detectMomentum]. *)
Definition last24Hours (now : Z) : Z := now - 24 * 60 * 60 * 1000.

(** The date of a log entry is present and parseable. *)
Definition dated (a : Activity) : Prop := exists t, a_date a = DateAt t.

(** [a] is dated no earlier than [b]. *)
Definition no_earlier (a b : Activity) : Prop :=
  exists ta tb, a_date a = DateAt ta /\ a_date b = DateAt tb /\ tb <= ta.

(** What the loop of [analyze] pushes for the active deals, in pipeline
    order. *)
Definition hot_candidates (now : Z) (telemetry : string -> option Telemetry)
  (getDealActivities : string -> list Activity) (deals : list Deal)
  : list HotLead :=
  List.flat_map
    (fun d => fst (fst (analyze_deal now telemetry getDealActivities d)))
    (active_deals deals).

Definition risk_candidates (now : Z) (telemetry : string -> option Telemetry)
  (getDealActivities : string -> list Activity) (deals : list Deal)
  : list Risk :=
  List.flat_map
    (fun d => snd (fst (analyze_deal now telemetry getDealActivities d)))
    (active_deals deals).

Definition action_candidates (now : Z) (telemetry : string -> option Telemetry)
  (getDealActivities : string -> list Activity) (deals : list Deal)
  : list Action :=
  List.flat_map
    (fun d => snd (analyze_deal now telemetry getDealActivities d))
    deals.

(** A pipeline of three deals: a stalled one worth 300,000, one whose
    proposal was opened an hour ago, and a closed one. *)
Definition example_pipeline : list Deal :=
  [ {| d_id := "deal_a"; d_name := "Acme renewal"; stage := Some "qualified";
       probability := Number 70; value := 300000;
       lastActivity := DateAt (example_now - 12 * JS.ms_per_day);
       stageEntryDate := NoDate; d_contacts := ["Ann Lee"] |};
    {| d_id := "deal_b"; d_name := "Globex pilot"; stage := Some "proposal";
       probability := Number 40; value := 80000;
       lastActivity := DateAt (example_now - JS.ms_per_day);
       stageEntryDate := NoDate; d_contacts := [] |};
    {| d_id := "deal_c"; d_name := "Initech"; stage := Some "closed";
       probability := Number 100; value := 900000;
       lastActivity := DateAt (example_now - 40 * JS.ms_per_day);
       stageEntryDate := NoDate; d_contacts := ["Sam Roe"] |} ].

(** A log entry of the given type and date with nothing else set. *)
Definition entry (ty : string) (date : DateField) : Activity :=
  {| a_type := ty; a_date := date; a_emailOpened := false; a_opens := None;
     a_linkUrl := None; a_metaUrl := None; a_url := None;
     a_linkClicked := None; a_action := None |}.

(** The stored logs of the example: deal_b had a call three days ago and
    its proposal viewed an hour ago. *)
Definition example_logs (dealId : string) : list Activity :=
  if String.eqb dealId "deal_b"
  then [ entry "call" (DateAt (example_now - 3 * JS.ms_per_day));
         entry "document_view" (DateAt (example_now - 3600000)) ]
  else [].

(** [es'] is [es] with edges pushed at its end one at a time, each
    unconfirmed and joining a pair of ids that no edge before it joins in
    either direction. *)
Inductive pushed_onto (es : list Edge) : list Edge -> Prop :=
| pushed_none : pushed_onto es es
| pushed_one es' e :
    pushed_onto es es' ->
    confirmed e = false ->
    (forall e', In e' es' -> ~ joins e' (source e) (target e)) ->
    pushed_onto es (es' ++ [e]).

(** What enrichment keeps of a node: its id, type, name, metadata and
    score; the whole node when it is no contact; its title when it has
    one. *)
Definition enriched_from (n n' : Node) : Prop :=
  n_id n' = n_id n /\ n_type n' = n_type n /\ n_name n' = n_name n /\
  n_metadata n' = n_metadata n /\ influenceScore n' = influenceScore n /\
  (n_type n <> contact -> n' = n) /\
  (JS.truthy (n_title n) = true -> n_title n' = n_title n).

(** Two nodes agree on every field the model carries: id, type, name,
    title, company, email, influence score, role, CRM id, metadata and
    the [verified] flag of the [linkedin] object. *)
Definition same_fields (n n' : Node) : Prop :=
  n_id n' = n_id n /\ n_type n' = n_type n /\ n_name n' = n_name n /\
  n_title n' = n_title n /\ n_company n' = n_company n /\
  n_email n' = n_email n /\ influenceScore n' = influenceScore n /\
  n_role n' = n_role n /\ n_hubspotId n' = n_hubspotId n /\
  n_metadata n' = n_metadata n /\
  linkedin_verified n' = linkedin_verified n.

(** The relationship types [normalizeRelationships] writes. *)
Definition linkedin_types : list string :=
  ["former_colleague"; "alumni"; "connected"; "mutual_connection";
   "suggested"].

(** A profile service that knows every contact by email and suggests a
    link from each contact to contact_5. *)
Definition example_linkedin : LinkedIn :=
  {| getProfileByEmail := fun _ => Some {| headline := Some "Advisor" |};
     searchProfile := fun _ _ => None;
     getRelationshipSuggestions := fun cid _ =>
       [{| s_source := cid; s_target := "contact_5";
           s_type := "connected"; s_strength := 0.4;
           s_metadata := None |}] |}.

(** Three CRM contacts, a company and a deal as the backend sends
    them. *)
Definition example_raw_contacts : list RawContact :=
  [ {| rc_id := "1"; rc_firstname := Some "Ann"; rc_lastname := Some "Lee";
       rc_email := Some "ann@acme.io"; rc_jobtitle := Some "VP Sales";
       rc_company := Some "Acme"; rc_reports_to := None;
       rc_manager_id := None; rc_companyAssoc := Some "9";
       rc_dealAssocs := Some 1; rc_last_contacted := None |};
    {| rc_id := "2"; rc_firstname := Some "Bob"; rc_lastname := None;
       rc_email := None; rc_jobtitle := Some "Director of IT";
       rc_company := Some "Acme"; rc_reports_to := Some "1";
       rc_manager_id := None; rc_companyAssoc := Some "9";
       rc_dealAssocs := None; rc_last_contacted := None |} ].

Definition example_raw_companies : list RawCompany :=
  [ {| rco_id := "9"; rco_name := Some "Acme" |} ].

Definition example_raw_deals : list RawDeal :=
  [ {| rd_id := "7"; rd_dealname := Some "Renewal";
       rd_companyAssoc := Some "9"; rd_contactAssocs := Some ["1"; "2"] |} ].

(** * Properties *)

(** ** Primitive facts *)

Lemma id_in_In (x : string) (l : list string) : id_in x l = true <-> In x l.
Proof.
  unfold id_in. rewrite existsb_exists. split.
  - intros [y [Hy He]]. apply String.eqb_eq in He. now subst.
  - intros H. exists x. split; [assumption | apply String.eqb_refl].
Qed.

Lemma round_nonneg (x : Q) : (0 <= x)%Q -> 0 <= JS.round x.
Proof.
  intros H. unfold JS.round.
  change 0 with (Qfloor 0). apply Qfloor_resp_le. lra.
Qed.

Lemma zlen_nonneg {A} (l : list A) : 0 <= zlen l.
Proof. unfold zlen. lia. Qed.

(** ** Influence scorer *)

Section Scorer.

Lemma role_points_values (t : option string) :
  In (role_points t) [0; 30; 25; 20; 15; 10; 5].
Proof.
  unfold role_points.
  destruct (List.find _ roleScores) as [rp|] eqn:E; [|now left].
  apply List.find_some in E. destruct E as [Hin _].
  simpl in Hin.
  repeat (destruct Hin as [<- | Hin]; [simpl; tauto |]).
  contradiction.
Qed.

Lemma role_points_range (t : option string) : 0 <= role_points t <= 30.
Proof.
  pose proof (role_points_values t) as H. simpl in H.
  repeat (destruct H as [<- | H]; [lia |]). contradiction.
Qed.

(** No key of the table included in the title: nothing is added. *)
Lemma role_points_no_key (t : string) :
  (forall rp, In rp roleScores ->
              JS.includes (JS.toLowerCase t) (fst rp) = false) ->
  t <> "" ->
  role_points (Some t) = 0.
Proof.
  intros Hno Hne. unfold role_points.
  assert (Ht : JS.or_else (Some t) (Some "") = Some t).
  { unfold JS.or_else, JS.truthy.
    destruct (String.eqb t "") eqn:E; [|reflexivity].
    apply String.eqb_eq in E. contradiction. }
  rewrite Ht. simpl default.
  destruct (List.find _ roleScores) as [rp|] eqn:E; [|reflexivity].
  apply List.find_some in E. destruct E as [Hin Hinc].
  rewrite (Hno rp Hin) in Hinc. discriminate.
Qed.

Lemma raw_score_range g now cid title :
  (0 <= raw_score g now cid title <= 100)%Q.
Proof.
  unfold raw_score.
  pose proof (role_points_range title) as Hr.
  set (a := Z.min (zlen (dealEdges (edges g) cid) * 10) 20).
  set (b := Z.min (zlen (strongRelationships (edges g) cid) * 3) 20).
  set (c := Z.min (zlen (recentInteractions (interactions g) now cid) * 2) 15).
  set (k := connections (edges g) cid).
  assert (Ha : 0 <= a <= 20)
    by (subst a; pose proof (zlen_nonneg (dealEdges (edges g) cid)); lia).
  assert (Hb : 0 <= b <= 20)
    by (subst b; pose proof (zlen_nonneg (strongRelationships (edges g) cid)); lia).
  assert (Hc : 0 <= c <= 15)
    by (subst c;
        pose proof (zlen_nonneg (recentInteractions (interactions g) now cid));
        lia).
  assert (Hk : 0 <= k) by (subst k; unfold connections; lia).
  assert (Hq : (0 <= Qmin (inject_Z k * (3 # 2)) 15 <= 15)%Q).
  { split; [apply Q.min_glb | apply Q.le_min_r].
    - apply Qmult_le_0_compat; [|lra].
      change 0%Q with (inject_Z 0). now rewrite <- Zle_Qle.
    - lra. }
  destruct Hr as [Hr1 Hr2], Ha as [Ha1 Ha2], Hb as [Hb1 Hb2], Hc as [Hc1 Hc2].
  rewrite Zle_Qle in Hr1, Hr2, Ha1, Ha2, Hb1, Hb2, Hc1, Hc2.
  change (inject_Z 0) with 0%Q in *. change (inject_Z 30) with 30%Q in *.
  change (inject_Z 20) with 20%Q in *. change (inject_Z 15) with 15%Q in *.
  lra.
Qed.

Lemma calculateContactInfluence_range g now cid :
  0 <= calculateContactInfluence g now cid <= 100.
Proof.
  unfold calculateContactInfluence.
  destruct (find_node (nodes g) cid) as [c|]; [|lia].
  destruct (negb (NodeType_eqb (n_type c) contact)); [lia|].
  pose proof (raw_score_range g now cid (n_title c)) as [H0 _].
  apply round_nonneg in H0. lia.
Qed.

Lemma same_shape_refl l : same_shape l l.
Proof. induction l; constructor; auto. Qed.

Lemma same_shape_trans l1 l2 l3 :
  same_shape l1 l2 -> same_shape l2 l3 -> same_shape l1 l3.
Proof.
  intros H. revert l3.
  induction H as [|a b l l' (Hid & Hty & Hti) _ IH]; intros l3 H3;
    inversion H3 as [|b' c l2' l3' (Hid' & Hty' & Hti') Hr]; subst;
    constructor.
  - repeat split; congruence.
  - now apply IH.
Qed.

Lemma same_shape_app l1 l1' l2 l2' :
  same_shape l1 l1' -> same_shape l2 l2' ->
  same_shape (l1 ++ l2) (l1' ++ l2').
Proof. apply Forall2_app. Qed.

Lemma calculateContactInfluence_shape ns ns' es ints now cid :
  same_shape ns ns' ->
  calculateContactInfluence
    {| nodes := ns; edges := es; interactions := ints |} now cid =
  calculateContactInfluence
    {| nodes := ns'; edges := es; interactions := ints |} now cid.
Proof.
  intros H. unfold calculateContactInfluence, find_node. simpl nodes.
  induction H as [|a b l l' (Hid & Hty & Hti) _ IH]; [reflexivity|].
  simpl. rewrite <- Hid.
  destruct (String.eqb (n_id a) cid).
  - rewrite Hty, Hti. unfold raw_score. reflexivity.
  - exact IH.
Qed.

Lemma rescore_shape g now n :
  n_id (rescore g now n) = n_id n /\ n_type (rescore g now n) = n_type n /\
  n_title (rescore g now n) = n_title n.
Proof.
  unfold rescore. destruct (NodeType_eqb (n_type n) contact); auto.
Qed.

Lemma scores_loop_map es ints now todo : forall seen ns0,
  same_shape ns0 (seen ++ todo) ->
  scores_loop seen todo es ints now =
  (seen ++ List.map (rescore {| nodes := ns0; edges := es;
                                 interactions := ints |} now) todo)%list.
Proof.
  induction todo as [|n rest IH]; intros seen ns0 Hs; simpl.
  - now rewrite app_nil_r.
  - set (n' := if NodeType_eqb (n_type n) contact then _ else n).
    assert (Hn' : n' = rescore {| nodes := ns0; edges := es;
                                  interactions := ints |} now n).
    { subst n'. unfold rescore.
      destruct (NodeType_eqb (n_type n) contact); [|reflexivity].
      f_equal. symmetry. now apply calculateContactInfluence_shape. }
    rewrite (IH (seen ++ [n'])%list ns0).
    + rewrite <- app_assoc. simpl. now rewrite Hn'.
    + rewrite <- app_assoc. simpl.
      eapply same_shape_trans; [exact Hs|].
      apply same_shape_app; [apply same_shape_refl|].
      constructor; [|apply same_shape_refl].
      rewrite Hn'. pose proof (rescore_shape
        {| nodes := ns0; edges := es; interactions := ints |} now n).
      intuition congruence.
Qed.

End Scorer.

(** What [calculateInfluenceScores] leaves: the nodes rescored on the
    store it was called on, and scores that no longer depend on it. *)
Lemma influence_score_nodes (g : GraphService) (now : Z) :
  same_shape (nodes g) (List.map (rescore g now) (nodes g)) /\
  nodes (calculateInfluenceScores g now) = List.map (rescore g now) (nodes g) /\
  (forall cid, calculateContactInfluence (calculateInfluenceScores g now) now cid
               = calculateContactInfluence g now cid).
Proof.
  assert (Hshape : same_shape (nodes g) (List.map (rescore g now) (nodes g))).
  { assert (Hl : forall l, same_shape l (List.map (rescore g now) l)).
    { induction l as [|n l IH]; simpl; constructor; [|exact IH].
      pose proof (rescore_shape g now n). intuition congruence. }
    apply Hl. }
  assert (Hmap : nodes (calculateInfluenceScores g now)
                 = List.map (rescore g now) (nodes g)).
  { destruct g as [ns es ints]. unfold calculateInfluenceScores. simpl.
    rewrite (scores_loop_map es ints now ns [] ns (same_shape_refl ns)).
    reflexivity. }
  split; [exact Hshape|]. split; [exact Hmap|].
  intros cid. destruct g as [ns es ints].
  unfold calculateInfluenceScores in Hmap |- *. simpl in Hmap, Hshape |- *.
  rewrite Hmap. symmetry. now apply calculateContactInfluence_shape.
Qed.

(** C1. For every contact node of the store the influence score that
    [calculateContactInfluence] computes, and that
    [calculateInfluenceScores] writes back, is an integer between 0 and
    100; the score depends on the store only through ids, types, titles,
    edges and interactions, so that recomputing it on the store just
    rescored (same nodes, edges, interactions and clock) gives the same
    scores and leaves the store as it is. *)
Theorem influence_score_bounded_and_stable (g : GraphService) (now : Z) :
  (forall cid, 0 <= calculateContactInfluence g now cid <= 100) /\
  nodes (calculateInfluenceScores g now) = List.map (rescore g now) (nodes g) /\
  (forall n, In n (nodes (calculateInfluenceScores g now)) ->
             n_type n = contact ->
             influenceScore n = calculateContactInfluence g now (n_id n) /\
             0 <= influenceScore n <= 100) /\
  (forall cid, calculateContactInfluence (calculateInfluenceScores g now) now cid
               = calculateContactInfluence g now cid) /\
  calculateInfluenceScores (calculateInfluenceScores g now) now
  = calculateInfluenceScores g now.
Proof.
  assert (Hmap : forall g, nodes (calculateInfluenceScores g now)
                           = List.map (rescore g now) (nodes g))
    by (intros g0; apply influence_score_nodes).
  assert (Hcalc : forall g cid,
             calculateContactInfluence (calculateInfluenceScores g now) now cid
             = calculateContactInfluence g now cid)
    by (intros g0; apply influence_score_nodes).
  repeat split.
  - apply calculateContactInfluence_range.
  - apply calculateContactInfluence_range.
  - apply Hmap.
  - rewrite Hmap in H. apply in_map_iff in H. destruct H as [m [<- _]].
    unfold rescore in *. destruct (NodeType_eqb (n_type m) contact) eqn:E.
    + reflexivity.
    + destruct (n_type m); simpl in *; congruence.
  - rewrite Hmap in H. apply in_map_iff in H. destruct H as [m [<- _]].
    unfold rescore in *. destruct (NodeType_eqb (n_type m) contact) eqn:E.
    + simpl. apply calculateContactInfluence_range.
    + destruct (n_type m); simpl in *; congruence.
  - rewrite Hmap in H. apply in_map_iff in H. destruct H as [m [<- _]].
    unfold rescore in *. destruct (NodeType_eqb (n_type m) contact) eqn:E.
    + simpl. apply calculateContactInfluence_range.
    + destruct (n_type m); simpl in *; congruence.
  - apply Hcalc.
  - set (g1 := calculateInfluenceScores g now).
    assert (Hn : nodes (calculateInfluenceScores g1 now) = nodes g1).
    { rewrite (Hmap g1). subst g1. rewrite (Hmap g).
      rewrite List.map_map. apply List.map_ext. intros n.
      unfold rescore at 1.
      assert (Hty : n_type (rescore g now n) = n_type n)
        by apply rescore_shape.
      assert (Hid : n_id (rescore g now n) = n_id n) by apply rescore_shape.
      rewrite Hty, Hid, Hcalc. unfold rescore.
      destruct (NodeType_eqb (n_type n) contact); reflexivity. }
    transitivity {| nodes := nodes (calculateInfluenceScores g1 now);
                    edges := edges g1; interactions := interactions g1 |};
      [reflexivity|].
    rewrite Hn. destruct g1; reflexivity.
Qed.

(** The scores of the fixture store are recomputed to the same values. *)
Lemma influence_score_bounded_and_stable_witness :
  0 <= calculateContactInfluence
         {| nodes := Mock.mock_nodes; edges := Mock.mock_edges;
            interactions := Mock.mock_interactions |} example_now "contact_1"
    <= 100.
Proof.
  exact (proj1 (influence_score_bounded_and_stable
                  {| nodes := Mock.mock_nodes; edges := Mock.mock_edges;
                     interactions := Mock.mock_interactions |} example_now)
           "contact_1").
Defined.

(** C6. The role component is the points of the first key of [roleScores]
    that the lowercased title includes: a CTO title gets 25 and a Manager
    title 10.  A title that includes none of the keys gets 0, not 5: the
    entry [other] of the table is matched as a keyword like the others
    (so a title such as "Brother" gets 5) instead of being the default. *)
Theorem role_points_unmatched_title :
  role_points (Some "CTO") = 25 /\
  role_points (Some "Manager") = 10 /\
  role_points (Some "Procurement Manager") = 10 /\
  role_points (Some "Software Engineer") = 0 /\
  role_points (Some "Brother") = 5 /\
  JS.round (raw_score {| nodes := []; edges := []; interactions := [] |}
              example_now "c" (Some "Software Engineer")) = 0.
Proof. repeat split; vm_compute; reflexivity. Qed.

(** Keys are matched as substrings, in table order: the key cto occurs
    inside "director", so a Director title is scored as a CTO. *)
Example role_points_director :
  role_points (Some "Director of Sales") = 25 /\
  role_points (Some "VP of Engineering") = 20 /\
  role_points (Some "CEO") = 30 /\ role_points (Some "CFO") = 25.
Proof. repeat split; vm_compute; reflexivity. Qed.

(** ** Importer and enrichment: referential integrity *)

Section Importer.

#[local] Arguments JS.truthy : simpl never.

Lemma load_history_step_id history n :
  n_id (fst (load_history_step history n)) = n_id n.
Proof.
  unfold load_history_step.
  destruct (n_hubspotId n) as [hid|]; [|reflexivity].
  destruct (NodeType_eqb (n_type n) contact && JS.truthy (Some hid))%bool;
    [|reflexivity].
  simpl. destruct (history hid); [reflexivity|].
  destruct (n_metadata n); reflexivity.
Qed.

Lemma loadInteractionHistory_ids configured history g :
  List.map n_id (nodes (loadInteractionHistory configured history g))
  = List.map n_id (nodes g) /\
  edges (loadInteractionHistory configured history g) = edges g.
Proof.
  unfold loadInteractionHistory. destruct configured; [|auto].
  simpl. split; [|reflexivity]. rewrite !List.map_map.
  apply List.map_ext. intros n. apply load_history_step_id.
Qed.

Lemma find_company_In companies cid co :
  find_company companies cid = Some co -> In co companies.
Proof.
  unfold find_company. destruct cid as [c|]; [|discriminate].
  destruct (JS.truthy (Some c)); [|discriminate].
  intros H. now apply List.find_some in H.
Qed.

(** Every edge built by the import joins two imported records. *)
Lemma build_edges_resolved now contacts deals companies e :
  In e (build_edges now contacts deals companies) ->
  let ids := (List.map hc_id contacts ++ List.map co_id companies ++
              List.map hd_id deals)%list in
  In (source e) ids /\ In (target e) ids.
Proof.
  intros He ids. subst ids. unfold build_edges in He.
  rewrite !in_app_iff. rewrite in_app_iff in He.
  destruct He as [He | He]; apply in_flat_map in He;
    destruct He as [x [Hx He]]; rewrite in_app_iff in He.
  - destruct He as [He | He].
    + unfold reports_edge in He.
      destruct (JS.or_else (hc_reportsTo x) (hc_managerId x)) as [mid|];
        [|contradiction].
      destruct (JS.truthy (Some mid)); [|contradiction].
      destruct (List.find _ contacts) as [mgr|] eqn:Ef; [|contradiction].
      apply List.find_some in Ef. destruct Ef as [Hm _].
      destruct He as [<- | []]. simpl.
      split; left; now apply in_map.
    + unfold works_at_edge in He.
      destruct (find_company companies (hc_companyId x)) as [co|] eqn:Ef;
        [|contradiction].
      apply find_company_In in Ef. destruct He as [<- | []]. simpl.
      split; [left | right; left]; now apply in_map.
  - destruct He as [He | He].
    + unfold belongs_to_edge in He.
      destruct (find_company companies (hd_companyId x)) as [co|] eqn:Ef;
        [|contradiction].
      apply find_company_In in Ef. destruct He as [<- | []]. simpl.
      split; right; [right | left]; now apply in_map.
    + apply in_flat_map in He. destruct He as [cid [_ He]].
      unfold deal_contact_edge in He.
      destruct (List.find _ contacts) as [c|] eqn:Ef; [|contradiction].
      apply List.find_some in Ef. destruct Ef as [Hc _].
      destruct He as [<- | []]. simpl.
      split; [left | right; right]; now apply in_map.
Qed.

Lemma reports_edge_unresolved now contacts c m :
  JS.or_else (hc_reportsTo c) (hc_managerId c) = Some m ->
  (forall x, In x contacts -> hc_id x <> m /\ hc_hubspotId x <> Some m) ->
  reports_edge now contacts c = [].
Proof.
  intros Hm Hno. unfold reports_edge. rewrite Hm.
  destruct (JS.truthy (Some m)); [|reflexivity].
  destruct (List.find _ contacts) as [mgr|] eqn:Ef; [|reflexivity].
  apply List.find_some in Ef. destruct Ef as [Hin Hp].
  destruct (Hno mgr Hin) as [H1 H2]. apply orb_true_iff in Hp.
  destruct Hp as [Hp | Hp].
  - apply String.eqb_eq in Hp. contradiction.
  - unfold opt_is in Hp. destruct (hc_hubspotId mgr) as [hid|];
      [|discriminate].
    apply String.eqb_eq in Hp. subst. now elim H2.
Qed.

End Importer.

(** C3. [enrichWithLinkedIn] pushes a suggested edge without looking up
    its two ends.  A suggestion of the profile service that names an id
    carried by no node becomes an edge of the store: no error is raised,
    five such edges are added to the fixture store, and the store is left
    with edges that end at no node.  The importer, which guards every edge
    it creates by a lookup, returns without the edge when a [reportsTo]
    names a contact that was not imported. *)
Theorem dangling_edge_is_inserted_silently :
  let g0 := {| nodes := Mock.mock_nodes; edges := Mock.mock_edges;
               interactions := Mock.mock_interactions |} in
  let g1 := enrichWithLinkedIn (Some ghost_service) g0 in
  find_node (nodes g0) "ghost" = None /\
  find_node (nodes g1) "ghost" = None /\
  (exists e, In e (edges g1) /\ source e = "contact_1" /\
             target e = "ghost" /\ confirmed e = false) /\
  List.length (edges g1) = (List.length (edges g0) + 5)%nat /\
  ~ edges_closed (nodes g1, edges g1) /\
  edges (loadFromHubSpot example_now false (fun _ => []) [] bob_alone [] [])
  = [].
Proof.
  cbv zeta.
  set (g0 := {| nodes := Mock.mock_nodes; edges := Mock.mock_edges;
                interactions := Mock.mock_interactions |}).
  set (e := {| e_id := "edge_linkedin_contact_1_ghost"; source := "contact_1";
               target := "ghost"; e_type := "mutual_connection";
               strength := 0.5; confirmed := false; e_metadata := None |}).
  assert (Hin : In e (edges (enrichWithLinkedIn (Some ghost_service) g0))).
  { vm_compute. tauto. }
  assert (Hno : ~ In "ghost"
                  (List.map n_id
                     (nodes (enrichWithLinkedIn (Some ghost_service) g0)))).
  { vm_compute. intros H.
    repeat (destruct H as [H | H]; [discriminate H|]). exact H. }
  repeat split; try (vm_compute; reflexivity).
  - exists e. repeat split; try reflexivity. exact Hin.
  - intros Hc. destruct (Hc e Hin) as [_ Ht]. exact (Hno Ht).
Qed.

(** [loadFromHubSpot] creates an edge only between records it resolved in
    the import batch: every edge of the store it builds has its source and
    its target among the ids of the store's nodes, and a [reportsTo] or
    [managerId] that names no imported contact yields no edge. *)
Lemma loadFromHubSpot_edges_resolved
  (now : Z) (configured : bool) (history : string -> list HInteraction)
  (ints0 : list Interaction) (contacts : list HContact) (deals : list HDeal)
  (companies : list HCompany) :
  let g := loadFromHubSpot now configured history ints0 contacts deals
             companies in
  edges_closed (nodes g, edges g) /\
  (forall c m,
      JS.or_else (hc_reportsTo c) (hc_managerId c) = Some m ->
      (forall x, In x contacts -> hc_id x <> m /\ hc_hubspotId x <> Some m) ->
      reports_edge now contacts c = []).
Proof.
  cbv zeta. split.
  - unfold edges_closed, loadFromHubSpot. simpl fst. simpl snd.
    intros e He.
    match goal with
    | |- context [loadInteractionHistory ?c ?h ?g0] =>
        destruct (loadInteractionHistory_ids c h g0) as [Hids Hes]
    end.
    rewrite Hids. rewrite Hes in He. simpl nodes. simpl edges in He.
    rewrite !List.map_app, !List.map_map. simpl.
    apply (build_edges_resolved now contacts deals companies e He).
  - intros c m. apply reports_edge_unresolved.
Qed.

(** An import scenario: Bob (Manager) reports to Alice (CTO) at
    Acme; the store gets the edge Bob -> Alice with strength 0.9 and the
    works_at edges, all between nodes of the store. *)
Lemma loadFromHubSpot_edges_resolved_witness :
  let alice := {| hc_id := "hubspot_contact_1"; hc_hubspotId := Some "1";
                  hc_name := "Alice"; hc_title := Some "CTO";
                  hc_company := Some "Acme"; hc_email := None;
                  hc_role := Some "decision_maker"; hc_reportsTo := None;
                  hc_managerId := None; hc_companyId := Some "9";
                  hc_dealCount := None; hc_lastInteraction := None |} in
  let bob := {| hc_id := "hubspot_contact_2"; hc_hubspotId := Some "2";
                hc_name := "Bob"; hc_title := Some "Manager";
                hc_company := Some "Acme"; hc_email := None;
                hc_role := Some "influencer"; hc_reportsTo := Some "1";
                hc_managerId := None; hc_companyId := Some "9";
                hc_dealCount := None; hc_lastInteraction := None |} in
  let acme := {| co_id := "hubspot_company_9"; co_hubspotId := Some "9";
                 co_name := "Acme" |} in
  let g := loadFromHubSpot example_now false (fun _ => []) []
             [alice; bob] [] [acme] in
  edges_closed (nodes g, edges g) /\
  List.map (fun e => (source e, target e, e_type e, Qeq_bool (strength e) 0.9))
    (List.filter (fun e => String.eqb (e_type e) "reports_to") (edges g))
  = [("hubspot_contact_2", "hubspot_contact_1", "reports_to", true)] /\
  reports_edge example_now bob_alone
    (List.hd alice bob_alone) = [].
Proof.
  cbv zeta. split; [|split].
  - apply (loadFromHubSpot_edges_resolved example_now false (fun _ => []) []).
  - vm_compute. reflexivity.
  - apply (proj2 (loadFromHubSpot_edges_resolved example_now false
                    (fun _ => []) [] bob_alone [] []) _ "1").
    + reflexivity.
    + intros x [<- | []]. split; discriminate.
Defined.

(** ** Relationship strength updater *)

Lemma increase_pos (ty : string) (md : Metadata) : (0 < increase ty md)%Q.
Proof.
  unfold increase.
  destruct (String.eqb ty "call");
    [destruct (Qlt_le_dec 30 (callDuration md))|
     destruct (String.eqb ty "meeting"); [|destruct (String.eqb ty "email")]];
    destruct (not_false (completed md)); reflexivity.
Qed.

Lemma strengthen_same_edge now inc e : same_edge e (strengthen now inc e).
Proof. unfold same_edge, strengthen. simpl. tauto. Qed.

Lemma strengthen_bounds now inc e :
  (0 < inc)%Q -> (0 <= strength e <= 1)%Q ->
  (strength e <= strength (strengthen now inc e) <= 1)%Q.
Proof.
  intros Hinc [H0 H1]. unfold strengthen. simpl. split.
  - apply Q.min_glb; lra.
  - apply Q.le_min_r.
Qed.

(** The nodes a call leaves are the nodes before it, rescored. *)
Lemma calculateInfluenceScores_edges g now :
  edges (calculateInfluenceScores g now) = edges g.
Proof. reflexivity. Qed.

(** What [trackInteraction] does to the edge array: nothing when it
    throws, the update of [updateRelationshipStrength] otherwise. *)
Lemma trackInteraction_edges g now cid ty md :
  edges (fst (trackInteraction g now cid ty md)) =
    match snd (trackInteraction g now cid ty md) with
    | Returned _ =>
        List.map (fun e => if touches cid e
                           then strengthen now (increase ty md) e else e)
          (edges g)
    | _ => edges g
    end.
Proof.
  unfold trackInteraction. simpl nodes.
  destruct (List.find (is_contact_with_id cid) (nodes g)) as [c|];
    [destruct (n_metadata c)|]; reflexivity.
Qed.


Lemma not_weakened_refl (l : list Edge) :
  strengths_in_unit l -> Forall2 not_weakened l l.
Proof.
  unfold strengths_in_unit.
  induction 1 as [|e l [He0 He1] _ IH]; constructor; [|exact IH].
  unfold not_weakened, same_edge. repeat split; try reflexivity; lra.
Qed.

Lemma not_weakened_update (l : list Edge) now cid ty md :
  strengths_in_unit l ->
  Forall2 not_weakened l
    (List.map (fun e => if touches cid e
                        then strengthen now (increase ty md) e else e) l).
Proof.
  unfold strengths_in_unit.
  induction 1 as [|e l He _ IH]; simpl; constructor; [|exact IH].
  destruct (touches cid e).
  - pose proof (strengthen_bounds now _ e (increase_pos ty md) He) as Hb.
    split; [apply strengthen_same_edge|]. split; lra.
  - destruct He. unfold not_weakened, same_edge.
    repeat split; try reflexivity; lra.
Qed.

Lemma not_weakened_in_unit (l l' : list Edge) :
  Forall2 not_weakened l l' -> strengths_in_unit l'.
Proof.
  unfold strengths_in_unit, not_weakened.
  induction 1; constructor; tauto.
Qed.

(** The strengths of the fixture store. *)
Lemma mock_strengths_in_unit : strengths_in_unit Mock.mock_edges.
Proof.
  unfold strengths_in_unit, Mock.mock_edges.
  repeat (constructor; [simpl; split; discriminate |]). constructor.
Qed.

(** The strengths the import writes. *)
Lemma build_edges_in_unit now contacts deals companies :
  strengths_in_unit (build_edges now contacts deals companies).
Proof.
  unfold strengths_in_unit. apply List.Forall_forall. intros e He.
  unfold build_edges in He. rewrite in_app_iff in He.
  destruct He as [He | He]; apply in_flat_map in He;
    destruct He as [x [_ He]]; rewrite in_app_iff in He;
    destruct He as [He | He].
  - unfold reports_edge in He.
    destruct (JS.or_else (hc_reportsTo x) (hc_managerId x)) as [mid|];
      [|contradiction].
    destruct (JS.truthy (Some mid)); [|contradiction].
    destruct (List.find _ contacts); [|contradiction].
    destruct He as [<- | []]. simpl. split; discriminate.
  - unfold works_at_edge in He.
    destruct (find_company companies (hc_companyId x)); [|contradiction].
    destruct He as [<- | []]. simpl. split; discriminate.
  - unfold belongs_to_edge in He.
    destruct (find_company companies (hd_companyId x)); [|contradiction].
    destruct He as [<- | []]. simpl. split; discriminate.
  - apply in_flat_map in He. destruct He as [cid [_ He]].
    unfold deal_contact_edge in He.
    destruct (List.find _ contacts) as [c|]; [|contradiction].
    destruct He as [<- | []]. simpl.
    destruct (opt_is (hc_role c) "decision_maker"); split; discriminate.
Qed.

Lemma add_suggestion_in_unit es s :
  strengths_in_unit es -> (0 <= s_strength s <= 1)%Q ->
  strengths_in_unit (add_suggestion es s).
Proof.
  intros Hes Hs. unfold add_suggestion.
  destruct (List.existsb _ es); [exact Hes|].
  unfold strengths_in_unit. apply Forall_app. split; [exact Hes|].
  constructor; [exact Hs | constructor].
Qed.

Lemma enrich_loop_in_unit li all :
  (forall cid others s,
      In s (getRelationshipSuggestions li cid others) ->
      (0 <= s_strength s <= 1)%Q) ->
  forall todo es,
    strengths_in_unit es ->
    strengths_in_unit (snd (enrich_loop li all todo es)).
Proof.
  intros Hsug. induction todo as [|n rest IH]; intros es Hes; [exact Hes|].
  simpl. destruct (NodeType_eqb (n_type n) contact).
  - unfold enrich_step.
    set (es' := if linkedin_verified (enrichContact li n) then _ else es).
    assert (Hes' : strengths_in_unit es').
    { subst es'. destruct (linkedin_verified (enrichContact li n));
        [|exact Hes].
      set (l := getRelationshipSuggestions li _ _).
      assert (Hl : forall s, In s l -> (0 <= s_strength s <= 1)%Q)
        by (intros s; apply Hsug).
      clearbody l. revert es Hes.
      induction l as [|s l IHl]; intros es Hes; [exact Hes|].
      simpl. apply IHl.
      - intros s' Hs'. apply Hl. now right.
      - apply add_suggestion_in_unit; [exact Hes | apply Hl; now left]. }
    specialize (IH es' Hes').
    destruct (enrich_loop li all rest es'). exact IH.
  - specialize (IH es Hes). destruct (enrich_loop li all rest es). exact IH.
Qed.

(** Where the strengths lie in [[0, 1]] they stay there.  Both loaders
    build stores whose strengths lie in [[0, 1]]; enrichment keeps it so
    when the suggested strengths do; and on such a store, for every
    contact id, interaction type and metadata, the edge array after
    [trackInteraction] holds the same edges in the same order, each with
    a strength at least its strength before the call and at most 1. *)
Lemma strengths_in_unit_never_weakened :
  (forall now, strengths_in_unit (edges (loadMockGraphData now))) /\
  (forall now configured history ints0 contacts deals companies,
      strengths_in_unit
        (edges (loadFromHubSpot now configured history ints0 contacts deals
                  companies))) /\
  (forall li g,
      (forall cid others s,
          In s (getRelationshipSuggestions li cid others) ->
          (0 <= s_strength s <= 1)%Q) ->
      strengths_in_unit (edges g) ->
      strengths_in_unit (edges (enrichWithLinkedIn (Some li) g))) /\
  (forall g now cid ty md,
      strengths_in_unit (edges g) ->
      Forall2 not_weakened
        (edges g) (edges (fst (trackInteraction g now cid ty md))) /\
      strengths_in_unit (edges (fst (trackInteraction g now cid ty md)))).
Proof.
  split; [|split; [|split]].
  - intros now. exact mock_strengths_in_unit.
  - intros now configured history ints0 contacts deals companies.
    unfold loadFromHubSpot.
    match goal with
    | |- context [loadInteractionHistory ?c ?h ?g0] =>
        rewrite (proj2 (loadInteractionHistory_ids c h g0))
    end.
    apply build_edges_in_unit.
  - intros li g Hsug Hg. unfold enrichWithLinkedIn.
    pose proof (enrich_loop_in_unit li
                  (List.map n_id
                     (List.filter (fun n => NodeType_eqb (n_type n) contact)
                        (nodes g)))
                  Hsug (nodes g) (edges g) Hg) as H.
    destruct (enrich_loop li _ (nodes g) (edges g)). exact H.
  - intros g now cid ty md Hu. rewrite trackInteraction_edges.
    pose proof (not_weakened_refl _ Hu) as Hid.
    pose proof (not_weakened_update _ now cid ty md Hu) as Hup.
    destruct (snd (trackInteraction g now cid ty md)); split;
      first [exact Hid | exact Hup | eapply not_weakened_in_unit; eassumption].
Qed.

(** A long call logged on the fixture store. *)
Lemma strengths_in_unit_never_weakened_witness :
  let g := loadMockGraphData example_now in
  let g' := fst (trackInteraction g example_now "contact_5" "call"
                   {| duration := Some 45%Q; md_dealId := None;
                      completed := None |}) in
  Forall2 not_weakened (edges g) (edges g') /\ strengths_in_unit (edges g').
Proof.
  cbv zeta.
  destruct strengths_in_unit_never_weakened as (Hmock & _ & _ & Htrack).
  apply Htrack. apply Hmock.
Defined.

(** C2. Enrichment writes the strength of a suggestion as it comes,
    while the interaction update clamps at 1.  The profile service's
    normaliser passes a confidence of 7 through; [enrichWithLinkedIn]
    pushes the suggested edge between contact_2 and contact_4 with
    strength 7 on the fixture store, whose strengths all lie in [[0, 1]];
    and the next [trackInteraction] on contact_2 lowers that strength to
    1. *)
Theorem enrichWithLinkedIn_strength_unclamped :
  let g0 := loadMockGraphData example_now in
  let n := normalizeRelationship overconfident_relationship in
  let g1 := enrichWithLinkedIn (Some overconfident_service) g0 in
  let r := trackInteraction g1 example_now "contact_2" "email"
             {| duration := None; md_dealId := None;
                completed := Some true |} in
  let suggested es :=
    List.map (fun e => (source e, target e, e_type e, strength e))
      (List.filter
         (fun e => String.eqb (e_id e) "edge_linkedin_contact_2_contact_4")
         es) in
  strengths_in_unit (edges g0) /\
  (nr_source n, nr_target n, nr_type n, nr_strength n)
  = (Some "contact_2", Some "contact_4", Some "former_colleague", 7%Q) /\
  suggested (edges g0) = [] /\
  suggested (edges g1) = [("contact_2", "contact_4", "former_colleague", 7%Q)] /\
  ~ strengths_in_unit (edges g1) /\
  (exists i, snd r = Returned i) /\
  suggested (edges (fst r))
  = [("contact_2", "contact_4", "former_colleague", 1%Q)].
Proof.
  cbv zeta. split; [exact mock_strengths_in_unit|].
  split; [vm_compute; reflexivity|].
  split; [vm_compute; reflexivity|].
  split; [vm_compute; reflexivity|].
  split.
  - intros H. unfold strengths_in_unit in H.
    rewrite List.Forall_forall in H.
    assert (Hin : In {| e_id := "edge_linkedin_contact_2_contact_4";
                        source := "contact_2"; target := "contact_4";
                        e_type := "former_colleague"; strength := 7;
                        confirmed := false;
                        e_metadata :=
                          Some {| em_source := Some "linkedin";
                                  em_lastVerified := None;
                                  em_lastInteraction := None;
                                  em_interactionCount := None |} |}
                  (edges (enrichWithLinkedIn (Some overconfident_service)
                            (loadMockGraphData example_now)))).
    { vm_compute. tauto. }
    apply H in Hin. simpl in Hin. destruct Hin as [_ Hle].
    revert Hle. vm_compute. intros Hle. apply Hle. reflexivity.
  - split; [|vm_compute; reflexivity].
    eexists. vm_compute. reflexivity.
Qed.

(** Contact nodes carry metadata in every store the loaders build, and
    enrichment and [trackInteraction] keep it so. *)
Lemma rescore_metadata g now n :
  n_type (rescore g now n) = n_type n /\
  n_metadata (rescore g now n) = n_metadata n.
Proof.
  unfold rescore. destruct (NodeType_eqb (n_type n) contact); auto.
Qed.

Lemma contacts_have_metadata_map (f : Node -> Node) ns :
  (forall n, n_type (f n) = n_type n) ->
  (forall n, n_metadata n <> None -> n_metadata (f n) <> None) ->
  contacts_have_metadata ns -> contacts_have_metadata (List.map f ns).
Proof.
  intros Hty Hmd. unfold contacts_have_metadata.
  induction 1 as [|n l Hn _ IH]; simpl; constructor; [|exact IH].
  rewrite Hty. intros Hc. apply Hmd, Hn, Hc.
Qed.

Lemma loadFromHubSpot_contacts_have_metadata
  now configured history ints0 contacts deals companies :
  contacts_have_metadata
    (nodes (loadFromHubSpot now configured history ints0 contacts deals
              companies)).
Proof.
  assert (Hbase : contacts_have_metadata
                    (List.map node_of_contact contacts ++
                     List.map node_of_company companies ++
                     List.map node_of_deal deals)).
  { unfold contacts_have_metadata. rewrite !Forall_app. repeat split;
      apply List.Forall_forall; intros n Hn; apply in_map_iff in Hn;
      destruct Hn as [x [<- _]]; simpl; intros H; discriminate. }
  unfold loadFromHubSpot, loadInteractionHistory.
  destruct configured; [|exact Hbase]. simpl nodes.
  rewrite List.map_map.
  apply (contacts_have_metadata_map
           (fun n => fst (load_history_step history n))); [| |exact Hbase].
  - intros n. unfold load_history_step.
    destruct (n_hubspotId n) as [hid|]; [|reflexivity].
    destruct (NodeType_eqb (n_type n) contact && JS.truthy (Some hid))%bool;
      [|reflexivity].
    simpl. destruct (history hid); [reflexivity|].
    destruct (n_metadata n); reflexivity.
  - intros n Hn. unfold load_history_step.
    destruct (n_hubspotId n) as [hid|]; [|exact Hn].
    destruct (NodeType_eqb (n_type n) contact && JS.truthy (Some hid))%bool;
      [|exact Hn].
    simpl. destruct (history hid); [exact Hn|].
    destruct (n_metadata n) eqn:E; [discriminate | now rewrite E].
Qed.

Lemma enrichContact_metadata li n :
  n_type (enrichContact li n) = n_type n /\
  n_metadata (enrichContact li n) = n_metadata n.
Proof.
  unfold enrichContact.
  repeat match goal with
         | |- context [match ?x with _ => _ end] => destruct x
         end; auto.
Qed.

Lemma enrichWithLinkedIn_contacts_have_metadata service g :
  contacts_have_metadata (nodes g) ->
  contacts_have_metadata (nodes (enrichWithLinkedIn service g)).
Proof.
  intros Hm. unfold enrichWithLinkedIn. destruct service as [li|]; [|exact Hm].
  set (all := List.map n_id _).
  assert (H : forall todo es,
             contacts_have_metadata todo ->
             contacts_have_metadata (fst (enrich_loop li all todo es))).
  { unfold contacts_have_metadata.
    induction todo as [|n rest IH]; intros es Hall; [constructor|].
    inversion Hall as [|x l Hn Hrest]; subst. simpl.
    destruct (NodeType_eqb (n_type n) contact).
    - unfold enrich_step.
      match goal with
      | |- context [enrich_loop li all rest ?es'] =>
          specialize (IH es' Hrest); destruct (enrich_loop li all rest es')
      end.
      simpl. constructor; [|exact IH].
      destruct (enrichContact_metadata li n) as [-> ->]. exact Hn.
    - specialize (IH es Hrest). destruct (enrich_loop li all rest es).
      simpl. constructor; assumption. }
  specialize (H (nodes g) (edges g) Hm).
  destruct (enrich_loop li all (nodes g) (edges g)). exact H.
Qed.

Lemma update_first_have_metadata now cid ns :
  contacts_have_metadata ns ->
  contacts_have_metadata
    (update_first (is_contact_with_id cid) (bump_metadata now) ns).
Proof.
  unfold contacts_have_metadata.
  induction 1 as [|n l Hn Hl IH]; simpl; [constructor|].
  destruct (is_contact_with_id cid n); constructor; auto.
  unfold bump_metadata. destruct (n_metadata n) eqn:E;
    [|now rewrite E].
  simpl. intros _. discriminate.
Qed.

Lemma trackInteraction_contacts_have_metadata g now cid ty md :
  contacts_have_metadata (nodes g) ->
  contacts_have_metadata (nodes (fst (trackInteraction g now cid ty md))).
Proof.
  intros Hm.
  assert (Hscore : forall g0, contacts_have_metadata (nodes g0) ->
             contacts_have_metadata (nodes (calculateInfluenceScores g0 now))).
  { intros g0 H0.
    rewrite (proj1 (proj2 (influence_score_nodes g0 now))).
    apply contacts_have_metadata_map; [| |exact H0].
    - intros n. apply rescore_metadata.
    - intros n Hn. now rewrite (proj2 (rescore_metadata g0 now n)). }
  unfold trackInteraction. simpl nodes.
  destruct (List.find (is_contact_with_id cid) (nodes g)) as [c|].
  - destruct (n_metadata c); [|exact Hm].
    simpl fst. apply Hscore. simpl. now apply update_first_have_metadata.
  - simpl fst. apply Hscore. exact Hm.
Qed.





(** ** Graph query engine: [getGraphData] *)

Lemma filter_influence_closed (m : Z) (ne : list Node * list Edge) :
  edges_closed (filter_influence m ne).
Proof.
  unfold edges_closed, filter_influence. simpl. intros e He.
  apply List.filter_In in He. destruct He as [_ He].
  apply andb_true_iff in He. destruct He as [Hs Ht].
  apply id_in_In in Hs, Ht. tauto.
Qed.

(** With a non-zero [minInfluence] the result is closed, keeps no contact
    below the threshold, and the last filter drops no other node. *)
Lemma getGraphData_minInfluence (g : GraphService) (f : Filter) (m : Z) :
  minInfluence f = Some m -> m <> 0 ->
  edges_closed (getGraphData g f) /\
  (forall n, In n (fst (getGraphData g f)) -> n_type n = contact ->
             m <= influenceScore n) /\
  (forall n, In n (fst (getGraphData g
                          {| accountId := accountId f; dealId := dealId f;
                             minInfluence := None |})) ->
             n_type n <> contact -> In n (fst (getGraphData g f))).
Proof.
  intros Hm Hne. unfold getGraphData. rewrite Hm. simpl minInfluence.
  apply Z.eqb_neq in Hne. rewrite Hne.
  set (r2 := match dealId f with Some _ => _ | None => _ end).
  split; [apply filter_influence_closed|]. split.
  - intros n Hin Hc. unfold filter_influence in Hin. simpl in Hin.
    apply List.filter_In in Hin. destruct Hin as [_ Hp].
    rewrite Hc in Hp. simpl in Hp. now apply Z.leb_le.
  - intros n Hin Hc. unfold filter_influence. simpl.
    apply List.filter_In. split; [exact Hin|].
    destruct (n_type n); simpl; congruence.
Qed.

(** C4. With only the account filter set, [getGraphData] keeps every edge
    that touches a contact of the account, while it keeps only the
    account and its contacts as nodes: on the fixture store filtered by
    account_1 the edge edge_4 from contact_1 to deal_1 is returned although
    deal_1 is not among the returned nodes.  Only the [minInfluence] block
    restricts the edges to those with both ends among the nodes. *)
Theorem getGraphData_account_filter_dangling :
  let r := getGraphData (loadMockGraphData example_now)
             {| accountId := Some "account_1"; dealId := None;
                minInfluence := None |} in
  List.map n_id (fst r) =
    ["contact_1"; "contact_2"; "contact_3"; "contact_4"; "account_1"] /\
  (exists e, In e (snd r) /\ e_id e = "edge_4" /\ source e = "contact_1" /\
             target e = "deal_1" /\
             ~ In (target e) (List.map n_id (fst r))) /\
  ~ edges_closed r.
Proof.
  set (e4 := Mock.mk_edge "edge_4" "contact_1" "deal_1" "decision_maker_for"
               (95 # 100) true None).
  assert (Hin : In e4 (snd (getGraphData (loadMockGraphData example_now)
                              {| accountId := Some "account_1"; dealId := None;
                                 minInfluence := None |}))).
  { vm_compute. tauto. }
  assert (Hids : List.map n_id
                   (fst (getGraphData (loadMockGraphData example_now)
                           {| accountId := Some "account_1"; dealId := None;
                              minInfluence := None |})) =
                 ["contact_1"; "contact_2"; "contact_3"; "contact_4";
                  "account_1"]) by (vm_compute; reflexivity).
  assert (Hnot : ~ In "deal_1" ["contact_1"; "contact_2"; "contact_3";
                                "contact_4"; "account_1"]).
  { simpl. intros H. repeat (destruct H as [H | H]; [discriminate H|]).
    exact H. }
  cbv zeta. rewrite Hids. split; [reflexivity|]. split.
  - exists e4. repeat split; try reflexivity; assumption.
  - intros Hc. destruct (Hc e4 Hin) as [_ Ht]. rewrite Hids in Ht.
    exact (Hnot Ht).
Qed.

(** ** Graph query engine: [findPath] *)

Section FindPath.

Variable es : list Edge.

(** *** Termination: the fuel of [findPath_fuel] is never used up *)

Lemma weight_insert_le c visited v :
  (weight es ({[c]} ∪ visited) v <= weight es visited v)%nat.
Proof.
  unfold weight. repeat case_bool_decide; try lia. set_solver.
Qed.

Lemma sum_weight_insert_le c visited (U : list string) :
  (list_sum (List.map (weight es ({[c]} ∪ visited)) U)
   <= list_sum (List.map (weight es visited) U))%nat.
Proof.
  induction U as [|v U IH]; simpl; [lia|].
  pose proof (weight_insert_le c visited v). lia.
Qed.

Lemma sum_weight_insert_lt c visited (U : list string) :
  c ∈ U -> c ∉ visited ->
  (list_sum (List.map (weight es ({[c]} ∪ visited)) U) + S (degree es c)
   <= list_sum (List.map (weight es visited) U))%nat.
Proof.
  intros Hin Hv. induction U as [|v U IH]; [inversion Hin|].
  simpl. apply elem_of_cons in Hin. destruct Hin as [<- | Hin].
  - pose proof (sum_weight_insert_le c visited U).
    unfold weight at 1 3. repeat case_bool_decide; try lia; set_solver.
  - specialize (IH Hin). pose proof (weight_insert_le c visited v). lia.
Qed.

Lemma potential_insert_le c visited :
  (potential es ({[c]} ∪ visited) <= potential es visited)%nat.
Proof. apply sum_weight_insert_le. Qed.

Lemma potential_insert_lt c visited :
  c ∈ endpoints es -> c ∉ visited ->
  (potential es ({[c]} ∪ visited) + S (degree es c)
   <= potential es visited)%nat.
Proof. apply sum_weight_insert_lt. Qed.

Lemma touches_endpoint c e :
  In e es -> touches c e = true -> c ∈ endpoints es.
Proof.
  intros Hin Ht. unfold endpoints. apply elem_of_remove_dups.
  apply list_elem_of_In. apply in_flat_map. exists e. split; [exact Hin|].
  unfold touches in Ht. apply andb_true_iff in Ht. destruct Ht as [Ht _].
  apply orb_true_iff in Ht. simpl.
  destruct Ht as [Ht | Ht]; apply String.eqb_eq in Ht; auto.
Qed.

Lemma degree_zero c : c ∉ endpoints es -> degree es c = O.
Proof.
  intros Hc. unfold degree.
  destruct (List.filter (touches c) es) as [|e l] eqn:E; [reflexivity|].
  assert (He : In e (List.filter (touches c) es)) by (rewrite E; now left).
  apply List.filter_In in He. destruct He as [Hin Ht].
  elim Hc. eapply touches_endpoint; eassumption.
Qed.

Lemma pushed_length c (visited : gset string) (path : list string) :
  (List.length
     (List.map (fun nb => (nb, (path ++ [nb])%list))
        (List.filter (fun nb => negb (bool_decide (nb ∈ visited)))
           (neighbors es c)))
   <= degree es c)%nat.
Proof.
  rewrite List.length_map. unfold neighbors, degree.
  etransitivity; [apply List.filter_length_le|].
  now rewrite List.length_map.
Qed.

Lemma findPath_loop_terminates targetId maxDepth :
  forall fuel visited queue,
    (List.length queue + potential es visited < fuel)%nat ->
    findPath_loop fuel es targetId maxDepth visited queue <> OutOfFuel.
Proof.
  induction fuel as [|fuel IH]; intros visited queue Hf; [lia|].
  simpl. destruct queue as [|[c path] rest]; [discriminate|].
  simpl in Hf.
  destruct (String.eqb c targetId); [discriminate|].
  destruct (zlen path >? maxDepth); [apply IH; lia|].
  case_bool_decide as Hv; [apply IH; lia|].
  apply IH. rewrite List.length_app.
  pose proof (pushed_length c ({[c]} ∪ visited) path) as Hp.
  destruct (decide (c ∈ endpoints es)) as [Hc | Hc].
  - pose proof (potential_insert_lt c visited Hc Hv). lia.
  - pose proof (potential_insert_le c visited).
    rewrite (degree_zero c Hc) in Hp. lia.
Qed.

(** *** Soundness: a returned path is a walk of at most [maxDepth] hops *)

Lemma connects_single a : connects es a a [a].
Proof. unfold connects. simpl. repeat split; discriminate. Qed.

Lemma last_cons (l : list string) x d :
  l <> [] -> List.last (x :: l) d = List.last l d.
Proof. destruct l; [contradiction | reflexivity]. Qed.

Lemma last_default (l : list string) d d' :
  l <> [] -> List.last l d = List.last l d'.
Proof.
  induction l as [|x l IH]; intros Hne; [contradiction|].
  destruct l as [|y l]; [reflexivity|].
  rewrite !last_cons by discriminate. apply IH. discriminate.
Qed.

Lemma walk_snoc p c nb :
  p <> [] -> List.last p c = c -> walk es p -> adjacent es c nb ->
  walk es (p ++ [nb]).
Proof.
  induction p as [|a p IH]; intros Hne Hl Hw Ha; [contradiction|].
  destruct p as [|b p].
  - simpl in Hl. subst a. simpl. auto.
  - change (walk es (a :: (b :: p) ++ [nb])).
    simpl in Hw. destruct Hw as [Hab Hw].
    assert (Hrec : walk es ((b :: p) ++ [nb])).
    { apply IH; try assumption; discriminate. }
    simpl. simpl in Hrec. auto.
Qed.

Lemma connects_snoc a c nb p :
  connects es a c p -> adjacent es c nb -> connects es a nb (p ++ [nb]).
Proof.
  intros (Hh & Hl & Hne & Hw) Ha. unfold connects. repeat split.
  - destruct p; [contradiction| exact Hh].
  - apply List.last_last.
  - destruct p; discriminate.
  - apply walk_snoc with c; try assumption.
    rewrite <- Hl. now apply last_default.
Qed.

Lemma neighbors_adjacent c nb : In nb (neighbors es c) -> adjacent es c nb.
Proof.
  unfold neighbors. intros H. apply in_map_iff in H.
  destruct H as [e [He Hin]]. apply List.filter_In in Hin.
  exists e. tauto.
Qed.

Lemma findPath_loop_sound sourceId targetId maxDepth :
  forall fuel visited queue path,
    Forall (entry_ok es sourceId maxDepth) queue ->
    findPath_loop fuel es targetId maxDepth visited queue
    = Returned (Some path) ->
    entry_ok es sourceId maxDepth (targetId, path).
Proof.
  induction fuel as [|fuel IH]; intros visited queue path Hq Hr;
    [discriminate|].
  simpl in Hr. destruct queue as [|[c p] rest]; [discriminate|].
  inversion Hq as [|x l Hcp Hrest]; subst.
  destruct (String.eqb c targetId) eqn:Ec.
  - apply String.eqb_eq in Ec. subst c. inversion Hr; subst. exact Hcp.
  - destruct (zlen p >? maxDepth) eqn:Ed; [eapply IH; eassumption|].
    case_bool_decide; [eapply IH; eassumption|].
    eapply IH; [|exact Hr].
    apply Forall_app. split; [exact Hrest|].
    apply List.Forall_forall. intros [nb q] Hin.
    apply in_map_iff in Hin. destruct Hin as [nb' [Heq Hin]].
    inversion Heq; subst nb' q. apply List.filter_In in Hin.
    destruct Hin as [Hin _]. apply neighbors_adjacent in Hin.
    destruct Hcp as [Hc _]. simpl in Hc. split; simpl.
    + eapply connects_snoc; eassumption.
    + right. unfold hops, zlen in *. rewrite List.length_app. simpl.
      assert (Z.of_nat (List.length p) <= maxDepth) by lia. lia.
Qed.

Lemma findPath_loop_not_thrown targetId maxDepth :
  forall fuel visited queue,
    findPath_loop fuel es targetId maxDepth visited queue <> Thrown.
Proof.
  induction fuel as [|fuel IH]; intros visited queue; [discriminate|].
  simpl. destruct queue as [|[c p] rest]; [discriminate|].
  destruct (String.eqb c targetId); [discriminate|].
  destruct (zlen p >? maxDepth); [apply IH|].
  case_bool_decide; apply IH.
Qed.

End FindPath.

(** An id that no non-structural edge touches is the end of no walk from
    another id. *)
Lemma isolated_unreachable es a b p :
  isolated es b = true -> a <> b -> connects es a b p -> False.
Proof.
  intros Hi Hab (Hh & Hl & Hne & Hw).
  assert (Hadj : forall c, ~ adjacent es c b).
  { intros c [e (Hin & Ht & Ho)]. unfold isolated in Hi.
    rewrite List.forallb_forall in Hi. specialize (Hi e Hin).
    unfold touches in Ht. apply andb_true_iff in Ht. destruct Ht as [Hc Hn].
    rewrite Hn in Hi. simpl in Hi. apply negb_true_iff in Hi.
    apply orb_false_iff in Hi. destruct Hi as [Hs Htg].
    unfold other_end in Ho. destruct (String.eqb (source e) c) eqn:E.
    - rewrite <- Ho, String.eqb_refl in Htg. discriminate.
    - rewrite <- Ho, String.eqb_refl in Hs. discriminate. }
  revert a Hh Hl Hab Hw. induction p as [|x p IH]; intros a Hh Hl Hab Hw;
    [contradiction|].
  simpl in Hh. inversion Hh; subst x.
  destruct p as [|y p].
  - simpl in Hl. contradiction.
  - simpl in Hw. destruct Hw as [Hay Hw].
    destruct (String.eqb_spec y b) as [-> | Hyb].
    + exact (Hadj a Hay).
    + apply (IH ltac:(discriminate) y); try assumption; try reflexivity.
      rewrite last_cons in Hl by discriminate.
      rewrite <- Hl. now apply last_default.
Qed.

(** C5. For every id [A] carried by a node of the store, [findPath(A, A)]
    returns the one-node path made of that node, whatever [maxDepth] is;
    and for two distinct ids [A] and [B] such that every walk from [A] to
    [B] along non-structural edges (neither works_at nor belongs_to) has
    more than [maxDepth] hops, [findPath(A, B, maxDepth)] returns null. *)
Theorem findPath_self_and_unreachable (g : GraphService) :
  (forall A n maxDepth,
      find_node (nodes g) A = Some n ->
      findPath g A A maxDepth = Returned (Some [Some n])) /\
  (forall A B maxDepth,
      A <> B ->
      (forall p, connects (edges g) A B p -> maxDepth < hops p) ->
      findPath g A B maxDepth = Returned None).
Proof.
  split.
  - intros A n maxDepth Hn. unfold findPath, findPath_fuel. simpl.
    rewrite String.eqb_refl. simpl. now rewrite Hn.
  - intros A B maxDepth Hab Hno. unfold findPath.
    destruct (findPath_loop (findPath_fuel (edges g)) (edges g) B maxDepth
                ∅ [(A, [A])]) as [[path|] | |] eqn:E.
    + exfalso.
      apply (findPath_loop_sound (edges g) A B maxDepth) in E.
      * destruct E as [Hc [Hp | Hh]]; simpl in *.
        -- subst path. destruct Hc as (_ & Hl & _). simpl in Hl.
           contradiction.
        -- specialize (Hno path Hc). lia.
      * constructor; [|constructor]. split; simpl.
        -- apply connects_single.
        -- now left.
    + reflexivity.
    + exfalso. exact (findPath_loop_not_thrown _ _ _ _ _ _ E).
    + exfalso. revert E. apply findPath_loop_terminates.
      unfold findPath_fuel. simpl. lia.
Qed.

(** On the fixture store: the path from contact_2 to itself, and no path
    from contact_2 to account_2, which only structural edges touch. *)
Lemma findPath_self_and_unreachable_witness :
  findPath (loadMockGraphData example_now) "contact_2" "contact_2"
    default_maxDepth
  = Returned (Some [find_node (nodes (loadMockGraphData example_now))
                      "contact_2"]) /\
  findPath (loadMockGraphData example_now) "contact_2" "account_2"
    default_maxDepth
  = Returned None.
Proof.
  destruct (findPath_self_and_unreachable (loadMockGraphData example_now))
    as [Hself Hnone].
  split.
  - destruct (find_node (nodes (loadMockGraphData example_now)) "contact_2")
      as [n|] eqn:E; [|vm_compute in E; discriminate E].
    exact (Hself "contact_2" n default_maxDepth E).
  - apply Hnone; [discriminate|].
    intros p Hp. exfalso.
    apply (isolated_unreachable (edges (loadMockGraphData example_now))
             "contact_2" "account_2" p);
      [vm_compute; reflexivity | discriminate | exact Hp].
Defined.

(** On the fixture store the path from contact_2 to contact_5 goes through
    contact_1. *)
Example findPath_mock_path :
  findPath (loadMockGraphData example_now) "contact_2" "contact_5"
    default_maxDepth
  = Returned (Some (List.map (find_node (nodes (loadMockGraphData example_now)))
                      ["contact_2"; "contact_1"; "contact_5"])).
Proof. vm_compute. reflexivity. Qed.

(** ** Org chart *)

Section OrgChart.

#[local] Arguments JS.truthy : simpl never.

Lemma calculateLevels_fuel : forall fuel h k (visited : gset string),
  (size (dom h ∖ visited) < fuel)%nat ->
  calculateLevels fuel h k visited <> OutOfFuel.
Proof.
  induction fuel as [|fuel IH]; intros h k visited Hf; [lia|].
  simpl. case_bool_decide as Hv; [discriminate|].
  destruct (h !! k) as [node|] eqn:Hk; [|discriminate].
  destruct (reportsTo node) as [m|]; [|discriminate].
  destruct (JS.truthy (Some m)); [|discriminate].
  assert (Hlt : (size (dom h ∖ ({[k]} ∪ visited)) < size (dom h ∖ visited))%nat).
  { apply subset_size. apply elem_of_dom_2 in Hk. split.
    - intros x Hx. apply elem_of_difference in Hx.
      apply elem_of_difference. rewrite not_elem_of_union in Hx. tauto.
    - intros Hs. assert (Hin : k ∈ dom h ∖ visited)
        by (apply elem_of_difference; tauto).
      apply Hs, elem_of_difference in Hin. destruct Hin as [_ Hin].
      apply Hin, elem_of_union_l, elem_of_singleton. reflexivity. }
  specialize (IH h m ({[k]} ∪ visited) ltac:(lia)).
  destruct (calculateLevels fuel h m ({[k]} ∪ visited));
    simpl; congruence.
Qed.

Lemma calculateLevels_sound : forall fuel h k (visited : gset string) l,
  calculateLevels fuel h k visited = Returned l -> LevelOf h k visited l.
Proof.
  induction fuel as [|fuel IH]; intros h k visited l Hr; [discriminate|].
  simpl in Hr. case_bool_decide as Hv.
  - inversion Hr. now apply level_revisited.
  - destruct (h !! k) as [node|] eqn:Hk; [|discriminate].
    destruct (reportsTo node) as [m|] eqn:Hm.
    + destruct (JS.truthy (Some m)) eqn:Ht.
      * destruct (calculateLevels fuel h m ({[k]} ∪ visited)) as [l'| |] eqn:E;
          try discriminate.
        inversion Hr; subst l. eapply level_below; eauto.
      * inversion Hr. eapply level_top; eauto. now rewrite Hm.
    + inversion Hr. eapply level_top; eauto. now rewrite Hm.
Qed.

(** The levels are a function of the hierarchy, the id and the visited
    set. *)
Lemma LevelOf_functional h k visited l :
  LevelOf h k visited l -> forall l', LevelOf h k visited l' -> l = l'.
Proof.
  induction 1 as [k v Hin | k v node Hn Hk Ht | k v node m l Hn Hk Hm Ht _ IH];
    intros l' H'; inversion H'; subst; try reflexivity; try contradiction;
    try congruence.
  - match goal with
    | H1 : h !! k = Some ?n1, H2 : h !! k = Some ?n2 |- _ =>
        rewrite H1 in H2; inversion H2; subst
    end.
    match goal with
    | H1 : reportsTo _ = Some ?m1, H2 : reportsTo _ = Some ?m2 |- _ =>
        rewrite H1 in H2; inversion H2; subst
    end.
    f_equal. now apply IH.
Qed.

Lemma calculateLevels_pointers : forall fuel h h' k (visited : gset string),
  same_pointers h h' ->
  calculateLevels fuel h k visited = calculateLevels fuel h' k visited.
Proof.
  induction fuel as [|fuel IH]; intros h h' k visited Hp; [reflexivity|].
  simpl. case_bool_decide; [reflexivity|].
  pose proof (Hp k) as Hk.
  destruct (h !! k) as [n|], (h' !! k) as [n'|]; simpl in Hk;
    try discriminate; [|reflexivity].
  inversion Hk as [Hr]. rewrite Hr.
  destruct (reportsTo n') as [m|]; [|reflexivity].
  destruct (JS.truthy (Some m)); [|reflexivity].
  now rewrite (IH h h' m _ Hp).
Qed.

Lemma same_pointers_alter l k h :
  same_pointers h (alter (set_level l) k h).
Proof.
  intros k'. rewrite lookup_alter. case_decide as E; [|reflexivity].
  subst k'. destruct (h !! k); reflexivity.
Qed.

Lemma assign_levels_spec fuel : forall keys h h',
  assign_levels fuel h keys = Returned h' ->
  forall k,
    (k ∈ keys -> exists l, calculateLevels fuel h k ∅ = Returned l /\
                           h' !! k = set_level l <$> (h !! k)) /\
    (k ∉ keys -> h' !! k = h !! k).
Proof.
  induction keys as [|k0 rest IH]; intros h h' Hr k.
  - simpl in Hr. inversion Hr; subst. split; [intros H; inversion H|reflexivity].
  - simpl in Hr.
    destruct (calculateLevels fuel h k0 ∅) as [l0| |] eqn:E0;
      try discriminate.
    specialize (IH _ _ Hr k). destruct IH as [IHin IHout].
    pose proof (same_pointers_alter l0 k0 h) as Hp.
    destruct (decide (k ∈ rest)) as [Hin | Hout].
    + split; [|intros Hn; elim Hn; now right].
      intros _. destruct (IHin Hin) as [l [Hl Hk]].
      exists l. rewrite (calculateLevels_pointers fuel h _ k ∅ Hp).
      split; [exact Hl|]. rewrite Hk, lookup_alter.
      case_decide as Ek; [subst k0|reflexivity].
      destruct (h !! k); reflexivity.
    + split.
      * intros Hk. apply elem_of_cons in Hk. destruct Hk as [-> | Hk];
          [|contradiction].
        exists l0. split; [exact E0|].
        rewrite (IHout Hout), lookup_alter. case_decide; [reflexivity|].
        congruence.
      * intros Hn. rewrite (IHout Hout), lookup_alter.
        case_decide; [|reflexivity]. subst. elim Hn. now left.
Qed.

Lemma assign_levels_fuel fuel : forall keys h,
  (forall k, calculateLevels fuel h k ∅ <> OutOfFuel) ->
  assign_levels fuel h keys <> OutOfFuel.
Proof.
  induction keys as [|k0 rest IH]; intros h Hf; [discriminate|].
  simpl. pose proof (Hf k0) as H0.
  destruct (calculateLevels fuel h k0 ∅) as [l0| |];
    [|discriminate|contradiction].
  apply IH. intros k.
  rewrite <- (calculateLevels_pointers fuel h _ k ∅
                (same_pointers_alter l0 k0 h)).
  apply Hf.
Qed.

Lemma org_steps_fuel : forall es h, org_steps h es <> OutOfFuel.
Proof.
  induction es as [|e es IH]; intros h; [discriminate|].
  simpl. unfold org_step.
  repeat match goal with
         | |- context [if ?b then _ else _] => destruct b
         | |- context [match ?h !! ?k with _ => _ end] => destruct (h !! k)
         end; try discriminate; apply IH.
Qed.

End OrgChart.

(** Without cycles the level of an id does not depend on the visited
    set, as long as the set holds only ids below it. *)
Lemma LevelOf_acyclic h (rank : string -> nat) :
  (forall k node m,
      h !! k = Some node -> reportsTo node = Some m ->
      JS.truthy (Some m) = true -> (rank m < rank k)%nat) ->
  forall k (V : gset string) l,
    LevelOf h k V l ->
    forall (V' : gset string) l',
      (forall v, v ∈ V ∪ V' -> (rank k < rank v)%nat) ->
      LevelOf h k V' l' -> l = l'.
Proof.
  intros Hrank k V l H.
  induction H as [k V Hin | k V node Hn Hk Ht
                  | k V node m l Hn Hk Hm Ht _ IH];
    intros V' l' Hab H'.
  - specialize (Hab k ltac:(apply elem_of_union_l; exact Hin)). lia.
  - inversion H' as [k0 V0 Hin' | k0 V0 node' Hn' Hk' Ht'
                     | k0 V0 node' m' l0 Hn' Hk' Hm' Ht' Hl']; subst;
      [|reflexivity|].
    + specialize (Hab k ltac:(apply elem_of_union_r; exact Hin')). lia.
    + rewrite Hk in Hk'. inversion Hk'; subst node'.
      rewrite Hm' in Ht. congruence.
  - inversion H' as [k0 V0 Hin' | k0 V0 node' Hn' Hk' Ht'
                     | k0 V0 node' m' l0 Hn' Hk' Hm' Ht' Hl']; subst.
    + specialize (Hab k ltac:(apply elem_of_union_r; exact Hin')). lia.
    + rewrite Hk in Hk'. inversion Hk'; subst node'.
      rewrite Hm in Ht'. congruence.
    + rewrite Hk in Hk'. inversion Hk'; subst node'.
      rewrite Hm in Hm'. inversion Hm'; subst m'.
      f_equal. apply (IH ({[k]} ∪ V')); [|exact Hl'].
      intros v Hv. pose proof (Hrank k node m Hk Hm Ht) as Hlt.
      rewrite !elem_of_union, !elem_of_singleton in Hv.
      destruct Hv as [[-> | Hv] | [-> | Hv]]; try exact Hlt.
      * specialize (Hab v ltac:(apply elem_of_union_l; exact Hv)). lia.
      * specialize (Hab v ltac:(apply elem_of_union_r; exact Hv)). lia.
Qed.

(** [getOrgChart] ends on every store and account id, cyclic reporting
    lines included: it returns a hierarchy or raises the [TypeError] of an
    edge that leaves the account.  In a returned hierarchy the level of
    every entry is the one the recursion defines from an empty visited
    set: level 0 for a revisited id and for an id with no manager, one
    more than the manager's level otherwise, the manager's level being
    computed with the id marked visited.  When the reporting lines have no
    cycle, the level written for an entry with a manager is one more than
    the level written for the manager. *)
Lemma getOrgChart_terminates_with_levels (g : GraphService) (aid : string) :
  getOrgChart g aid <> OutOfFuel /\
  (forall h, getOrgChart g aid = Returned h ->
             forall k node, h !! k = Some node ->
                            LevelOf h k ∅ (level node)) /\
  (forall h, getOrgChart g aid = Returned h -> acyclic h ->
             forall k node m mnode,
               h !! k = Some node -> reportsTo node = Some m ->
               JS.truthy (Some m) = true -> h !! m = Some mnode ->
               level node = level mnode + 1).
Proof.
  assert (Hlev : forall h, getOrgChart g aid = Returned h ->
                           forall k node, h !! k = Some node ->
                                          LevelOf h k ∅ (level node)).
  { unfold getOrgChart.
    destruct (org_steps (init_hierarchy (getAccountContacts g aid))
                (orgEdges (getAccountContacts g aid) (edges g)))
      as [h0| |] eqn:E0; [|discriminate|discriminate].
    intros h Hr k node Hk.
    pose proof (assign_levels_spec _ _ _ _ Hr k) as [Hin Hout].
    assert (Hp : same_pointers h0 h).
    { intros k'. pose proof (assign_levels_spec _ _ _ _ Hr k') as [Hi Ho].
      destruct (decide (k' ∈ (map_to_list h0).*1)) as [Hd | Hd].
      - destruct (Hi Hd) as [l [_ ->]]. destruct (h0 !! k'); reflexivity.
      - now rewrite (Ho Hd). }
    destruct (decide (k ∈ (map_to_list h0).*1)) as [Hd | Hd].
    - destruct (Hin Hd) as [l [Hl Hk']]. rewrite Hk in Hk'.
      destruct (h0 !! k) as [n0|]; [|discriminate].
      simpl in Hk'. inversion Hk'; subst node. simpl.
      apply (calculateLevels_sound (S (size h0))).
      rewrite <- (calculateLevels_pointers _ h0 h k ∅ Hp). exact Hl.
    - exfalso. apply Hd. rewrite (Hout Hd) in Hk.
      apply list_elem_of_fmap. exists (k, node). split; [reflexivity|].
      now apply elem_of_map_to_list. }
  split; [|split; [exact Hlev|]].
  - unfold getOrgChart.
    destruct (org_steps (init_hierarchy (getAccountContacts g aid))
                (orgEdges (getAccountContacts g aid) (edges g)))
      as [h0| |] eqn:E0.
    + apply assign_levels_fuel. intros k. apply calculateLevels_fuel.
      rewrite difference_empty_L, size_dom. lia.
    + discriminate.
    + exfalso. exact (org_steps_fuel _ _ E0).
  - intros h Hr [rank Hrank] k node m mnode Hk Hm Ht Hmk.
    pose proof (Hlev h Hr k node Hk) as Lk.
    pose proof (Hlev h Hr m mnode Hmk) as Lm.
    inversion Lk as [k0 V0 Hin' | k0 V0 node' Hn' Hk' Ht'
                     | k0 V0 node' m' l0 Hn' Hk' Hm' Ht' Hl']; subst.
    + exfalso. revert Hin'. apply not_elem_of_empty.
    + rewrite Hk in Hk'. inversion Hk'; subst node'.
      rewrite Hm in Ht'. congruence.
    + rewrite Hk in Hk'. inversion Hk'; subst node'.
      rewrite Hm in Hm'. inversion Hm'; subst m'.
      f_equal.
      apply (LevelOf_acyclic h rank Hrank m _ _ Hl' ∅ _); [|exact Lm].
      intros v Hv. rewrite !elem_of_union, elem_of_singleton in Hv.
      destruct Hv as [[-> | Hv] | Hv].
      * exact (Hrank k node m Hk Hm Ht).
      * exfalso. revert Hv. apply not_elem_of_empty.
      * exfalso. revert Hv. apply not_elem_of_empty.
Qed.

(** C9. The level pass is not reached for every input.  In
    [cross_account_store] Ann is the only contact of the account and
    reports to Zed, a contact of another account, so she has no manager
    that can be resolved within the account.  The [reports_to] edge passes
    the filter of [orgEdges] on its source alone, the write to
    [hierarchy[edge.target].manages] finds no entry for Zed, and the call
    raises instead of returning Ann at level 0. *)
Theorem getOrgChart_cross_account_throws :
  List.map n_id (getAccountContacts cross_account_store "acct") = ["a"] /\
  List.map e_id (orgEdges (getAccountContacts cross_account_store "acct")
                   (edges cross_account_store)) = ["e2"] /\
  getOrgChart cross_account_store "acct" = Thrown.
Proof. repeat split; vm_compute; reflexivity. Qed.

(** ** Deal health orchestrator *)

Lemma gt_num_spec (x : option Z) (y : Q) :
  gt_num x y = true <-> exists n, x = Some n /\ (y < inject_Z n)%Q.
Proof.
  unfold gt_num. destruct x as [n|].
  - destruct (Qlt_le_dec y (inject_Z n)) as [H | H]; split.
    + intros _. eauto.
    + reflexivity.
    + discriminate.
    + intros [n' [E Hlt]]. inversion E; subst. lra.
  - split; [discriminate | intros [n [E _]]; discriminate].
Qed.

(** C8. [detectStalling] reports [isStalling = true] exactly when the
    days in the current stage are a number above 1.5 times the average
    duration read for the stage.  For the stages new, contacted,
    qualified, proposal and negotiation the average is 3, 5, 7, 10 and 14
    days, so a deal in one of them is stalling exactly when its days in
    the stage exceed 1.5 times that figure.  A deal in stage qualified
    whose stage entry is dated by a last activity 12 days back is
    stalling, with threshold 10.5. *)
Theorem detectStalling_threshold (now : Z) (d : Deal) :
  daysInStage (detectStalling now d) = calculateDaysInStage now d /\
  (forall s avg,
      In (s, avg) stage_averages -> stage d = Some s ->
      avgDuration (stage d) = Some avg /\
      threshold (detectStalling now d) = Some (inject_Z avg * 1.5)%Q /\
      (isStalling (detectStalling now d) = true <->
       exists n, calculateDaysInStage now d = Some n /\
                 (inject_Z avg * 1.5 < inject_Z n)%Q)) /\
  (isStalling (detectStalling now d) = true <->
   exists avg n, avgDuration (stage d) = Some avg /\
                 calculateDaysInStage now d = Some n /\
                 (inject_Z avg * 1.5 < inject_Z n)%Q) /\
  (forall t,
      stage d = Some "qualified" -> stageEntryDate d = NoDate ->
      lastActivity d = DateAt t -> days_since now t = 12 ->
      isStalling (detectStalling now d) = true /\
      daysInStage (detectStalling now d) = Some 12 /\
      exists thr, threshold (detectStalling now d) = Some thr /\
                  (thr == 10.5)%Q).
Proof.
  assert (Hiff : isStalling (detectStalling now d) = true <->
                 exists avg n, avgDuration (stage d) = Some avg /\
                               calculateDaysInStage now d = Some n /\
                               (inject_Z avg * 1.5 < inject_Z n)%Q).
  { unfold detectStalling. cbn [isStalling].
    destruct (avgDuration (stage d)) as [avg|]; cbn [option_map].
    - rewrite gt_num_spec. split.
      + intros [n [Hn Hlt]]. exists avg, n. auto.
      + intros [avg' [n [Ha [Hn Hlt]]]]. inversion Ha; subst avg'.
        exists n. auto.
    - split; [discriminate|]. intros [avg [n [Ha _]]]. discriminate. }
  split; [reflexivity|]. split; [|split; [exact Hiff|]].
  - intros s avg Hin Hs.
    assert (Havg : avgDuration (stage d) = Some avg).
    { rewrite Hs. unfold stage_averages in Hin. simpl in Hin.
      repeat (destruct Hin as [Hin | Hin];
              [inversion Hin; subst; reflexivity|]).
      contradiction. }
    split; [exact Havg|]. split.
    + unfold detectStalling. cbn [threshold]. now rewrite Havg.
    + rewrite Hiff. rewrite Havg. split.
      * intros [avg' [n [Ha [Hn Hlt]]]]. inversion Ha; subst avg'.
        exists n. auto.
      * intros [n [Hn Hlt]]. exists avg, n. auto.
  - intros t Hs He Hl Hd.
    assert (Hdays : calculateDaysInStage now d = Some 12).
    { unfold calculateDaysInStage. rewrite Hs, He, Hl. simpl. now rewrite Hd. }
    unfold detectStalling.
    cbn [isStalling daysInStage threshold].
    rewrite Hdays, Hs. split; [reflexivity|]. split; [reflexivity|].
    eexists. split; reflexivity.
Qed.

(** The scenario at a concrete clock: stage qualified, last activity 12
    days before now. *)
Lemma detectStalling_threshold_witness :
  let d := deal_in_stage "qualified" (example_now - 12 * JS.ms_per_day) in
  isStalling (detectStalling example_now d) = true /\
  daysInStage (detectStalling example_now d) = Some 12 /\
  (exists thr, threshold (detectStalling example_now d) = Some thr /\
               (thr == 10.5)%Q) /\
  avgDuration (stage d) = Some 7.
Proof.
  cbv zeta.
  pose proof (detectStalling_threshold example_now
                (deal_in_stage "qualified"
                   (example_now - 12 * JS.ms_per_day)))
    as (_ & Havg & _ & Hsc).
  destruct (Hsc (example_now - 12 * JS.ms_per_day)) as (H1 & H2 & H3);
    try reflexivity.
  pose proof (proj1 (Havg "qualified" 7 ltac:(simpl; tauto) eq_refl)) as H4.
  auto.
Defined.

(** *** Hot leads *)

Lemma In_sort_insert {A} (before : A -> A -> bool) x y l :
  In y (sort_insert before x l) -> y = x \/ In y l.
Proof.
  induction l as [|z l IH]; simpl.
  - intros [<- | []]. now left.
  - destruct (before x z); simpl.
    + intros [<- | H]; auto.
    + intros [<- | H]; auto. destruct (IH H); auto.
Qed.

Lemma In_js_sort {A} (before : A -> A -> bool) y l :
  In y (js_sort before l) -> In y l.
Proof.
  unfold js_sort.
  assert (H : forall acc, In y (List.fold_left
                                   (fun acc x => sort_insert before x acc) l acc)
                          -> In y acc \/ In y l).
  { induction l as [|x l IH]; simpl; intros acc Hy; [auto|].
    destruct (IH _ Hy) as [H | H]; [|auto].
    apply In_sort_insert in H. destruct H; auto. }
  intros Hy. destruct (H [] Hy) as [[] | Hl]. exact Hl.
Qed.

Lemma In_firstn_list {A} (y : A) : forall n l,
  In y (List.firstn n l) -> In y l.
Proof.
  induction n as [|n IH]; intros [|x l]; simpl; try tauto.
  intros [<- | H]; auto.
Qed.

Lemma signalReason_Some (m : Momentum) r :
  signalReason m = Some r ->
  0 < proposalOpens m \/ 0 < pricingClicks m \/ 2 < emailOpens m.
Proof.
  unfold signalReason.
  destruct (0 <? proposalOpens m) eqn:E1; [apply Z.ltb_lt in E1; auto|].
  destruct (0 <? pricingClicks m) eqn:E2; [apply Z.ltb_lt in E2; auto|].
  destruct (2 <? emailOpens m) eqn:E3; [apply Z.ltb_lt in E3; auto|].
  discriminate.
Qed.

Lemma signalReason_None (m : Momentum) :
  proposalOpens m <= 0 -> pricingClicks m <= 0 -> emailOpens m <= 2 ->
  signalReason m = None.
Proof.
  intros H1 H2 H3. unfold signalReason.
  apply Z.ltb_ge in H1, H2, H3. now rewrite H1, H2, H3.
Qed.

(** C10 as stated fails in its last clause.  A deal whose only recent
    signal is one email click has momentum and gets no hot lead, but the
    momentum raises neither its urgency score nor its smart actions: both
    are what they are with the momentum flag off. *)
Lemma email_click_momentum_raises_nothing :
  let now := example_now in
  let d := deal_in_stage "qualified" (now - 2 * JS.ms_per_day) in
  let log := [email_click_at (now - 3600000)] in
  let m := detectMomentum now None log in
  let s := detectStalling now d in
  let gh := detectGhosting now d log in
  hasMomentum m = true /\ emailClicks m = 1 /\ emailOpens m = 0 /\
  hot_leads (analyze now (fun _ => None) (fun _ => log) [d]) = [] /\
  calculateUrgencyScore d m s gh
  = calculateUrgencyScore d (without_momentum m) s gh /\
  generateSmartActions now d log m s gh
  = generateSmartActions now d log (without_momentum m) s gh.
Proof. cbv zeta. repeat split; vm_compute; reflexivity. Qed.

(** C10, amended. A hot lead is pushed for a deal only when its momentum
    shows a proposal open, a pricing click or more than two email opens
    in the last 24 hours.  A deal with none of the three gets no hot-lead
    entry even when an email click or a meeting acceptance gives it
    momentum; such momentum adds no smart action, and leaves the urgency
    score unchanged when there was no email open. *)
Theorem hot_lead_requires_signal
  (now : Z) (telemetry : string -> option Telemetry)
  (getDealActivities : string -> list Activity) (deals : list Deal) :
  (forall hl,
      In hl (hot_leads (analyze now telemetry getDealActivities deals)) ->
      exists d, In d deals /\ d_id d = hl_deal_id hl /\
                let m := detectMomentum now (telemetry (d_id d))
                           (getDealActivities (d_id d)) in
                hasMomentum m = true /\
                (0 < proposalOpens m \/ 0 < pricingClicks m \/
                 2 < emailOpens m)) /\
  (forall d,
      let log := getDealActivities (d_id d) in
      let m := detectMomentum now (telemetry (d_id d)) log in
      let s := detectStalling now d in
      let gh := detectGhosting now d log in
      proposalOpens m <= 0 -> pricingClicks m <= 0 -> emailOpens m <= 2 ->
      fst (fst (analyze_deal now telemetry getDealActivities d)) = [] /\
      generateSmartActions now d log m s gh
      = generateSmartActions now d log (without_momentum m) s gh /\
      (proposalOpens m = 0 -> pricingClicks m = 0 -> emailOpens m = 0 ->
       calculateUrgencyScore d m s gh
       = calculateUrgencyScore d (without_momentum m) s gh)).
Proof.
  split.
  - intros hl Hin. unfold analyze in Hin.
    cbv beta zeta iota delta [hot_leads] in Hin.
    apply In_firstn_list, In_js_sort, in_flat_map in Hin.
    destruct Hin as [r [Hr Hin]]. apply in_map_iff in Hr.
    destruct Hr as [d [<- Hd]]. apply List.filter_In in Hd.
    destruct Hd as [Hd _]. exists d. split; [exact Hd|].
    unfold analyze_deal in Hin.
    cbv beta zeta iota delta [fst snd] in Hin.
    destruct (hasMomentum _) eqn:Hm; [|contradiction].
    destruct (signalReason _) as [r|] eqn:Hs; [|contradiction].
    destruct Hin as [<- | []]. cbv zeta. split; [reflexivity|].
    split; [exact Hm|]. eapply signalReason_Some; eassumption.
  - intros d log m s gh H1 H2 H3. split; [|split].
    + unfold analyze_deal. cbv beta zeta iota delta [fst snd].
      fold log. fold m.
      rewrite (signalReason_None m H1 H2 H3).
      destruct (hasMomentum m); reflexivity.
    + unfold generateSmartActions. cbv zeta.
      apply Z.ltb_ge in H1, H2, H3.
      change (hasMomentum (without_momentum m)) with false.
      rewrite H1, H2, H3.
      destruct (hasMomentum m); reflexivity.
    + intros E1 E2 E3. unfold calculateUrgencyScore. cbv zeta.
      change (hasMomentum (without_momentum m)) with false.
      rewrite E1, E2, E3.
      destruct (hasMomentum m); [|reflexivity].
      assert (Hround : forall x y, (x == y)%Q -> JS.round x = JS.round y).
      { intros x y Hxy. unfold JS.round. now rewrite Hxy. }
      destruct (probability d) as [| |p|], (isStalling s),
        (daysInStage s), (isGhosting gh), (lastContactDays gh),
        (Qlt_le_dec 200000 (value d));
        cbn [base_score num_add capped option_map clamp_score];
        try reflexivity;
        f_equal; f_equal; f_equal; apply Hround;
        change (inject_Z 0) with 0%Q; ring.
Qed.

(** A deal whose only signal is an email click: momentum, no hot lead,
    no added action. *)
Lemma hot_lead_requires_signal_witness :
  let now := example_now in
  let d := deal_in_stage "qualified" (now - 2 * JS.ms_per_day) in
  let log := [email_click_at (now - 3600000)] in
  let m := detectMomentum now None log in
  hasMomentum m = true /\
  fst (fst (analyze_deal now (fun _ => None) (fun _ => log) d)) = [] /\
  generateSmartActions now d log m (detectStalling now d)
    (detectGhosting now d log)
  = generateSmartActions now d log (without_momentum m)
      (detectStalling now d) (detectGhosting now d log).
Proof.
  cbv zeta. split; [vm_compute; reflexivity|].
  pose proof (proj2 (hot_lead_requires_signal example_now (fun _ => None)
                       (fun _ => [email_click_at (example_now - 3600000)])
                       [])
                (deal_in_stage "qualified"
                   (example_now - 2 * JS.ms_per_day))) as H.
  cbv zeta in H.
  destruct H as (H1 & H2 & _); [vm_compute; discriminate ..|].
  split; [exact H1 | exact H2].
Defined.

(** * Further properties *)

(** ** Lists, sorting and substrings *)

Lemma filter_sublist {A} (p : A -> bool) (l : list A) :
  sublist (List.filter p l) l.
Proof.
  induction l as [|x l IH]; simpl; [constructor|].
  destruct (p x); [now apply sublist_skip | now apply sublist_cons].
Qed.

Lemma sort_insert_Permutation {A} (before : A -> A -> bool) x l :
  Permutation (sort_insert before x l) (x :: l).
Proof.
  induction l as [|y l IH]; simpl; [reflexivity|].
  destruct (before x y); [reflexivity|].
  rewrite IH. apply perm_swap.
Qed.

Lemma js_sort_Permutation {A} (before : A -> A -> bool) l :
  Permutation (js_sort before l) l.
Proof.
  unfold js_sort.
  assert (H : forall acc,
             Permutation
               (List.fold_left (fun acc x => sort_insert before x acc) l acc)
               (acc ++ l)).
  { induction l as [|x l IH]; intros acc; simpl.
    - now rewrite app_nil_r.
    - rewrite IH, sort_insert_Permutation.
      change (x :: acc ++ l) with ((x :: acc) ++ l).
      rewrite (Permutation_middle acc l x). reflexivity. }
  apply (H []).
Qed.

Section Sorted.

Context {A : Type} (before : A -> A -> bool) (P : A -> Prop)
        (R : A -> A -> Prop).
Hypothesis R_trans : forall a b c, R a b -> R b c -> R a c.
Hypothesis before_true : forall a b, P a -> P b -> before a b = true -> R a b.
Hypothesis before_false : forall a b, P a -> P b -> before a b = false -> R b a.

Lemma sort_insert_sorted x l :
  P x -> Forall P l -> StronglySorted R l ->
  StronglySorted R (sort_insert before x l).
Proof.
  intros Px Pl Hs. induction Hs as [|y l Hs IH Hy]; simpl.
  - constructor; constructor.
  - inversion Pl as [|y' l' Py Pl']; subst.
    destruct (before x y) eqn:E.
    + constructor; [constructor; assumption|].
      constructor; [now apply before_true|].
      eapply List.Forall_impl; [|exact Hy]. intros z Hz.
      apply R_trans with y; [now apply before_true | exact Hz].
    + constructor; [now apply IH|].
      apply List.Forall_forall. intros z Hz.
      apply In_sort_insert in Hz. destruct Hz as [-> | Hz].
      * now apply before_false.
      * rewrite List.Forall_forall in Hy. now apply Hy.
Qed.

Lemma js_sort_sorted l :
  Forall P l -> StronglySorted R (js_sort before l).
Proof.
  unfold js_sort.
  assert (H : forall acc,
             Forall P acc -> Forall P l -> StronglySorted R acc ->
             StronglySorted R
               (List.fold_left (fun acc x => sort_insert before x acc) l acc)).
  { induction l as [|x l IH]; intros acc Pacc Pl Hacc; simpl; [exact Hacc|].
    inversion Pl as [|x' l' Px Pl']; subst.
    apply IH; [|exact Pl'|now apply sort_insert_sorted].
    apply List.Forall_forall. intros z Hz. apply In_sort_insert in Hz.
    destruct Hz as [-> | Hz]; [exact Px|].
    rewrite List.Forall_forall in Pacc. now apply Pacc. }
  intros Pl. apply H; [constructor | exact Pl | constructor].
Qed.

End Sorted.

Lemma firstn_sorted {A} (R : A -> A -> Prop) n : forall l,
  StronglySorted R l -> StronglySorted R (List.firstn n l).
Proof.
  induction n as [|n IH]; intros l Hs; [constructor|].
  destruct Hs as [|x l Hs Hx]; simpl; [constructor|].
  constructor; [now apply IH|].
  apply List.Forall_forall. intros z Hz. apply In_firstn_list in Hz.
  rewrite List.Forall_forall in Hx. now apply Hx.
Qed.

Lemma firstn_length_le {A} n (l : list A) :
  (List.length (List.firstn n l) <= n)%nat.
Proof. rewrite List.length_firstn. lia. Qed.

Lemma append_cons c (a b : string) :
  (String c a ++ b)%string = String c (a ++ b)%string.
Proof. reflexivity. Qed.

Lemma append_empty (b : string) : ("" ++ b)%string = b.
Proof. reflexivity. Qed.

(** [includes] decides occurrence as a substring. *)
Lemma prefix_occurs needle hay :
  String.prefix needle hay = true <-> exists post, hay = (needle ++ post)%string.
Proof.
  revert hay. induction needle as [|c needle IH]; intros hay.
  - split; [intros _; now exists hay | intros _; now destruct hay].
  - destruct hay as [|d hay].
    + split; [discriminate|]. intros [p Hp]. rewrite append_cons in Hp.
      discriminate.
    + simpl. destruct (Ascii.ascii_dec c d) as [<- | Hne].
      * rewrite IH. split; intros [post Hp]; exists post;
          rewrite append_cons in *; congruence.
      * split; [discriminate|]. intros [p Hp]. rewrite append_cons in Hp.
        congruence.
Qed.

Lemma includes_occurs hay needle :
  JS.includes hay needle = true <-> occurs_in needle hay.
Proof.
  unfold occurs_in. induction hay as [|d hay IH].
  - cbn [JS.includes]. rewrite orb_false_r, prefix_occurs. split.
    + intros [post Hp]. exists ""%string, post. exact Hp.
    + intros [pre [post Hp]]. destruct pre as [|c pre].
      * now exists post.
      * rewrite append_cons in Hp. discriminate.
  - cbn [JS.includes]. rewrite orb_true_iff, prefix_occurs, IH. split.
    + intros [[post Hp] | [pre [post Hp]]].
      * exists ""%string, post. exact Hp.
      * exists (String d pre), post. rewrite append_cons. now rewrite Hp.
    + intros [pre [post Hp]]. destruct pre as [|c pre].
      * left. now exists post.
      * right. rewrite append_cons in Hp. inversion Hp. now exists pre, post.
Qed.

Lemma string_app_assoc (a b c : string) :
  ((a ++ b) ++ c = a ++ (b ++ c))%string.
Proof.
  induction a as [|x a IH]; [reflexivity|].
  rewrite !append_cons. congruence.
Qed.

Lemma includes_trans hay mid needle :
  JS.includes hay mid = true -> JS.includes mid needle = true ->
  JS.includes hay needle = true.
Proof.
  rewrite !includes_occurs. intros [p1 [q1 H1]] [p2 [q2 H2]].
  exists (p1 ++ p2)%string, (q2 ++ q1)%string. subst.
  now rewrite !string_app_assoc.
Qed.

(** ** Graph queries *)

Lemma find_node_Some ns id :
  In id (List.map n_id ns) ->
  exists n, find_node ns id = Some n /\ n_id n = id /\ In n ns.
Proof.
  unfold find_node. induction ns as [|m ns IH]; simpl; [contradiction|].
  intros H. destruct (String.eqb (n_id m) id) eqn:E.
  - apply String.eqb_eq in E. exists m. auto.
  - destruct H as [H | H]; [subst; now rewrite String.eqb_refl in E|].
    destruct (IH H) as [n (Hf & Hi & Hn)]. exists n. auto.
Qed.

Lemma filter_account_sublist aid ne :
  sublist (fst (filter_account aid ne)) (fst ne) /\
  sublist (snd (filter_account aid ne)) (snd ne).
Proof. split; apply filter_sublist. Qed.

Lemma filter_deal_sublist did ne :
  sublist (fst (filter_deal did ne)) (fst ne) /\
  sublist (snd (filter_deal did ne)) (snd ne).
Proof. split; apply filter_sublist. Qed.

Lemma filter_influence_sublist m ne :
  sublist (fst (filter_influence m ne)) (fst ne) /\
  sublist (snd (filter_influence m ne)) (snd ne).
Proof. split; apply filter_sublist. Qed.

(** X1. [getGraphData] returns a part of the store: for every filter the
    returned nodes and edges are sub-sequences of [this.nodes] and
    [this.edges] (nothing is invented, reordered or duplicated), and a
    filter whose [accountId] and [dealId] are missing or empty and whose
    [minInfluence] is missing or 0 returns the whole store. *)
Theorem getGraphData_subgraph (g : GraphService) (f : Filter) :
  sublist (fst (getGraphData g f)) (nodes g) /\
  sublist (snd (getGraphData g f)) (edges g) /\
  (JS.truthy (accountId f) = false -> JS.truthy (dealId f) = false ->
   minInfluence f = None \/ minInfluence f = Some 0 ->
   getGraphData g f = (nodes g, edges g)).
Proof.
  unfold getGraphData.
  set (r0 := (nodes g, edges g)).
  set (r1 := match accountId f with Some _ => _ | None => r0 end).
  set (r2 := match dealId f with Some _ => _ | None => r1 end).
  assert (H1 : sublist (fst r1) (fst r0) /\ sublist (snd r1) (snd r0)).
  { subst r1. destruct (accountId f) as [aid|]; [|split; reflexivity].
    destruct (JS.truthy (Some aid)); [apply filter_account_sublist|].
    split; reflexivity. }
  assert (H2 : sublist (fst r2) (fst r1) /\ sublist (snd r2) (snd r1)).
  { subst r2. destruct (dealId f) as [did|]; [|split; reflexivity].
    destruct (JS.truthy (Some did)); [apply filter_deal_sublist|].
    split; reflexivity. }
  assert (H3 : forall r3, r3 = match minInfluence f with
                               | Some m => if m =? 0 then r2
                                           else filter_influence m r2
                               | None => r2
                               end ->
                          sublist (fst r3) (fst r2) /\
                          sublist (snd r3) (snd r2)).
  { intros r3 ->. destruct (minInfluence f) as [m|]; [|split; reflexivity].
    destruct (m =? 0); [split; reflexivity|apply filter_influence_sublist]. }
  destruct (H3 _ eq_refl) as [H3n H3e]. destruct H1, H2.
  split; [|split].
  - etransitivity; [exact H3n|]. etransitivity; eassumption.
  - etransitivity; [exact H3e|]. etransitivity; eassumption.
  - intros Ha Hd Hm. subst r2 r1.
    assert (E1 : match accountId f with
                 | Some aid => if JS.truthy (Some aid)
                               then filter_account aid r0 else r0
                 | None => r0
                 end = r0).
    { destruct (accountId f); [|reflexivity]. now rewrite Ha. }
    rewrite E1.
    assert (E2 : match dealId f with
                 | Some did => if JS.truthy (Some did)
                               then filter_deal did r0 else r0
                 | None => r0
                 end = r0).
    { destruct (dealId f); [|reflexivity]. now rewrite Hd. }
    rewrite E2. destruct Hm as [-> | ->]; reflexivity.
Qed.

(** The whole fixture store comes back for an empty account id and a
    zero threshold. *)
Lemma getGraphData_subgraph_witness :
  getGraphData (loadMockGraphData example_now)
    {| accountId := Some ""; dealId := None; minInfluence := Some 0 |}
  = (nodes (loadMockGraphData example_now),
     edges (loadMockGraphData example_now)).
Proof.
  apply (getGraphData_subgraph (loadMockGraphData example_now)
           {| accountId := Some ""; dealId := None; minInfluence := Some 0 |});
    [reflexivity | reflexivity | now right].
Defined.

(** X2. With a non-zero [minInfluence] the result is the result of the
    same filter without it, restricted to the nodes that are not contacts
    or have at least that score and to the edges whose two ends are among
    those nodes; so both ends of every returned edge are returned nodes. *)
Theorem getGraphData_minInfluence_restricts
  (g : GraphService) (f : Filter) (m : Z) :
  minInfluence f = Some m -> m <> 0 ->
  let r0 := getGraphData g (without_minInfluence f) in
  let r := getGraphData g f in
  (forall n, In n (fst r) <->
             In n (fst r0) /\ (n_type n = contact -> m <= influenceScore n)) /\
  (forall e, In e (snd r) <->
             In e (snd r0) /\ In (source e) (List.map n_id (fst r)) /\
             In (target e) (List.map n_id (fst r))) /\
  edges_closed r.
Proof.
  intros Hm Hne. cbv zeta. unfold getGraphData, without_minInfluence.
  simpl accountId. simpl dealId. simpl minInfluence. rewrite Hm.
  apply Z.eqb_neq in Hne. rewrite Hne.
  set (r2 := match dealId f with Some _ => _ | None => _ end).
  split; [|split].
  - intros n. unfold filter_influence. simpl fst. rewrite List.filter_In.
    split; intros [Hin Hp]; (split; [exact Hin|]).
    + intros Hc. rewrite Hc in Hp. simpl in Hp. now apply Z.leb_le.
    + destruct (n_type n); simpl; try reflexivity.
      apply Z.leb_le. now apply Hp.
  - intros e. unfold filter_influence. simpl. rewrite List.filter_In.
    rewrite andb_true_iff, !id_in_In. tauto.
  - apply filter_influence_closed.
Qed.

(** On the fixture store a threshold of 30 keeps three contacts. *)
Lemma getGraphData_minInfluence_restricts_witness :
  edges_closed
    (getGraphData (loadMockGraphData example_now)
       {| accountId := None; dealId := None; minInfluence := Some 30 |}) /\
  List.map n_id
    (List.filter (fun n => NodeType_eqb (n_type n) contact)
       (fst (getGraphData (loadMockGraphData example_now)
               {| accountId := None; dealId := None;
                  minInfluence := Some 30 |})))
  = ["contact_1"; "contact_2"; "contact_5"].
Proof.
  split; [|vm_compute; reflexivity].
  apply (getGraphData_minInfluence_restricts (loadMockGraphData example_now)
           {| accountId := None; dealId := None; minInfluence := Some 30 |} 30);
    [reflexivity | discriminate].
Defined.

(** X3. The 15 points of the key director are never awarded: the key cto
    occurs inside director and comes earlier in the table, so every title
    that contains director (in any letter case) scores 30 or 25, and the
    role component of any title is 0, 5, 10, 20, 25 or 30. *)
Theorem role_points_never_15 (title : option string) :
  role_points title <> 15 /\
  (forall t, title = Some t ->
             JS.includes (JS.toLowerCase t) "director" = true ->
             role_points title = 30 \/ role_points title = 25).
Proof.
  assert (Hd : forall s, JS.includes s "director" = true ->
                         JS.includes s "cto" = true).
  { intros s Hs. eapply includes_trans; [exact Hs | reflexivity]. }
  unfold role_points.
  set (s := JS.toLowerCase (default "" (JS.or_else title (Some "")))).
  assert (Hfind : forall P : Z -> Prop,
             (JS.includes s "ceo" = true -> P 30) ->
             (JS.includes s "ceo" = false -> JS.includes s "cto" = true ->
              P 25) ->
             (JS.includes s "cto" = false -> JS.includes s "director" = false
              -> (P 25 /\ P 20 /\ P 10 /\ P 5 /\ P 0)) ->
             P (match List.find (fun rp => JS.includes s (fst rp)) roleScores
                with Some rp => snd rp | None => 0 end)).
  { intros P H30 H25 Hrest. unfold roleScores. cbn [List.find fst snd].
    destruct (JS.includes s "ceo") eqn:E1; [apply H30; reflexivity|].
    destruct (JS.includes s "cto") eqn:E2; [apply H25; reflexivity|].
    assert (E5 : JS.includes s "director" = false).
    { destruct (JS.includes s "director") eqn:E; [|reflexivity].
      rewrite (Hd s E) in E2. discriminate. }
    rewrite E5. specialize (Hrest eq_refl E5).
    destruct (JS.includes s "cfo"), (JS.includes s "vp"),
      (JS.includes s "manager"), (JS.includes s "other"); tauto. }
  split.
  - apply Hfind; intros; repeat split; discriminate.
  - intros t -> Ht.
    assert (Hs : JS.includes s "director" = true).
    { subst s. unfold JS.or_else, JS.truthy.
      destruct (String.eqb t "") eqn:E; [|exact Ht].
      apply String.eqb_eq in E. subst t. discriminate Ht. }
    apply Hfind; intros; auto.
    rewrite Hs in *. discriminate.
Qed.

(** Titles of directors. *)
Lemma role_points_never_15_witness :
  role_points (Some "Managing Director") = 30 \/
  role_points (Some "Managing Director") = 25.
Proof.
  apply (proj2 (role_points_never_15 (Some "Managing Director"))
           "Managing Director"); reflexivity.
Defined.

(** ** Edge types and what depends on them *)

Lemma build_edges_types now contacts deals companies e :
  In e (build_edges now contacts deals companies) ->
  In (e_type e) crm_types /\
  (e_type e = "belongs_to" -> In (target e) (List.map co_id companies)).
Proof.
  intros He. unfold build_edges in He. rewrite in_app_iff in He.
  destruct He as [He | He]; apply in_flat_map in He;
    destruct He as [x [_ He]]; rewrite in_app_iff in He;
    destruct He as [He | He].
  - unfold reports_edge in He.
    destruct (JS.or_else (hc_reportsTo x) (hc_managerId x)) as [mid|];
      [|contradiction].
    destruct (JS.truthy (Some mid)); [|contradiction].
    destruct (List.find _ contacts); [|contradiction].
    destruct He as [<- | []]. simpl. split; [tauto | discriminate].
  - unfold works_at_edge in He.
    destruct (find_company companies (hc_companyId x)); [|contradiction].
    destruct He as [<- | []]. simpl. split; [tauto | discriminate].
  - unfold belongs_to_edge in He.
    destruct (find_company companies (hd_companyId x)) as [co|] eqn:Ef;
      [|contradiction].
    apply find_company_In in Ef.
    destruct He as [<- | []]. simpl. split; [tauto|].
    intros _. now apply in_map.
  - apply in_flat_map in He. destruct He as [cid [_ He]].
    unfold deal_contact_edge in He.
    destruct (List.find _ contacts) as [c|]; [|contradiction].
    destruct He as [<- | []]. simpl.
    destruct (opt_is (hc_role c) "decision_maker"); simpl;
      split; try tauto; discriminate.
Qed.

Lemma crm_types_no_deal ty :
  In ty crm_types -> JS.includes ty "deal" = false.
Proof.
  unfold crm_types. simpl.
  intros H. repeat (destruct H as [<- | H]; [reflexivity|]). contradiction.
Qed.

Lemma loadFromHubSpot_edges now configured history ints0 contacts deals
  companies :
  edges (loadFromHubSpot now configured history ints0 contacts deals companies)
  = build_edges now contacts deals companies.
Proof.
  unfold loadFromHubSpot.
  match goal with
  | |- context [loadInteractionHistory ?c ?h ?g0] =>
      rewrite (proj2 (loadInteractionHistory_ids c h g0))
  end.
  reflexivity.
Qed.

Lemma no_deal_types_dealEdges es cid :
  no_deal_types es -> dealEdges es cid = [].
Proof.
  unfold no_deal_types, dealEdges. induction 1 as [|e l He _ IH]; simpl;
    [reflexivity|].
  rewrite He, andb_false_r. exact IH.
Qed.

Lemma no_deal_types_deal_sources es did :
  no_deal_types es ->
  List.filter (fun e => (String.eqb (target e) did &&
                         JS.includes (e_type e) "deal")%bool) es = [].
Proof.
  unfold no_deal_types. induction 1 as [|e l He _ IH]; simpl; [reflexivity|].
  rewrite He, andb_false_r. exact IH.
Qed.

Lemma round_le (x : Q) (n : Z) : (x <= inject_Z n)%Q -> JS.round x <= n.
Proof.
  intros H. unfold JS.round.
  assert (Hlt : (inject_Z (Qfloor (x + (1 # 2))) < inject_Z (n + 1))%Q).
  { eapply Qle_lt_trans; [apply Qfloor_le|].
    rewrite inject_Z_plus. change (inject_Z 1) with 1%Q. lra. }
  rewrite <- Zlt_Qlt in Hlt. lia.
Qed.

Lemma round_mono (x y : Q) : (x <= y)%Q -> JS.round x <= JS.round y.
Proof. intros H. unfold JS.round. apply Qfloor_resp_le. lra. Qed.

(** X4. None of the edge types the import writes (reports_to, works_at,
    belongs_to, decision_maker_for, influencer_for) contains the letters
    deal, which is what the scorer and the deal filter look for.  So on
    every imported store the deal-involvement component of every score is
    0 and no score exceeds 80, and filtering by a deal id keeps no node
    but those carrying that id. *)
Theorem imported_store_has_no_deal_edges
  (now : Z) (configured : bool) (history : string -> list HInteraction)
  (ints0 : list Interaction) (contacts : list HContact) (deals : list HDeal)
  (companies : list HCompany) :
  let g := loadFromHubSpot now configured history ints0 contacts deals
             companies in
  (forall e, In e (edges g) -> In (e_type e) crm_types) /\
  (forall cid, dealEdges (edges g) cid = []) /\
  (forall t cid, calculateContactInfluence g t cid <= 80) /\
  (forall did n,
      In n (fst (getGraphData g {| accountId := None; dealId := Some did;
                                   minInfluence := None |})) ->
      JS.truthy (Some did) = true -> n_id n = did).
Proof.
  cbv zeta.
  set (g := loadFromHubSpot now configured history ints0 contacts deals
              companies).
  assert (Hty : forall e, In e (edges g) -> In (e_type e) crm_types).
  { intros e He. subst g. rewrite loadFromHubSpot_edges in He.
    now apply build_edges_types in He. }
  assert (Hnd : no_deal_types (edges g)).
  { apply List.Forall_forall. intros e He. apply crm_types_no_deal, Hty, He. }
  split; [exact Hty|]. split; [|split].
  - intros cid. now apply no_deal_types_dealEdges.
  - intros t cid. unfold calculateContactInfluence.
    destruct (find_node (nodes g) cid) as [c|]; [|lia].
    destruct (negb (NodeType_eqb (n_type c) contact)); [lia|].
    etransitivity; [apply Z.le_min_l|]. apply round_le.
    unfold raw_score. rewrite (no_deal_types_dealEdges _ cid Hnd).
    pose proof (role_points_range (n_title c)) as [_ Hr].
    set (b := Z.min (zlen (strongRelationships (edges g) cid) * 3) 20).
    set (c3 := Z.min (zlen (recentInteractions (interactions g) t cid) * 2) 15).
    assert (Hb : b <= 20) by (subst b; lia).
    assert (Hc : c3 <= 15) by (subst c3; lia).
    pose proof (Q.le_min_r (inject_Z (connections (edges g) cid) * (3 # 2)) 15)
      as Hq.
    rewrite Zle_Qle in Hr, Hb, Hc.
    change (inject_Z 30) with 30%Q in Hr. change (inject_Z 20) with 20%Q in Hb.
    change (inject_Z 15) with 15%Q in Hc. change (inject_Z 80) with 80%Q.
    change (inject_Z (Z.min (zlen [] * 10) 20)) with 0%Q. lra.
  - intros did n Hin Ht. unfold getGraphData in Hin.
    cbn [accountId dealId minInfluence] in Hin.
    rewrite Ht in Hin. unfold filter_deal in Hin. cbn [fst snd] in Hin.
    apply List.filter_In in Hin. destruct Hin as [_ Hp].
    rewrite (no_deal_types_deal_sources _ did Hnd) in Hp. simpl in Hp.
    now apply String.eqb_eq.
Qed.

Lemma imported_store_has_no_deal_edges_witness :
  let g := loadFromHubSpot example_now false (fun _ => []) [] bob_alone
             [{| hd_id := "d1"; hd_hubspotId := Some "7"; hd_name := "Deal";
                 hd_companyId := None; hd_contactIds := Some ["2"] |}] [] in
  List.length (edges g) = 1%nat /\
  forall n, In n (fst (getGraphData g {| accountId := None;
                                         dealId := Some "d1";
                                         minInfluence := None |})) ->
            n_id n = "d1".
Proof.
  cbv zeta. split; [vm_compute; reflexivity|].
  intros n Hn.
  apply (proj2 (proj2 (proj2
           (imported_store_has_no_deal_edges example_now false (fun _ => [])
              [] bob_alone
              [{| hd_id := "d1"; hd_hubspotId := Some "7"; hd_name := "Deal";
                  hd_companyId := None; hd_contactIds := Some ["2"] |}] [])))
           "d1" n Hn).
  reflexivity.
Defined.

(** X5. [getInfluenceRecommendations] is empty on every imported store,
    for every deal id that is not also the id of a company: the
    contacts of the deal are looked up through edge types containing deal,
    and the account through a belongs_to edge whose target is the deal,
    while the import writes belongs_to edges from the deal to the
    company. *)
Theorem imported_store_has_no_recommendations
  (now : Z) (configured : bool) (history : string -> list HInteraction)
  (ints0 : list Interaction) (contacts : list HContact) (deals : list HDeal)
  (companies : list HCompany) (dealId : string) :
  ~ In dealId (List.map co_id companies) ->
  getInfluenceRecommendations
    (loadFromHubSpot now configured history ints0 contacts deals companies)
    dealId = [].
Proof.
  intros Hno.
  set (g := loadFromHubSpot now configured history ints0 contacts deals
              companies).
  assert (Hty : forall e, In e (edges g) ->
                          In (e_type e) crm_types /\
                          (e_type e = "belongs_to" ->
                           In (target e) (List.map co_id companies))).
  { intros e He. subst g. rewrite loadFromHubSpot_edges in He.
    now apply build_edges_types in He. }
  assert (Hnd : no_deal_types (edges g)).
  { apply List.Forall_forall. intros e He.
    apply crm_types_no_deal, (Hty e He). }
  unfold getInfluenceRecommendations.
  rewrite (no_deal_types_deal_sources _ dealId Hnd). simpl.
  destruct (List.find _ (edges g)) as [e|] eqn:Ef; [|reflexivity].
  exfalso. apply List.find_some in Ef. destruct Ef as [He Hp].
  apply andb_true_iff in Hp. destruct Hp as [Ht Hb].
  apply String.eqb_eq in Ht, Hb. apply Hno. rewrite <- Ht.
  now apply (Hty e He).
Qed.

Lemma imported_store_has_no_recommendations_witness :
  getInfluenceRecommendations
    (loadFromHubSpot example_now false (fun _ => []) [] bob_alone
       [{| hd_id := "hubspot_deal_7"; hd_hubspotId := Some "7";
           hd_name := "Deal"; hd_companyId := Some "9";
           hd_contactIds := Some ["2"] |}]
       [{| co_id := "hubspot_company_9"; co_hubspotId := Some "9";
           co_name := "Acme" |}])
    "hubspot_deal_7" = [].
Proof.
  apply imported_store_has_no_recommendations.
  simpl. intros [H | []]. discriminate H.
Defined.

(** X6. On a store whose edges all end at nodes of the store, every
    relationship [getContactRelationships] returns for an id carries the
    node at the other end of its edge; its edge is an edge of the store
    that touches the id, and it is outgoing exactly when the id is the
    edge's source. *)
Theorem getContactRelationships_resolved (g : GraphService) (cid : string) :
  edges_closed (nodes g, edges g) ->
  forall r, In r (getContactRelationships g cid) ->
    In (r_edge r) (edges g) /\
    (source (r_edge r) = cid \/ target (r_edge r) = cid) /\
    (direction r = "outgoing" <-> source (r_edge r) = cid) /\
    exists n, otherNode r = Some n /\ In n (nodes g) /\
              n_id n = other_end cid (r_edge r).
Proof.
  intros Hc r Hr. unfold getContactRelationships in Hr.
  apply in_map_iff in Hr. destruct Hr as [e [<- He]].
  apply List.filter_In in He. destruct He as [He Hp]. simpl.
  split; [exact He|]. split; [|split].
  - apply orb_true_iff in Hp. rewrite !String.eqb_eq in Hp. exact Hp.
  - destruct (String.eqb_spec (source e) cid); split; intros;
      first [assumption | reflexivity | discriminate | contradiction].
  - destruct (Hc e He) as [Hs Ht]. simpl in Hs, Ht.
    assert (Ho : In (other_end cid e) (List.map n_id (nodes g))).
    { unfold other_end. destruct (String.eqb (source e) cid); assumption. }
    destruct (find_node_Some _ _ Ho) as [n (Hf & Hi & Hn)].
    exists n. auto.
Qed.

Lemma mock_edges_closed :
  edges_closed (Mock.mock_nodes, Mock.mock_edges).
Proof.
  unfold edges_closed. simpl fst. simpl snd. intros e He.
  assert (H : List.forallb
                (fun e => (id_in (source e) (List.map n_id Mock.mock_nodes) &&
                           id_in (target e) (List.map n_id Mock.mock_nodes))%bool)
                Mock.mock_edges = true) by (vm_compute; reflexivity).
  rewrite List.forallb_forall in H. specialize (H e He).
  apply andb_true_iff in H. rewrite !id_in_In in H. exact H.
Qed.

Lemma getContactRelationships_resolved_witness :
  List.map (fun r => (e_id (r_edge r), direction r,
                      option_map n_id (otherNode r)))
    (getContactRelationships
       {| nodes := Mock.mock_nodes; edges := Mock.mock_edges;
          interactions := Mock.mock_interactions |} "contact_5")
  = [("edge_7", "outgoing", Some "deal_2");
     ("edge_12", "outgoing", Some "account_2");
     ("edge_15", "incoming", Some "contact_1")] /\
  forall r, In r (getContactRelationships
                    {| nodes := Mock.mock_nodes; edges := Mock.mock_edges;
                       interactions := Mock.mock_interactions |} "contact_5") ->
            exists n, otherNode r = Some n /\ In n Mock.mock_nodes /\
                      n_id n = other_end "contact_5" (r_edge r).
Proof.
  split; [vm_compute; reflexivity|].
  intros r Hr.
  apply (getContactRelationships_resolved
           {| nodes := Mock.mock_nodes; edges := Mock.mock_edges;
              interactions := Mock.mock_interactions |} "contact_5"
           mock_edges_closed r Hr).
Defined.

(** ** Interaction history *)

Lemma not_older_trans a b c : not_older a b -> not_older b c -> not_older a c.
Proof.
  intros (ta & tb & Ha & Hb & H1) (tb' & tc & Hb' & Hc & H2).
  rewrite Hb in Hb'. inversion Hb'; subst tb'.
  exists ta, tc. repeat split; try assumption. lia.
Qed.

Lemma newer_true a b :
  i_date a <> None -> i_date b <> None -> newer a b = true -> not_older a b.
Proof.
  unfold newer, not_older. intros Ha Hb H.
  destruct (i_date a) as [ta|]; [|contradiction].
  destruct (i_date b) as [tb|]; [|contradiction].
  apply Z.ltb_lt in H. exists ta, tb. repeat split; try reflexivity. lia.
Qed.

Lemma newer_false a b :
  i_date a <> None -> i_date b <> None -> newer a b = false -> not_older b a.
Proof.
  unfold newer, not_older. intros Ha Hb H.
  destruct (i_date a) as [ta|]; [|contradiction].
  destruct (i_date b) as [tb|]; [|contradiction].
  apply Z.ltb_ge in H. exists tb, ta. repeat split; try reflexivity. lia.
Qed.

Lemma Permutation_In_iff {A} (l l' : list A) x :
  Permutation l l' -> (In x l <-> In x l').
Proof.
  intros H. split; intros Hx.
  - eapply Permutation_in; eassumption.
  - eapply Permutation_in; [symmetry|]; eassumption.
Qed.

Lemma getContactInteractions_perm g cid filters :
  Permutation (getContactInteractions g cid filters)
    (List.filter (selected cid filters) (interactions g)) /\
  (forall i, In i (getContactInteractions g cid filters) <->
             In i (interactions g) /\ selected cid filters i = true).
Proof.
  unfold getContactInteractions.
  pose proof (js_sort_Permutation newer
                (List.filter (selected cid filters) (interactions g))) as Hp.
  split; [exact Hp|].
  intros i. rewrite (Permutation_In_iff _ _ i Hp). apply List.filter_In.
Qed.

(** X7. [getContactInteractions] returns exactly the interactions of the
    store that belong to the contact and pass the type and date filters,
    each as often as the store holds it; when the contact's interactions
    all have valid dates the result is ordered newest first.  A range bound
    that is not a valid date excludes nothing. *)
Theorem getContactInteractions_sorted
  (g : GraphService) (cid : string) (filters : InteractionFilters) :
  let l := getContactInteractions g cid filters in
  Permutation l (List.filter (selected cid filters) (interactions g)) /\
  (forall i, In i l <->
             In i (interactions g) /\ selected cid filters i = true) /\
  (Forall (fun i => i_contactId i = cid -> i_date i <> None) (interactions g)
   -> StronglySorted not_older l) /\
  (forall r, f_dateRange filters = Some r ->
             dr_start r = BadDate -> dr_end r = BadDate ->
             l = getContactInteractions g cid
                   {| f_type := f_type filters; f_dateRange := None |}).
Proof.
  cbv zeta. unfold getContactInteractions.
  pose proof (js_sort_Permutation newer
                (List.filter (selected cid filters) (interactions g))) as Hp.
  split; [exact Hp|]. split; [|split].
  - intros i. rewrite (Permutation_In_iff _ _ i Hp). apply List.filter_In.
  - intros Hd.
    apply (js_sort_sorted newer (fun i => i_date i <> None) not_older
             not_older_trans newer_true newer_false).
    apply List.Forall_forall. intros i Hi. apply List.filter_In in Hi.
    destruct Hi as [Hi Hs]. rewrite List.Forall_forall in Hd.
    apply (Hd i Hi). unfold selected in Hs.
    apply andb_true_iff in Hs. destruct Hs as [Hs _].
    apply andb_true_iff in Hs. destruct Hs as [Hs _].
    now apply String.eqb_eq.
  - intros r Hr Hs He. f_equal. apply List.filter_ext. intros i.
    unfold selected. rewrite Hr, Hs, He. simpl f_type. simpl f_dateRange.
    unfold before_start, after_end. reflexivity.
Qed.

(** The calls logged for contact_1 in the fixture store, newest first. *)
Lemma getContactInteractions_sorted_witness :
  List.map i_id
    (getContactInteractions (loadMockGraphData example_now) "contact_1"
       {| f_type := Some "call"; f_dateRange := None |})
  = ["int_1"; "int_5"] /\
  StronglySorted not_older
    (getContactInteractions (loadMockGraphData example_now) "contact_1"
       {| f_type := Some "call"; f_dateRange := None |}).
Proof.
  split; [vm_compute; reflexivity|].
  apply (getContactInteractions_sorted (loadMockGraphData example_now)
           "contact_1" {| f_type := Some "call"; f_dateRange := None |}).
  simpl. repeat (constructor; [intros _; discriminate|]). constructor.
Defined.

Lemma num_or_zero x : num_or x 0 = x.
Proof. unfold num_or. destruct (x =? 0) eqn:E; [|reflexivity].
  apply Z.eqb_eq in E. now subst. Qed.

Lemma count_nonneg {A} (p : A -> bool) l : 0 <= count p l.
Proof. unfold count. apply zlen_nonneg. Qed.

Lemma count_cons {A} (p : A -> bool) x l :
  count p (x :: l) = (if p x then 1 else 0) + count p l.
Proof.
  unfold count, zlen. simpl. destruct (p x); simpl List.length; lia.
Qed.

Lemma fold_count_type (t : string) : forall l (m : gmap string Z),
  List.fold_left count_type l m !! t
  = if count (fun i => String.eqb (i_type i) t) l =? 0 then m !! t
    else Some (default 0 (m !! t)
               + count (fun i => String.eqb (i_type i) t) l).
Proof.
  induction l as [|i l IH]; intros m; [reflexivity|].
  simpl List.fold_left. rewrite IH, count_cons.
  pose proof (count_nonneg (fun i => String.eqb (i_type i) t) l) as Hc.
  unfold count_type. rewrite num_or_zero.
  destruct (String.eqb_spec (i_type i) t) as [-> | Hne].
  - rewrite lookup_insert_eq. simpl default.
    destruct (Z.eqb_spec (count (fun i => String.eqb (i_type i) t) l) 0)
      as [E0 | E0];
      destruct (Z.eqb_spec
                  (1 + count (fun i => String.eqb (i_type i) t) l) 0)
        as [E1 | E1]; try lia; f_equal; lia.
  - rewrite lookup_insert_ne by exact Hne. reflexivity.
Qed.

Lemma count_Permutation {A} (p : A -> bool) (l l' : list A) :
  Permutation l l' -> count p l = count p l'.
Proof.
  induction 1 as [|x l l' _ IH|x y l|l l' l'' _ IH1 _ IH2];
    rewrite ?count_cons; lia.
Qed.

Lemma count_filter {A} (p q : A -> bool) l :
  count p (List.filter q l) = count (fun x => (q x && p x)%bool) l.
Proof.
  induction l as [|x l IH]; [reflexivity|].
  simpl List.filter. destruct (q x) eqn:E.
  - rewrite !count_cons, E, IH. reflexivity.
  - rewrite count_cons, E, IH. simpl. lia.
Qed.

Lemma selected_no_filters cid i :
  selected cid no_filters i = String.eqb (i_contactId i) cid.
Proof. unfold selected. simpl. now rewrite !andb_true_r. Qed.

(** X8. In the statistics of a contact, [total] is the number of the
    store's interactions that belong to the contact, [byType] maps each
    type to the number of those interactions that have it and has no key
    for a type none of them has, and with no interaction at all
    [lastInteraction] and [averageDaysBetween] stay [null]. *)
Theorem getInteractionStats_counts (g : GraphService) (cid : string) :
  let st := getInteractionStats g cid in
  let mine := fun i => String.eqb (i_contactId i) cid in
  total st = count mine (interactions g) /\
  (forall t,
      byType st !! t =
        let c := count (fun i => (mine i && String.eqb (i_type i) t)%bool)
                   (interactions g) in
        if c =? 0 then None else Some c) /\
  (total st = 0 -> st_lastInteraction st = None /\
                   averageDaysBetween st = None) /\
  (total st = 1 -> averageDaysBetween st = None).
Proof.
  cbv zeta. unfold getInteractionStats. cbn [total byType st_lastInteraction
    averageDaysBetween].
  pose proof (proj1 (getContactInteractions_perm g cid no_filters)) as Hp.
  assert (Hf : List.filter (selected cid no_filters) (interactions g)
               = List.filter (fun i => String.eqb (i_contactId i) cid)
                   (interactions g)).
  { apply List.filter_ext. intros i. apply selected_no_filters. }
  rewrite Hf in Hp.
  set (l := getContactInteractions g cid no_filters) in *.
  assert (Hlen : zlen l = count (fun i => String.eqb (i_contactId i) cid)
                            (interactions g)).
  { unfold count, zlen. f_equal. now apply Permutation_length. }
  split; [exact Hlen|]. split; [|split].
  - intros t. rewrite fold_count_type. rewrite lookup_empty. simpl default.
    rewrite (count_Permutation _ _ _ Hp), count_filter.
    destruct (count _ (interactions g) =? 0); reflexivity.
  - rewrite Hlen. intros H0. rewrite <- Hlen in H0.
    destruct l as [|x l']; [split; reflexivity|].
    unfold zlen in H0. simpl in H0. lia.
  - rewrite Hlen. intros H1. rewrite <- Hlen in H1.
    destruct l as [|x [|y l']]; try reflexivity.
    unfold zlen in H1. simpl in H1. lia.
Qed.

Lemma getInteractionStats_counts_witness :
  let st := getInteractionStats (loadMockGraphData example_now) "contact_1" in
  total st = 3 /\ byType st !! "call" = Some 2 /\
  byType st !! "email" = Some 1 /\ byType st !! "meeting" = None /\
  averageDaysBetween
    (getInteractionStats (loadMockGraphData example_now) "contact_4") = None.
Proof.
  cbv zeta.
  pose proof (getInteractionStats_counts (loadMockGraphData example_now)
                "contact_1") as (Ht & Hb & _).
  pose proof (getInteractionStats_counts (loadMockGraphData example_now)
                "contact_4") as (Ht4 & _ & H0 & _).
  split; [rewrite Ht; vm_compute; reflexivity|].
  split; [rewrite Hb; vm_compute; reflexivity|].
  split; [rewrite Hb; vm_compute; reflexivity|].
  split; [rewrite Hb; vm_compute; reflexivity|].
  apply H0. rewrite Ht4. vm_compute. reflexivity.
Defined.

(** ** Logging interactions *)

Lemma touches_same_edge cid e e' : same_edge e e' -> touches cid e' = touches cid e.
Proof.
  intros (_ & Hs & Ht & Hty & _). unfold touches, non_structural.
  now rewrite Hs, Ht, Hty.
Qed.

Lemma filter_length_map_eq {A} (p : A -> bool) (l l' : list A) :
  Forall2 (fun e e' => p e' = p e) l l' ->
  List.length (List.filter p l') = List.length (List.filter p l).
Proof.
  induction 1 as [|e e' l l' He _ IH]; [reflexivity|].
  simpl. rewrite He. destruct (p e); simpl; congruence.
Qed.

Lemma filter_length_map_le {A} (p : A -> bool) (l l' : list A) :
  Forall2 (fun e e' => p e = true -> p e' = true) l l' ->
  (List.length (List.filter p l) <= List.length (List.filter p l'))%nat.
Proof.
  induction 1 as [|e e' l l' He _ IH]; [reflexivity|].
  simpl. destruct (p e) eqn:E.
  - rewrite (He eq_refl). simpl. lia.
  - destruct (p e'); simpl; lia.
Qed.

Lemma score_mono ns es es' ints extra now cid :
  Forall2 kept_strong es es' ->
  calculateContactInfluence
    {| nodes := ns; edges := es; interactions := ints |} now cid
  <= calculateContactInfluence
       {| nodes := ns; edges := es'; interactions := (ints ++ extra)%list |}
       now cid.
Proof.
  intros He. unfold calculateContactInfluence. simpl nodes.
  destruct (find_node ns cid) as [c|]; [|lia].
  destruct (negb (NodeType_eqb (n_type c) contact)); [lia|].
  apply Z.min_le_compat_r, round_mono. unfold raw_score. simpl edges.
  simpl interactions.
  assert (Hdeal : zlen (dealEdges es' cid) = zlen (dealEdges es cid)).
  { unfold zlen, dealEdges. f_equal. apply filter_length_map_eq.
    eapply Forall2_impl; [exact He|]. intros e e' [(_ & Hs & _ & Hty & _) _].
    simpl. now rewrite Hs, Hty. }
  assert (Hconn : connections es' cid = connections es cid).
  { unfold connections. f_equal. apply filter_length_map_eq.
    eapply Forall2_impl; [exact He|]. intros e e' [Hse _].
    now apply touches_same_edge. }
  assert (Hstrong : zlen (strongRelationships es cid)
                    <= zlen (strongRelationships es' cid)).
  { unfold zlen, strongRelationships. apply inj_le.
    apply filter_length_map_le.
    eapply Forall2_impl; [exact He|]. intros e e' [Hse Hst]. simpl.
    rewrite (touches_same_edge cid e e' Hse). intros H.
    apply andb_true_iff in H. destruct H as [-> H]. simpl. now apply Hst. }
  assert (Hrec : zlen (recentInteractions ints now cid)
                 <= zlen (recentInteractions (ints ++ extra) now cid)).
  { unfold zlen, recentInteractions. rewrite List.filter_app, List.length_app.
    lia. }
  rewrite Hdeal, Hconn.
  set (r := role_points (n_title c)).
  set (d := Z.min (zlen (dealEdges es cid) * 10) 20).
  set (q := Qmin (inject_Z (connections es cid) * (3 # 2)) 15).
  assert (H1 : Z.min (zlen (strongRelationships es cid) * 3) 20
               <= Z.min (zlen (strongRelationships es' cid) * 3) 20) by lia.
  assert (H2 : Z.min (zlen (recentInteractions ints now cid) * 2) 15
               <= Z.min (zlen (recentInteractions (ints ++ extra) now cid) * 2)
                    15) by lia.
  rewrite Zle_Qle in H1, H2. lra.
Qed.

Lemma update_first_shape now cid ns :
  same_shape ns (update_first (is_contact_with_id cid) (bump_metadata now) ns).
Proof.
  induction ns as [|n ns IH]; simpl; [constructor|].
  destruct (is_contact_with_id cid n).
  - constructor; [|apply same_shape_refl].
    unfold bump_metadata. destruct (n_metadata n); auto.
  - constructor; auto.
Qed.

Lemma kept_strong_refl es : Forall2 kept_strong es es.
Proof.
  induction es; constructor; auto.
  unfold kept_strong, same_edge. tauto.
Qed.

Lemma kept_strong_update es now cid ty md :
  Forall2 kept_strong es
    (List.map (fun e => if touches cid e
                        then strengthen now (increase ty md) e else e) es).
Proof.
  induction es as [|e es IH]; simpl; constructor; [|exact IH].
  destruct (touches cid e).
  - split; [apply strengthen_same_edge|].
    unfold strengthen. simpl. intros H. apply Qle_bool_iff in H.
    apply Qle_bool_iff. pose proof (increase_pos ty md).
    apply Q.min_glb; lra.
  - unfold kept_strong, same_edge. tauto.
Qed.

(** X9. [trackInteraction] appends one interaction of the given contact
    and type dated now, also when it then throws, and lowers the
    influence score of no id: at the same clock the score of every id
    after the call is at least its score before.  When it does not throw
    it leaves every stored score equal to what
    [calculateContactInfluence] gives on the store it leaves. *)
Theorem trackInteraction_scores
  (g : GraphService) (now : Z) (cid ty : string) (md : Metadata) :
  let g' := fst (trackInteraction g now cid ty md) in
  (exists i, interactions g' = (interactions g ++ [i])%list /\
             i_contactId i = cid /\ i_type i = ty /\ i_date i = Some now) /\
  (forall c, calculateContactInfluence g now c
             <= calculateContactInfluence g' now c) /\
  (snd (trackInteraction g now cid ty md) <> Thrown ->
   forall n, In n (nodes g') -> n_type n = contact ->
             influenceScore n = calculateContactInfluence g' now (n_id n)).
Proof.
  cbv zeta.
  set (i := {| i_id := "int_" ++ pretty now; i_contactId := cid;
               i_type := ty; i_date := Some now; i_duration := duration md;
               i_dealId := md_dealId md;
               i_completed := not_false (completed md) |}).
  assert (Hfresh : forall g0 n,
             In n (nodes (calculateInfluenceScores g0 now)) ->
             n_type n = contact ->
             influenceScore n
             = calculateContactInfluence (calculateInfluenceScores g0 now) now
                 (n_id n)).
  { intros g0 n Hn Hc.
    destruct (influence_score_nodes g0 now) as (_ & Hmap & Hcalc).
    rewrite Hmap in Hn. apply in_map_iff in Hn. destruct Hn as [m [<- _]].
    rewrite Hcalc. unfold rescore in *.
    destruct (NodeType_eqb (n_type m) contact) eqn:E; [reflexivity|].
    destruct (n_type m); simpl in *; congruence. }
  assert (Hmono : forall ns',
             same_shape (nodes g) ns' ->
             forall c,
               calculateContactInfluence g now c
               <= calculateContactInfluence
                    (calculateInfluenceScores
                       (updateRelationshipStrength
                          {| nodes := ns'; edges := edges g;
                             interactions := (interactions g ++ [i])%list |}
                          now cid ty md) now) now c).
  { intros ns' Hs c.
    rewrite (proj2 (proj2 (influence_score_nodes _ now))).
    unfold updateRelationshipStrength. simpl.
    rewrite <- (calculateContactInfluence_shape (nodes g) ns' _ _ now c Hs).
    destruct g as [ns es ints]. simpl.
    apply score_mono, kept_strong_update. }
  unfold trackInteraction. fold i. simpl nodes.
  destruct (List.find (is_contact_with_id cid) (nodes g)) as [c0|];
    [destruct (n_metadata c0)|]; simpl fst; simpl snd.
  - split; [exists i; auto|]. split.
    + apply Hmono, update_first_shape.
    + intros _. apply Hfresh.
  - split; [exists i; auto|]. split.
    + intros c. destruct g as [ns es ints]. simpl.
      apply score_mono, kept_strong_refl.
    + intros H. now elim H.
  - split; [exists i; auto|]. split.
    + apply Hmono, same_shape_refl.
    + intros _. apply Hfresh.
Qed.

(** An email logged for contact_3 of the fixture store raises its score
    from 18 to 20 and lowers no other. *)
Lemma trackInteraction_scores_witness :
  let g := loadMockGraphData example_now in
  let g' := fst (trackInteraction g example_now "contact_3" "email"
                   {| duration := None; md_dealId := None;
                      completed := None |}) in
  calculateContactInfluence g example_now "contact_3" = 18 /\
  calculateContactInfluence g' example_now "contact_3" = 20 /\
  forall n, In n (nodes g') -> n_type n = contact ->
            influenceScore n = calculateContactInfluence g' example_now (n_id n).
Proof.
  cbv zeta. split; [vm_compute; reflexivity|].
  split; [vm_compute; reflexivity|].
  apply (proj2 (proj2 (trackInteraction_scores (loadMockGraphData example_now)
                         example_now "contact_3" "email"
                         {| duration := None; md_dealId := None;
                            completed := None |}))).
  vm_compute. discriminate.
Defined.

Lemma Qmin_step (s inc k : Q) :
  (0 <= inc)%Q ->
  (Qmin (Qmin (s + k * inc) 1 + inc) 1 == Qmin (s + (k + 1) * inc) 1)%Q.
Proof.
  intros Hi.
  destruct (Q.min_spec (s + k * inc) 1) as [[H1 ->] | [H1 ->]].
  - assert (E : (s + k * inc + inc == s + (k + 1) * inc)%Q) by ring.
    now rewrite E.
  - rewrite Q.min_r by lra. rewrite Q.min_r; [reflexivity|].
    assert (E : (s + (k + 1) * inc == s + k * inc + inc)%Q) by ring.
    rewrite E. lra.
Qed.

(** In exact arithmetic, [n] calls with the same arguments add [n] times
    the increase, clamped at 1. *)
Lemma repeat_update_exact
  (g : GraphService) (now : Z) (cid ty : string) (md : Metadata) (n : nat) :
  Forall (fun e => touches cid e = true -> (strength e <= 1)%Q) (edges g) ->
  Forall2 (fun e e' =>
             if touches cid e
             then same_edge e e' /\
                  (strength e'
                   == Qmin (strength e
                            + inject_Z (Z.of_nat n) * increase ty md) 1)%Q
             else e' = e)
    (edges g) (edges (repeat_update n g now cid ty md)).
Proof.
  intros Hle. pose proof (increase_pos ty md) as Hinc.
  induction n as [|n IH].
  - simpl repeat_update. induction Hle as [|e l He _ IHl]; constructor; auto.
    destruct (touches cid e) eqn:Et; [|reflexivity].
    specialize (He eq_refl).
    assert (E : (strength e + inject_Z (Z.of_nat 0) * increase ty md
                 == strength e)%Q) by (simpl; ring).
    split; [unfold same_edge; tauto|].
    rewrite E. symmetry. now apply Q.min_l.
  - simpl repeat_update. unfold updateRelationshipStrength at 1. simpl edges.
    revert IH. generalize (edges (repeat_update n g now cid ty md)).
    clear Hle. induction (edges g) as [|e l IHl]; intros l' IH;
      inversion IH as [|x y lx ly Hxy Hrest]; subst; simpl; constructor;
      [|now apply IHl].
    destruct (touches cid e) eqn:Et.
    + destruct Hxy as (Hse & Hs).
      rewrite (touches_same_edge cid e y Hse), Et.
      split.
      * destruct Hse as (H1 & H2 & H3 & H4 & H5).
        unfold same_edge, strengthen. simpl. tauto.
      * unfold strengthen. simpl strength. rewrite Hs.
        rewrite Qmin_step by lra.
        rewrite Nat2Z.inj_succ. unfold Z.succ. rewrite inject_Z_plus.
        reflexivity.
    + subst y. now rewrite Et.
Qed.

Lemma Forall2_refine {A B} (P : A -> Prop) (R R' : A -> B -> Prop) l l' :
  (forall x y, P x -> R x y -> R' x y) ->
  Forall P l -> Forall2 R l l' -> Forall2 R' l l'.
Proof.
  intros H HP HR. revert HP.
  induction HR as [|x y l l' Hxy _ IH]; intros HP; constructor;
    inversion HP; subst; auto.
Qed.

(** X10. Repeating the same interaction never lowers a strength and
    drives it to 1: after [n] calls of [updateRelationshipStrength] with
    the same arguments, every non-structural edge touching the contact
    that started at a strength [s] in [[0, 1]] is the same edge with a
    strength between [s] and 1, and of exactly 1 once
    [(n - 1) * increase >= 1 - s]; every other edge is as it was.  The
    bound asks for one call more than the exact sum needs, so that it also
    holds of the rounded sums of the engine. *)
Theorem updateRelationshipStrength_saturates
  (g : GraphService) (now : Z) (cid ty : string) (md : Metadata) (n : nat) :
  Forall (fun e => touches cid e = true -> (0 <= strength e <= 1)%Q)
    (edges g) ->
  Forall2 (fun e e' =>
             if touches cid e
             then same_edge e e' /\
                  (strength e <= strength e' <= 1)%Q /\
                  ((1 - strength e
                    <= inject_Z (Z.of_nat n - 1) * increase ty md)%Q ->
                   (strength e' == 1)%Q)
             else e' = e)
    (edges g) (edges (repeat_update n g now cid ty md)).
Proof.
  intros Hunit. pose proof (increase_pos ty md) as Hinc.
  assert (Hle : Forall (fun e => touches cid e = true -> (strength e <= 1)%Q)
                  (edges g)).
  { eapply List.Forall_impl; [|exact Hunit]. intros e H Ht.
    exact (proj2 (H Ht)). }
  pose proof (repeat_update_exact g now cid ty md n Hle) as Hexact.
  refine (Forall2_refine _ _ _ _ _ _ Hunit Hexact).
  intros e e' Hs. simpl. destruct (touches cid e); [|auto].
  specialize (Hs eq_refl). intros [Hse He].
  set (N := inject_Z (Z.of_nat n)) in *.
  assert (HN : (0 <= N)%Q).
  { subst N. change 0%Q with (inject_Z 0). rewrite <- Zle_Qle. lia. }
  assert (HP : (0 <= N * increase ty md)%Q)
    by (apply Qmult_le_0_compat; [exact HN | lra]).
  assert (Hm : (inject_Z (Z.of_nat n - 1) * increase ty md
                == N * increase ty md - increase ty md)%Q).
  { assert (H1 : (inject_Z (Z.of_nat n - 1) == N - 1)%Q).
    { subst N. unfold Z.sub. rewrite inject_Z_plus. reflexivity. }
    rewrite H1. ring. }
  split; [exact Hse|]. split; [split|].
  - rewrite He. apply Q.min_glb; lra.
  - rewrite He. apply Q.le_min_r.
  - intros H. rewrite He. apply Q.min_r. lra.
Qed.

(** Twenty-one completed meetings bring the suggested edge of the fixture
    store from 0.5 to 1. *)
Lemma updateRelationshipStrength_saturates_witness :
  let md := {| duration := None; md_dealId := None;
               completed := Some true |} in
  List.map (fun e => (e_id e, Qeq_bool (strength e) 1))
    (List.filter (fun e => String.eqb (e_id e) "edge_15")
       (edges (repeat_update 21 (loadMockGraphData example_now) example_now
                 "contact_5" "meeting" md)))
  = [("edge_15", true)] /\
  Forall2 (fun e e' =>
             if touches "contact_5" e
             then same_edge e e' /\
                  (strength e <= strength e' <= 1)%Q /\
                  ((1 - strength e
                    <= inject_Z (Z.of_nat 21 - 1) * increase "meeting" md)%Q ->
                   (strength e' == 1)%Q)
             else e' = e)
    (edges (loadMockGraphData example_now))
    (edges (repeat_update 21 (loadMockGraphData example_now) example_now
              "contact_5" "meeting" md)).
Proof.
  cbv zeta. split; [vm_compute; reflexivity|].
  apply (updateRelationshipStrength_saturates (loadMockGraphData example_now)).
  simpl edges. unfold Mock.mock_edges.
  repeat (constructor; [intros _; simpl; split; discriminate|]). constructor.
Defined.

(** ** Path search: soundness, completeness and minimality *)

Section Shortest.

Variable es : list Edge.

Lemma hops_snoc (p : list string) x : hops (p ++ [x]) = hops p + 1.
Proof. unfold hops, zlen. rewrite List.length_app. simpl. lia. Qed.

Lemma adjacent_neighbors c nb : adjacent es c nb -> In nb (neighbors es c).
Proof.
  intros [e (Hin & Ht & Ho)]. unfold neighbors. apply in_map_iff.
  exists e. split; [exact Ho|]. apply List.filter_In. auto.
Qed.

Lemma connects_chain a b p :
  connects es a b p -> exists l, p = a :: l /\ chain es a l b.
Proof.
  intros (Hh & Hl & Hne & Hw). destruct p as [|x l]; [contradiction|].
  simpl in Hh. inversion Hh; subst x. exists l. split; [reflexivity|].
  clear Hh Hne. revert a Hl Hw.
  induction l as [|y l IH]; intros a Hl Hw; simpl in *; [exact Hl|].
  destruct Hw as [Ha Hw]. split; [exact Ha|].
  apply IH; [|exact Hw].
  destruct l; [exact Hl|]. rewrite <- Hl. apply last_default. discriminate.
Qed.

Lemma chain_connects a c t p l :
  connects es a c p -> chain es c l t -> connects es a t (p ++ l).
Proof.
  revert c p. induction l as [|x l IH]; intros c p Hp Hc; simpl in Hc.
  - subst t. now rewrite List.app_nil_r.
  - destruct Hc as [Ha Hc].
    replace (p ++ x :: l)%list with ((p ++ [x]) ++ l)%list
      by (rewrite <- List.app_assoc; reflexivity).
    apply IH with x; [|exact Hc]. now apply connects_snoc with c.
Qed.

Lemma chain_split c l1 x l2 t :
  chain es c (l1 ++ x :: l2) t -> chain es x l2 t.
Proof.
  revert c. induction l1 as [|y l1 IH]; intros c H; simpl in H.
  - tauto.
  - apply IH with y. tauto.
Qed.

Lemma chain_ends c l t :
  chain es c l t ->
  forall x, In x l ->
            exists e, In e es /\ (source e = x \/ target e = x).
Proof.
  revert c. induction l as [|y l IH]; intros c H x Hx; [contradiction|].
  simpl in H. destruct H as [[e (He & Ht & Ho)] Hc].
  destruct Hx as [<- | Hx]; [|eapply IH; eassumption].
  exists e. split; [exact He|]. unfold other_end in Ho.
  unfold touches in Ht. apply andb_true_iff in Ht. destruct Ht as [Ht _].
  destruct (String.eqb_spec (source e) c) as [Es | Es]; [now right|].
  now left.
Qed.

Lemma chain_start c x l t :
  chain es c (x :: l) t ->
  exists e, In e es /\ (source e = c \/ target e = c).
Proof.
  intros [[e (He & Ht & _)] _]. exists e. split; [exact He|].
  unfold touches in Ht. apply andb_true_iff in Ht. destruct Ht as [Ht _].
  apply orb_true_iff in Ht. rewrite !String.eqb_eq in Ht. exact Ht.
Qed.

Lemma last_occurrence (x : string) (l : list string) :
  In x l -> exists l1 l2, l = (l1 ++ x :: l2)%list /\ ~ In x l2.
Proof.
  induction l as [|y l IH]; [contradiction|]. intros Hin.
  destruct (in_dec String.string_dec x l) as [Hl | Hl].
  - destruct (IH Hl) as (l1 & l2 & -> & Hn). exists (y :: l1), l2. auto.
  - destruct Hin as [-> | Hin]; [|contradiction]. exists [], l. auto.
Qed.

Lemma levelled_head c p rest :
  levelled ((c, p) :: rest) ->
  forall entry, In entry rest -> hops p <= hops (snd entry).
Proof.
  intros (k & Q1 & Q2 & Hq & H1 & H2) entry Hin.
  rewrite List.Forall_forall in H1, H2.
  destruct Q1 as [|h Q1]; simpl in Hq.
  - subst Q2. pose proof (H2 _ (or_introl eq_refl)) as Hh.
    pose proof (H2 entry (or_intror Hin)) as He. simpl in Hh. lia.
  - inversion Hq; subst h rest.
    pose proof (H1 _ (or_introl eq_refl)) as Hh. simpl in Hh.
    apply List.in_app_or in Hin. destruct Hin as [Hin | Hin].
    + pose proof (H1 entry (or_intror Hin)). lia.
    + pose proof (H2 entry Hin). lia.
Qed.

Lemma levelled_tail h rest : levelled (h :: rest) -> levelled rest.
Proof.
  intros (k & Q1 & Q2 & Hq & H1 & H2).
  destruct Q1 as [|h1 Q1]; simpl in Hq.
  - subst Q2. inversion H2 as [|x l Hx Hl]; subst x l.
    exists (k + 1), rest, []. split.
    + now rewrite List.app_nil_r.
    + split; [assumption | constructor].
  - inversion Hq; subst h1 rest. inversion H1 as [|x l Hx Hl]; subst x l.
    exists k, Q1, Q2. auto.
Qed.

Lemma levelled_push c p rest pushed :
  levelled ((c, p) :: rest) ->
  Forall (fun entry => hops (snd entry) = hops p + 1) pushed ->
  levelled (rest ++ pushed).
Proof.
  intros (k & Q1 & Q2 & Hq & H1 & H2) Hp.
  destruct Q1 as [|h1 Q1]; simpl in Hq.
  - subst Q2. inversion H2 as [|x l Hx Hl]; subst x l. simpl in Hx.
    exists (k + 1), rest, pushed. split; [reflexivity|].
    split; [assumption|]. eapply Forall_impl; [exact Hp|].
    simpl. intros entry He. lia.
  - inversion Hq; subst h1 rest. inversion H1 as [|x l Hx Hl]; subst x l.
    simpl in Hx. exists k, Q1, (Q2 ++ pushed)%list. split.
    + now rewrite List.app_assoc.
    + split; [assumption|]. apply Forall_app. split; [exact H2|].
      eapply Forall_impl; [exact Hp|]. simpl. intros entry He. lia.
Qed.

Lemma pushed_entries (A c : string) (p : list string) (V : gset string) :
  connects es A c p ->
  let pushed :=
    List.map (fun nb => (nb, (p ++ [nb])%list))
      (List.filter (fun nb => negb (bool_decide (nb ∈ V)))
         (neighbors es c)) in
  Forall (fun entry => hops (snd entry) = hops p + 1) pushed /\
  Forall (fun entry => connects es A (fst entry) (snd entry)) pushed.
Proof.
  intros Hp pushed. split; apply List.Forall_forall; intros [nb q] Hin;
    apply in_map_iff in Hin; destruct Hin as [nb' [Heq Hin]];
    inversion Heq; subst nb' q; simpl.
  - apply hops_snoc.
  - apply List.filter_In in Hin. destruct Hin as [Hin _].
    apply connects_snoc with c; [exact Hp|]. now apply neighbors_adjacent.
Qed.

Lemma findPath_loop_complete (A B : string) (maxDepth d : Z) :
  d <= maxDepth ->
  forall fuel (V : gset string) queue,
    levelled queue ->
    Forall (fun entry => connects es A (fst entry) (snd entry)) queue ->
    on_track es B d V queue ->
    findPath_loop fuel es B maxDepth V queue = OutOfFuel \/
    exists ids,
      findPath_loop fuel es B maxDepth V queue = Returned (Some ids) /\
      connects es A B ids /\ hops ids <= d.
Proof.
  intros Hd. induction fuel as [|fuel IH]; intros V queue Hlev Hval Htrack;
    [now left|].
  destruct queue as [|[c' p'] rest].
  { destruct Htrack as (c & path & l & [] & _). }
  destruct Htrack as (c & path & l & Hin & Hch & Hlen & HcV & HlV).
  inversion Hval as [|x q Hp' Hrest]; subst x q. simpl in Hp'.
  assert (Hhops : hops p' <= hops path).
  { destruct Hin as [Heq | Hin]; [inversion Heq; lia|].
    apply (levelled_head c' p' rest Hlev (c, path) Hin). }
  assert (Hl0 : 0 <= zlen l) by (unfold zlen; lia).
  simpl. destruct (String.eqb_spec c' B) as [-> | HcB].
  { right. exists p'. split; [reflexivity|]. split; [exact Hp'|]. lia. }
  destruct (pushed_entries A c' p' ({[c']} ∪ V) Hp') as [Hph Hpv].
  destruct (in_dec String.string_dec c' (c :: l)) as [Hon | Hoff].
  - (* the dequeued id lies on the way to the target *)
    assert (Hsuffix : exists l2, chain es c' l2 B /\ ~ In c' l2 /\
                                 zlen l2 <= zlen l /\
                                 Forall (fun v => v ∉ V) l2).
    { destruct (in_dec String.string_dec c' l) as [Hl | Hl].
      - destruct (last_occurrence c' l Hl) as (l1 & l2 & -> & Hn).
        exists l2. split; [eapply chain_split; exact Hch|].
        split; [exact Hn|]. split.
        + unfold zlen. rewrite List.length_app. simpl. lia.
        + apply Forall_app in HlV. destruct HlV as [_ HlV].
          now inversion HlV.
      - destruct Hon as [-> | Hon]; [|contradiction].
        exists l. repeat split; auto; lia. }
    destruct Hsuffix as (l2 & Hch2 & Hn2 & Hlen2 & HV2).
    assert (Hc'V : c' ∉ V).
    { destruct Hon as [<- | Hon]; [exact HcV|].
      rewrite List.Forall_forall in HlV. now apply HlV. }
    destruct l2 as [|c2 l3]; [simpl in Hch2; contradiction|].
    simpl in Hch2. destruct Hch2 as [Hadj Hch3].
    assert (Hz : zlen (c2 :: l3) = zlen l3 + 1)
      by (unfold zlen; simpl List.length; lia).
    assert (Hl3 : 0 <= zlen l3) by (unfold zlen; lia).
    assert (Hdepth : (zlen p' >? maxDepth) = false).
    { rewrite Z.gtb_ltb. apply Z.ltb_ge. unfold hops in *. lia. }
    rewrite Hdepth. rewrite bool_decide_eq_false_2 by exact Hc'V.
    apply IH.
    + eapply levelled_push; eassumption.
    + apply Forall_app. split; assumption.
    + inversion HV2 as [|x q Hc2V Hl3V]; subst x q.
      assert (Hc2 : c2 ∉ ({[c']} ∪ V : gset string)).
      { intros H. apply elem_of_union in H. destruct H as [H | H];
          [|contradiction].
        apply elem_of_singleton in H. subst c2. apply Hn2. now left. }
      exists c2, (p' ++ [c2])%list, l3. split; [|split; [|split; [|split]]].
      * apply List.in_or_app. right. apply in_map_iff. exists c2.
        split; [reflexivity|]. apply List.filter_In. split.
        -- now apply adjacent_neighbors.
        -- now rewrite bool_decide_eq_false_2 by exact Hc2.
      * exact Hch3.
      * rewrite hops_snoc. lia.
      * exact Hc2.
      * apply List.Forall_forall. intros v Hv H.
        apply elem_of_union in H. destruct H as [H | H].
        -- apply elem_of_singleton in H. subst v. apply Hn2. now right.
        -- rewrite List.Forall_forall in Hl3V. now apply (Hl3V v Hv).
  - (* the dequeued id is off the way: the entry on track stays queued *)
    assert (Hin' : In (c, path) rest).
    { destruct Hin as [Heq | Hin]; [|exact Hin].
      inversion Heq; subst. elim Hoff. now left. }
    assert (Hkeep : on_track es B d V rest).
    { exists c, path, l. auto. }
    destruct (zlen p' >? maxDepth).
    { apply IH; [eapply levelled_tail; eassumption | assumption | exact Hkeep]. }
    case_bool_decide.
    { apply IH; [eapply levelled_tail; eassumption | assumption | exact Hkeep]. }
    apply IH.
    + eapply levelled_push; eassumption.
    + apply Forall_app. split; assumption.
    + exists c, path, l. split; [apply List.in_or_app; now left|].
      split; [exact Hch|]. split; [exact Hlen|]. split.
      * intros Hc. apply elem_of_union in Hc. destruct Hc as [Hc | Hc];
          [|contradiction].
        apply elem_of_singleton in Hc. subst c. apply Hoff. now left.
      * apply List.Forall_forall. intros v Hv Hc.
        apply elem_of_union in Hc. destruct Hc as [Hc | Hc].
        -- apply elem_of_singleton in Hc. subst v. apply Hoff. now right.
        -- rewrite List.Forall_forall in HlV. now apply (HlV v Hv).
Qed.

End Shortest.

Lemma find_node_all_nodes (g : GraphService) (ids : list string) :
  Forall (fun x => In x (List.map n_id (nodes g))) ids ->
  all_nodes g (List.map (find_node (nodes g)) ids).
Proof.
  unfold all_nodes. induction 1 as [|x l Hx _ IH]; simpl; constructor; auto.
  destruct (find_node_Some _ _ Hx) as [n (Hf & _ & Hn)]. eauto.
Qed.

(** X11. [findPath] ends on every store and raises nothing.  A path it
    returns lists the nodes of a walk along non-structural edges that
    starts at the source id and ends at the target id; between two
    different ids the walk has at least one and at most [maxDepth] hops,
    and when every edge of the store ends at nodes of the store no element
    of the path is undefined. *)
Theorem findPath_sound (g : GraphService) (A B : string) (maxDepth : Z) :
  findPath g A B maxDepth <> OutOfFuel /\
  findPath g A B maxDepth <> Thrown /\
  forall found,
    findPath g A B maxDepth = Returned (Some found) ->
    exists ids,
      found = List.map (find_node (nodes g)) ids /\
      connects (edges g) A B ids /\
      (A <> B -> 1 <= hops ids <= maxDepth) /\
      (A <> B -> edges_closed (nodes g, edges g) -> all_nodes g found).
Proof.
  unfold findPath.
  destruct (findPath_loop (findPath_fuel (edges g)) (edges g) B maxDepth
              ∅ [(A, [A])]) as [[path|] | |] eqn:E.
  - split; [discriminate|]. split; [discriminate|].
    intros found Hf. inversion Hf; subst found. clear Hf.
    apply (findPath_loop_sound (edges g) A B maxDepth) in E.
    2:{ constructor; [|constructor]. split; simpl;
        [apply connects_single | now left]. }
    destruct E as [Hc Hb]. simpl in Hc, Hb.
    exists path. split; [reflexivity|]. split; [exact Hc|].
    destruct (connects_chain _ _ _ _ Hc) as (l & -> & Hch).
    split.
    + intros Hab. destruct l as [|x l]; [simpl in Hch; contradiction|].
      destruct Hb as [Hb | Hb]; [discriminate|].
      unfold hops, zlen in *. simpl List.length in *. lia.
    + intros Hab Hclosed. apply find_node_all_nodes.
      assert (Hend : forall x e, In e (edges g) ->
                                 source e = x \/ target e = x ->
                                 In x (List.map n_id (nodes g))).
      { intros x e He Hx. destruct (Hclosed e He) as [Hs Ht].
        simpl in Hs, Ht. destruct Hx as [<- | <-]; assumption. }
      destruct l as [|x l]; [simpl in Hch; contradiction|].
      constructor.
      * destruct (chain_start _ _ _ _ _ Hch) as [e [He Hx]]. eauto.
      * apply List.Forall_forall. intros y Hy.
        destruct (chain_ends _ _ _ _ Hch y Hy) as [e [He Hx]]. eauto.
  - repeat split; try discriminate.
  - exfalso. exact (findPath_loop_not_thrown _ _ _ _ _ _ E).
  - exfalso. revert E. apply findPath_loop_terminates.
    unfold findPath_fuel. simpl. lia.
Qed.

(** On the fixture store the path found from contact_2 to contact_5 has
    two hops and no undefined element. *)
Lemma findPath_sound_witness :
  let g := {| nodes := Mock.mock_nodes; edges := Mock.mock_edges;
              interactions := Mock.mock_interactions |} in
  exists ids,
    findPath g "contact_2" "contact_5" default_maxDepth
    = Returned (Some (List.map (find_node (nodes g)) ids)) /\
    connects (edges g) "contact_2" "contact_5" ids /\
    1 <= hops ids <= default_maxDepth /\
    all_nodes g (List.map (find_node (nodes g)) ids).
Proof.
  cbv zeta.
  set (g := {| nodes := Mock.mock_nodes; edges := Mock.mock_edges;
               interactions := Mock.mock_interactions |}).
  destruct (findPath_sound g "contact_2" "contact_5" default_maxDepth)
    as (_ & _ & H).
  destruct (findPath g "contact_2" "contact_5" default_maxDepth)
    as [[found|] | |] eqn:E; try (vm_compute in E; discriminate E).
  destruct (H found eq_refl) as (ids & -> & Hc & Hh & Hn).
  exists ids. split; [reflexivity|]. split; [exact Hc|].
  split; [apply Hh; discriminate|].
  apply Hn; [discriminate | exact mock_edges_closed].
Defined.

(** X12. [findPath] is complete and finds a shortest path: whenever some
    walk along non-structural edges joins the source to the target in at
    most [maxDepth] hops, a path is returned, and it has no more hops than
    that walk. *)
Theorem findPath_shortest (g : GraphService) (A B : string) (maxDepth : Z)
  (p : list string) :
  connects (edges g) A B p -> hops p <= maxDepth ->
  exists ids,
    findPath g A B maxDepth
    = Returned (Some (List.map (find_node (nodes g)) ids)) /\
    connects (edges g) A B ids /\ hops ids <= hops p.
Proof.
  intros Hp Hd. unfold findPath.
  destruct (connects_chain _ _ _ _ Hp) as (l & -> & Hch).
  destruct (findPath_loop_complete (edges g) A B maxDepth (hops (A :: l)) Hd
              (findPath_fuel (edges g)) ∅ [(A, [A])])
    as [Hout | (ids & Hr & Hc & Hh)].
  - exists 0, [(A, [A])], []. repeat split; repeat constructor.
  - constructor; [|constructor]. simpl. apply connects_single.
  - exists A, [A], l. split; [now left|]. split; [exact Hch|].
    split; [unfold hops, zlen; simpl List.length; lia|].
    split; [set_solver|]. apply List.Forall_forall. intros v _. set_solver.
  - exfalso. revert Hout. apply findPath_loop_terminates.
    unfold findPath_fuel. simpl. lia.
  - exists ids. rewrite Hr. auto.
Qed.

(** contact_4 and contact_5 of the fixture store are three hops apart
    through contact_1; the walk through contact_3 and the deal has four,
    and the path found has at most three. *)
Lemma findPath_shortest_witness :
  let g := {| nodes := Mock.mock_nodes; edges := Mock.mock_edges;
              interactions := Mock.mock_interactions |} in
  exists ids,
    findPath g "contact_4" "contact_5" default_maxDepth
    = Returned (Some (List.map (find_node (nodes g)) ids)) /\
    connects (edges g) "contact_4" "contact_5" ids /\ hops ids <= 2.
Proof.
  cbv zeta.
  apply (findPath_shortest
           {| nodes := Mock.mock_nodes; edges := Mock.mock_edges;
              interactions := Mock.mock_interactions |}
           "contact_4" "contact_5" default_maxDepth
           ["contact_4"; "contact_1"; "contact_5"]).
  - apply (chain_connects _ "contact_4" "contact_4" "contact_5"
             ["contact_4"] ["contact_1"; "contact_5"]).
    + apply connects_single.
    + simpl. repeat split; apply neighbors_adjacent; vm_compute; tauto.
  - vm_compute. discriminate.
Defined.

(** ** Org chart: keys, reporting lines and failures *)

Lemma is_org_type_cases e :
  is_org_type e = true ->
  (e_type e = "reports_to" /\ child_of e = source e /\
   manager_of e = target e) \/
  (e_type e = "manages" /\ String.eqb (e_type e) "reports_to" = false /\
   child_of e = target e /\ manager_of e = source e).
Proof.
  unfold is_org_type, child_of, manager_of. intros H.
  destruct (String.eqb_spec (e_type e) "reports_to") as [E | E]; [auto|].
  right. simpl in H. apply String.eqb_eq in H. auto.
Qed.

Lemma insert_pointwise (f : HEntry -> HEntry) i x (h : gmap string HEntry) :
  h !! i = Some x ->
  forall k, <[i := f x]> h !! k
            = (fun n => if String.eqb k i then f n else n) <$> h !! k.
Proof.
  intros Hi k. rewrite lookup_insert. case_decide as E.
  - subst k. rewrite Hi. simpl. now rewrite String.eqb_refl.
  - destruct (h !! k); simpl; [|reflexivity].
    destruct (String.eqb_spec k i) as [Eq | Eq]; [congruence | reflexivity].
Qed.

Ltac entry_eq :=
  unfold linked, set_reportsTo, push_manages; simpl;
  repeat match goal with
         | |- context [String.eqb ?a ?b] =>
             destruct (String.eqb_spec a b); subst; simpl
         end;
  repeat match goal with
         | H : ?x = Some _, H' : ?x = Some _ |- _ =>
             rewrite H in H'; inversion H'; subst; clear H'
         end;
  simpl in *;
  repeat match goal with
         | H : id_in _ _ = _ |- _ => rewrite H
         end;
  simpl; try reflexivity; try congruence.

Lemma org_step_spec h e h' :
  is_org_type e = true -> org_step h e = Returned h' ->
  is_Some (h !! child_of e) /\ is_Some (h !! manager_of e) /\
  forall k, h' !! k = linked (child_of e) (manager_of e) k <$> (h !! k).
Proof.
  intros Ht. unfold org_step.
  destruct (is_org_type_cases e Ht) as [(Ety & -> & ->) | (Ety & En & -> & ->)].
  - rewrite Ety. simpl String.eqb. cbv iota. clear Ety Ht.
    generalize (source e), (target e). intros s t.
    destruct (h !! s) as [hs|] eqn:Hs; [|discriminate].
    pose proof (insert_pointwise (set_reportsTo t) _ _ _ Hs) as P1.
    destruct (<[s := set_reportsTo t hs]> h !! t)
      as [ht|] eqn:Htg; [|discriminate].
    pose proof (P1 t) as Pt. rewrite Htg in Pt.
    destruct (h !! t) as [ht0|] eqn:Ht0; [|discriminate].
    simpl in Pt. injection Pt as Eht.
    assert (Hman : manages ht = manages ht0).
    { rewrite Eht. now destruct (String.eqb t s). }
    rewrite Hman. intros Hr. split; [eauto|]. split; [eauto|]. intros k.
    destruct (id_in s (manages ht0)) eqn:Ei;
      inversion Hr; subst h'; clear Hr.
    + rewrite P1. destruct (h !! k) as [hn|] eqn:Hk; simpl; [|reflexivity].
      f_equal. destruct hn. entry_eq.
    + rewrite (insert_pointwise (push_manages s) _ _ _ Htg), P1.
      destruct (h !! k) as [hn|] eqn:Hk; simpl; [|reflexivity].
      f_equal. destruct hn. entry_eq.
  - rewrite En, Ety. simpl String.eqb. cbv iota. clear En Ety Ht.
    generalize (source e), (target e). intros s t.
    destruct (h !! s) as [hs|] eqn:Hs; [|discriminate].
    destruct (id_in t (manages hs)) eqn:Ei.
    + destruct (h !! t) as [ht|] eqn:Htg; [|discriminate].
      intros Hr. split; [eauto|]. split; [eauto|]. intros k.
      inversion Hr; subst h'; clear Hr.
      rewrite (insert_pointwise (set_reportsTo s) _ _ _ Htg).
      destruct (h !! k) as [hn|] eqn:Hk; simpl; [|reflexivity].
      f_equal. destruct hn. entry_eq.
    + pose proof (insert_pointwise (push_manages t) _ _ _ Hs) as P1.
      destruct (<[s := push_manages t hs]> h !! t)
        as [ht|] eqn:Htg; [|discriminate].
      pose proof (P1 t) as Pt. rewrite Htg in Pt.
      destruct (h !! t) as [ht0|] eqn:Ht0; [|discriminate].
      simpl in Pt. injection Pt as Eht.
      intros Hr. split; [eauto|]. split; [eauto|]. intros k.
      inversion Hr; subst h'; clear Hr.
      rewrite (insert_pointwise (set_reportsTo s) _ _ _ Htg), P1.
      destruct (h !! k) as [hn|] eqn:Hk; simpl; [|reflexivity].
      f_equal. destruct hn. entry_eq.
Qed.

Lemma org_step_thrown h e :
  is_org_type e = true ->
  (org_step h e = Thrown <-> h !! source e = None \/ h !! target e = None).
Proof.
  intros Ht. unfold org_step.
  destruct (is_org_type_cases e Ht) as [(Ety & _) | (Ety & En & _)].
  - rewrite Ety. simpl String.eqb. cbv iota.
    destruct (h !! source e) as [hs|] eqn:Hs; [|tauto].
    rewrite lookup_insert. case_decide as Est.
    + rewrite <- Est, Hs.
      destruct (id_in (source e) (manages (set_reportsTo (source e) hs)));
        split; [discriminate | intros [H | H]; discriminate
               | discriminate | intros [H | H]; discriminate].
    + destruct (h !! target e) as [ht|]; [|tauto].
      destruct (id_in (source e) (manages ht)); split;
        [discriminate | intros [H | H]; discriminate
        | discriminate | intros [H | H]; discriminate].
  - rewrite En, Ety. simpl String.eqb. cbv iota.
    destruct (h !! source e) as [hs|] eqn:Hs; [|tauto].
    destruct (id_in (target e) (manages hs)).
    + destruct (h !! target e) as [ht|]; [|tauto].
      split; [discriminate | intros [H | H]; discriminate].
    + rewrite lookup_insert. case_decide as Est.
      * rewrite <- Est, Hs.
        split; [discriminate | intros [H | H]; discriminate].
      * destruct (h !! target e) as [ht|]; [|tauto].
        split; [discriminate | intros [H | H]; discriminate].
Qed.

Lemma org_step_not_out_of_fuel h e : org_step h e <> OutOfFuel.
Proof.
  unfold org_step.
  repeat match goal with
         | |- context [if ?b then _ else _] => destruct b
         | |- context [match ?h !! ?k with _ => _ end] => destruct (h !! k)
         end; discriminate.
Qed.

Lemma init_hierarchy_lookup (contacts : list Node) :
  forall (h0 : gmap string HEntry) k,
    let h := List.fold_left
               (fun h c => <[n_id c := {| h_contact := c; reportsTo := None;
                                          manages := []; level := 0 |}]> h)
               contacts h0 in
    (is_Some (h !! k) <->
     is_Some (h0 !! k) \/ In k (List.map n_id contacts)) /\
    (forall node, h !! k = Some node ->
                  h0 !! k = Some node \/
                  (reportsTo node = None /\ manages node = [] /\
                   n_id (h_contact node) = k /\
                   In (h_contact node) contacts)).
Proof.
  induction contacts as [|c cs IH]; intros h0 k; simpl.
  - split; [tauto | auto].
  - destruct (IH (<[n_id c := {| h_contact := c; reportsTo := None;
                                  manages := []; level := 0 |}]> h0) k)
      as [Hdom Hent].
    split.
    + rewrite Hdom, lookup_insert. case_decide as E.
      * subst k. split; [auto | eauto].
      * split; intros [H | H]; auto. destruct H as [H | H]; [congruence|auto].
    + intros node Hn. destruct (Hent node Hn) as [H | (H1 & H2 & H3 & H4)].
      * rewrite lookup_insert in H. case_decide as E; [|now left].
        inversion H; subst node. simpl. right. auto.
      * right. auto.
Qed.

Lemma init_hierarchy_wf g contacts :
  org_wf g contacts (init_hierarchy contacts).
Proof.
  unfold init_hierarchy.
  assert (H := fun k => init_hierarchy_lookup contacts ∅ k).
  cbv zeta in H. split; [|split; [|split]].
  - intros k. rewrite (proj1 (H k)), lookup_empty. split; [|auto].
    intros [[x Hx] | Hk]; [discriminate | exact Hk].
  - intros k node Hn. destruct (proj2 (H k) node Hn) as [H0 | H0].
    + rewrite lookup_empty in H0. discriminate.
    + tauto.
  - intros k node m Hn Hm. destruct (proj2 (H k) node Hn) as [H0 | H0].
    + rewrite lookup_empty in H0. discriminate.
    + destruct H0 as (H0 & _). congruence.
  - intros m mnode Hn. destruct (proj2 (H m) mnode Hn) as [H0 | H0].
    + rewrite lookup_empty in H0. discriminate.
    + destruct H0 as (_ & -> & _). split; [constructor | contradiction].
Qed.

Lemma linked_manages c m k node x :
  In x (manages node) -> In x (manages (linked c m k node)).
Proof.
  unfold linked. simpl.
  destruct (String.eqb k m && negb (id_in c (manages node)))%bool; [|auto].
  intros H. apply List.in_or_app. now left.
Qed.

Lemma fmap_Some_inv {A B} (f : A -> B) (o : option A) y :
  f <$> o = Some y -> exists x, o = Some x /\ y = f x.
Proof. destruct o as [x|]; simpl; [|discriminate]. intros H. inversion H. eauto. Qed.

Lemma NoDup_snoc (x : string) (l : list string) :
  List.NoDup l -> ~ In x l -> List.NoDup (l ++ [x]).
Proof.
  induction 1 as [|y l Hy Hl IH]; intros Hx; simpl.
  - constructor; [auto | constructor].
  - constructor.
    + intros H. apply List.in_app_or in H. destruct H as [H | [H | []]].
      * contradiction.
      * subst y. apply Hx. now left.
    + apply IH. intros H. apply Hx. now right.
Qed.

Lemma org_step_wf g contacts h e h' :
  org_wf g contacts h -> In e (edges g) -> is_org_type e = true ->
  org_step h e = Returned h' -> org_wf g contacts h'.
Proof.
  intros (Hdom & Hcon & Hptr & Hman) He Ht Hr.
  destruct (org_step_spec h e h' Ht Hr) as ([cn Hc] & [mn Hm] & Hpw).
  set (c := child_of e) in *. set (m := manager_of e) in *.
  assert (Hrep : reports g c m e) by (unfold reports; auto).
  assert (Hsome : forall k, is_Some (h' !! k) <-> is_Some (h !! k)).
  { intros k. rewrite Hpw. destruct (h !! k); simpl; split; intros [x Hx];
      eauto; discriminate. }
  split; [|split; [|split]].
  - intros k. rewrite Hsome. apply Hdom.
  - intros k node Hn. rewrite Hpw in Hn.
    destruct (fmap_Some_inv _ _ _ Hn) as (n0 & Hn0 & ->). simpl.
    eapply Hcon; eassumption.
  - intros k node m' Hn Hm'. rewrite Hpw in Hn.
    destruct (fmap_Some_inv _ _ _ Hn) as (n0 & Hn0 & ->).
    simpl in Hm'. destruct (String.eqb_spec k c) as [-> | Ekc].
    + inversion Hm'; subst m'. split; [eauto|].
      exists (linked c m m mn). split; [now rewrite Hpw, Hm|].
      unfold linked. simpl. rewrite String.eqb_refl. simpl.
      destruct (id_in c (manages mn)) eqn:Ei; simpl.
      * now apply id_in_In.
      * apply List.in_or_app. right. now left.
    + destruct (Hptr k n0 m' Hn0 Hm') as [He0 (mnode & Hmn & Hin)].
      split; [exact He0|].
      exists (linked c m m' mnode). split; [now rewrite Hpw, Hmn|].
      now apply linked_manages.
  - intros m0 mnode Hn. rewrite Hpw in Hn.
    destruct (fmap_Some_inv _ _ _ Hn) as (n0 & Hn0 & ->).
    destruct (Hman m0 n0 Hn0) as [Hnd Hmem].
    unfold linked. simpl.
    destruct (String.eqb_spec m0 m) as [-> | Em]; simpl.
    + destruct (id_in c (manages n0)) eqn:Ei; simpl.
      * split; [exact Hnd|]. intros k Hk. destruct (Hmem k Hk) as [Hs Hx].
        split; [now apply Hsome | exact Hx].
      * split.
        -- apply NoDup_snoc; [exact Hnd|].
           rewrite <- id_in_In. congruence.
        -- intros k Hk. apply List.in_app_or in Hk.
           destruct Hk as [Hk | [<- | []]].
           ++ destruct (Hmem k Hk) as [Hs Hx].
              split; [now apply Hsome | exact Hx].
           ++ split; [apply Hsome; eauto | eauto].
    + split; [exact Hnd|]. intros k Hk. destruct (Hmem k Hk) as [Hs Hx].
      split; [now apply Hsome | exact Hx].
Qed.

Lemma org_steps_wf g contacts :
  forall es h h',
    (forall e, In e es -> In e (edges g) /\ is_org_type e = true) ->
    org_wf g contacts h -> org_steps h es = Returned h' ->
    org_wf g contacts h'.
Proof.
  induction es as [|e es IH]; intros h h' Hes Hwf Hr; simpl in Hr.
  - inversion Hr; subst. exact Hwf.
  - destruct (org_step h e) as [h1| |] eqn:E; try discriminate.
    apply (IH h1 h'); [intros e' He'; apply Hes; now right | | exact Hr].
    destruct (Hes e (or_introl eq_refl)) as [He Ht].
    eapply org_step_wf; eassumption.
Qed.

Lemma org_steps_thrown (K : list string) :
  forall es h,
    (forall e, In e es -> is_org_type e = true) ->
    (forall k, is_Some (h !! k) <-> In k K) ->
    (org_steps h es = Thrown <->
     exists e, In e es /\ (~ In (source e) K \/ ~ In (target e) K)).
Proof.
  assert (Hnone : forall (h : gmap string HEntry) k,
             (forall k, is_Some (h !! k) <-> In k K) ->
             h !! k = None <-> ~ In k K).
  { intros h k Hdom. rewrite <- Hdom, eq_None_not_Some. tauto. }
  induction es as [|e es IH]; intros h Hes Hdom; simpl.
  - split; [discriminate | intros [e [[] _]]].
  - pose proof (Hes e (or_introl eq_refl)) as Ht.
    pose proof (org_step_thrown h e Ht) as Hthrown.
    rewrite !(Hnone h _ Hdom) in Hthrown.
    destruct (org_step h e) as [h1| |] eqn:E.
    + assert (Hdom1 : forall k, is_Some (h1 !! k) <-> In k K).
      { intros k. rewrite <- Hdom.
        destruct (org_step_spec h e h1 Ht E) as (_ & _ & Hpw).
        rewrite Hpw. destruct (h !! k); simpl; split; intros [x Hx];
          eauto; discriminate. }
      rewrite (IH h1 (fun e' He' => Hes e' (or_intror He')) Hdom1).
      split; intros [e' [He' Hx]].
      * exists e'. auto.
      * destruct He' as [<- | He']; [|eauto].
        exfalso. apply Hthrown in Hx. discriminate.
    + split; [|reflexivity]. intros _. exists e. split; [now left|].
      now apply Hthrown.
    + exfalso. exact (org_step_not_out_of_fuel h e E).
Qed.

Lemma orgEdges_In contacts es e :
  In e (orgEdges contacts es) <->
  In e es /\ is_org_type e = true /\
  (In (source e) (List.map n_id contacts) \/
   In (target e) (List.map n_id contacts)).
Proof.
  unfold orgEdges. rewrite List.filter_In, andb_true_iff, existsb_exists.
  split.
  - intros (He & [c [Hc Hx]] & Ht). split; [exact He|]. split; [exact Ht|].
    apply orb_true_iff in Hx. rewrite !String.eqb_eq in Hx.
    destruct Hx as [<- | <-]; [left | right]; now apply List.in_map.
  - intros (He & Ht & Hx). split; [exact He|]. split; [|exact Ht].
    destruct Hx as [Hx | Hx]; apply in_map_iff in Hx;
      destruct Hx as [c [Hc Hin]]; exists c; split; auto;
      rewrite Hc, String.eqb_refl; auto using orb_true_r.
Qed.

Lemma same_pointers_trans h1 h2 h3 :
  same_pointers h1 h2 -> same_pointers h2 h3 -> same_pointers h1 h3.
Proof. intros H1 H2 k. now rewrite (H1 k), (H2 k). Qed.

Lemma calculateLevels_not_thrown g contacts h :
  org_wf g contacts h ->
  forall fuel k (V : gset string),
    is_Some (h !! k) -> calculateLevels fuel h k V <> Thrown.
Proof.
  intros (_ & _ & Hptr & _). induction fuel as [|fuel IH]; intros k V [node Hk];
    [discriminate|].
  simpl. case_bool_decide; [discriminate|]. rewrite Hk.
  destruct (reportsTo node) as [m|] eqn:Hm; [|discriminate].
  destruct (negb (String.eqb m "")); [|discriminate].
  destruct (Hptr k node m Hk Hm) as [_ (mnode & Hmn & _)].
  pose proof (IH m ({[k]} ∪ V) (ex_intro _ mnode Hmn)) as Hne.
  destruct (calculateLevels fuel h m ({[k]} ∪ V)); [discriminate | | discriminate].
  now elim Hne.
Qed.

Lemma assign_levels_not_thrown fuel (h : gmap string HEntry) :
  (forall k, is_Some (h !! k) -> calculateLevels fuel h k ∅ <> Thrown) ->
  forall keys h1,
    same_pointers h h1 -> (forall k, In k keys -> is_Some (h !! k)) ->
    assign_levels fuel h1 keys <> Thrown.
Proof.
  intros Hcalc. induction keys as [|k0 rest IH]; intros h1 Hp Hkeys;
    [discriminate|].
  simpl. rewrite <- (calculateLevels_pointers fuel h h1 k0 ∅ Hp).
  pose proof (Hcalc k0 (Hkeys k0 (or_introl eq_refl))) as Hne.
  destruct (calculateLevels fuel h k0 ∅) as [l| |];
    [|now elim Hne|discriminate].
  apply IH.
  - eapply same_pointers_trans; [exact Hp | apply same_pointers_alter].
  - intros k Hk. apply Hkeys. now right.
Qed.

Lemma assign_levels_links fuel keys h h' :
  assign_levels fuel h keys = Returned h' ->
  forall k, links <$> h' !! k = links <$> h !! k.
Proof.
  intros Hr k. destruct (assign_levels_spec fuel keys h h' Hr k) as [Hin Hout].
  destruct (decide (k ∈ keys)) as [Hd | Hd].
  - destruct (Hin Hd) as [l [_ ->]]. destruct (h !! k); reflexivity.
  - now rewrite (Hout Hd).
Qed.

Lemma links_lookup (h h' : gmap string HEntry) :
  (forall k, links <$> h' !! k = links <$> h !! k) ->
  forall k node',
    h' !! k = Some node' ->
    exists node, h !! k = Some node /\ links node' = links node.
Proof.
  intros Hl k node' Hk. specialize (Hl k). rewrite Hk in Hl.
  destruct (h !! k) as [node|]; [|discriminate]. exists node.
  split; [reflexivity|]. cbn [fmap option_fmap option_map] in Hl. congruence.
Qed.

Lemma org_wf_links g contacts h h' :
  org_wf g contacts h ->
  (forall k, links <$> h' !! k = links <$> h !! k) ->
  org_wf g contacts h'.
Proof.
  intros (Hdom & Hcon & Hptr & Hman) Hl.
  assert (Hsome : forall k, is_Some (h' !! k) <-> is_Some (h !! k)).
  { intros k. specialize (Hl k).
    destruct (h !! k), (h' !! k); simpl in Hl; try discriminate;
      split; intros [x Hx]; eauto; discriminate. }
  assert (Hback : forall k node,
             h !! k = Some node ->
             exists node', h' !! k = Some node' /\ links node' = links node).
  { intros k node Hk. specialize (Hl k). rewrite Hk in Hl.
    destruct (h' !! k) as [node'|]; [|discriminate]. exists node'.
    split; [reflexivity|]. cbn [fmap option_fmap option_map] in Hl.
    congruence. }
  split; [|split; [|split]].
  - intros k. rewrite Hsome. apply Hdom.
  - intros k node' Hk.
    destruct (links_lookup h h' Hl k node' Hk) as (node & Hn & El).
    unfold links in El. inversion El as [[Hc Hr Hm]]. rewrite Hc.
    now apply Hcon.
  - intros k node' m Hk Hm.
    destruct (links_lookup h h' Hl k node' Hk) as (node & Hn & El).
    unfold links in El. inversion El as [[Hc Hr Hmg]]. rewrite Hr in Hm.
    destruct (Hptr k node m Hn Hm) as [He (mnode & Hmn & Hin)].
    split; [exact He|].
    destruct (Hback m mnode Hmn) as (mnode' & Hmn' & El').
    unfold links in El'. inversion El' as [[Hc' Hr' Hmg']].
    exists mnode'. split; [exact Hmn'|]. now rewrite Hmg'.
  - intros m mnode' Hk.
    destruct (links_lookup h h' Hl m mnode' Hk) as (mnode & Hn & El).
    unfold links in El. inversion El as [[Hc Hr Hmg]]. rewrite Hmg.
    destruct (Hman m mnode Hn) as [Hnd Hmem]. split; [exact Hnd|].
    intros k Hin. destruct (Hmem k Hin) as [Hs He].
    split; [now apply Hsome | exact He].
Qed.

Lemma getOrgChart_wf g aid h :
  getOrgChart g aid = Returned h -> org_wf g (getAccountContacts g aid) h.
Proof.
  unfold getOrgChart.
  destruct (org_steps (init_hierarchy (getAccountContacts g aid))
              (orgEdges (getAccountContacts g aid) (edges g)))
    as [h0| |] eqn:E0; [|discriminate|discriminate].
  intros Hr. apply org_wf_links with h0.
  - eapply org_steps_wf; [|apply init_hierarchy_wf|exact E0].
    intros e He. apply orgEdges_In in He. tauto.
  - eapply assign_levels_links. exact Hr.
Qed.

(** X13. [getOrgChart] raises its [TypeError] exactly when the store holds
    a reports_to or manages edge with one end among the contacts of the
    account and the other end outside them (ids being no names of members
    that [hierarchy] inherits from [Object.prototype]). *)
Theorem getOrgChart_throws_iff (g : GraphService) (aid : string) :
  getOrgChart g aid = Thrown <->
  exists e, In e (edges g) /\ leaves_account g aid e = true.
Proof.
  set (cs := getAccountContacts g aid).
  assert (Hinit : forall k, is_Some (init_hierarchy cs !! k)
                            <-> In k (List.map n_id cs)).
  { apply (init_hierarchy_wf g cs). }
  assert (Hsteps := org_steps_thrown (List.map n_id cs) (orgEdges cs (edges g))
                      (init_hierarchy cs)
                      (fun e He => proj1 (proj2 (proj1 (orgEdges_In _ _ _) He)))
                      Hinit).
  assert (Hleave : (exists e, In e (orgEdges cs (edges g)) /\
                              (~ In (source e) (List.map n_id cs) \/
                               ~ In (target e) (List.map n_id cs))) <->
                   exists e, In e (edges g) /\ leaves_account g aid e = true).
  { unfold leaves_account, account_ids. fold cs.
    split; intros [e [He Hx]]; exists e.
    - apply orgEdges_In in He. destruct He as (He & Ht & Hends).
      split; [exact He|]. rewrite Ht. simpl.
      destruct (id_in (source e) (List.map n_id cs)) eqn:Es,
               (id_in (target e) (List.map n_id cs)) eqn:Et;
        try reflexivity; exfalso.
      + apply id_in_In in Es, Et. tauto.
      + assert (~ In (source e) (List.map n_id cs))
          by (rewrite <- id_in_In; congruence).
        assert (~ In (target e) (List.map n_id cs))
          by (rewrite <- id_in_In; congruence).
        tauto.
    - apply andb_true_iff in Hx. destruct Hx as [Ht Hx].
      destruct (id_in (source e) (List.map n_id cs)) eqn:Es,
               (id_in (target e) (List.map n_id cs)) eqn:Et;
        try discriminate.
      + apply id_in_In in Es. split.
        * apply orgEdges_In. auto.
        * right. rewrite <- id_in_In. congruence.
      + apply id_in_In in Et. split.
        * apply orgEdges_In. auto.
        * left. rewrite <- id_in_In. congruence. }
  rewrite <- Hleave, <- Hsteps. unfold getOrgChart. fold cs.
  destruct (org_steps (init_hierarchy cs) (orgEdges cs (edges g)))
    as [h0| |] eqn:E0.
  - split; [|discriminate]. intros Hthrown. exfalso. revert Hthrown.
    assert (Hwf : org_wf g cs h0).
    { eapply org_steps_wf; [|apply init_hierarchy_wf|exact E0].
      intros e He. apply orgEdges_In in He. tauto. }
    apply (assign_levels_not_thrown _ h0).
    + intros k. apply (calculateLevels_not_thrown g cs h0 Hwf).
    + intros k. reflexivity.
    + intros k Hk. apply list_elem_of_In, list_elem_of_fmap in Hk.
      destruct Hk as [[k' node] [-> Hk]]. apply elem_of_map_to_list in Hk.
      simpl. eauto.
  - tauto.
  - split; discriminate.
Qed.

(** In [cross_account_store] contact a reports to z of another account:
    the chart of the account cannot be built. *)
Lemma getOrgChart_throws_iff_witness :
  getOrgChart cross_account_store "acct" = Thrown.
Proof.
  apply (proj2 (getOrgChart_throws_iff cross_account_store "acct")).
  exists (Mock.mk_edge "e2" "a" "z" "reports_to" (9 # 10) true None).
  split; [simpl; auto | vm_compute; reflexivity].
Defined.

(** X14. The hierarchy [getOrgChart] returns is well formed: its keys are
    the ids of the account's contacts and every entry carries one of those
    contacts, with the id of its key; an entry that reports to [m] does so
    for an org edge of the store, [m] is a key and the [manages] list of
    [m] holds the entry's key; a [manages] list holds no id twice, and
    each of its ids is a key that an org edge of the store makes report to
    the list's owner. *)
Theorem getOrgChart_well_formed (g : GraphService) (aid : string)
  (h : gmap string HEntry) :
  getOrgChart g aid = Returned h ->
  (forall k, is_Some (h !! k) <-> In k (account_ids g aid)) /\
  (forall k node,
      h !! k = Some node ->
      n_id (h_contact node) = k /\
      In (h_contact node) (getAccountContacts g aid)) /\
  (forall k node m,
      h !! k = Some node -> reportsTo node = Some m ->
      (exists e, reports g k m e) /\
      exists mnode, h !! m = Some mnode /\ In k (manages mnode)) /\
  (forall m mnode,
      h !! m = Some mnode ->
      List.NoDup (manages mnode) /\
      forall k, In k (manages mnode) ->
                is_Some (h !! k) /\ exists e, reports g k m e).
Proof. intros Hr. exact (getOrgChart_wf g aid h Hr). Qed.

(** The hierarchy of two contacts that report to each other. *)
Lemma getOrgChart_well_formed_witness :
  exists h,
    getOrgChart cyclic_store "acct" = Returned h /\
    (forall k, is_Some (h !! k) <-> In k ["a"; "b"]) /\
    (forall k node m,
        h !! k = Some node -> reportsTo node = Some m ->
        exists mnode, h !! m = Some mnode /\ In k (manages mnode)).
Proof.
  exists (match getOrgChart cyclic_store "acct" with
          | Returned h => h
          | _ => ∅
          end).
  assert (Hr : getOrgChart cyclic_store "acct"
               = Returned (match getOrgChart cyclic_store "acct" with
                           | Returned h => h
                           | _ => ∅
                           end)) by (vm_compute; reflexivity).
  split; [exact Hr|].
  destruct (getOrgChart_well_formed cyclic_store "acct" _ Hr)
    as (Hdom & _ & Hptr & _).
  split; [exact Hdom|].
  intros k node m Hk Hm. exact (proj2 (Hptr k node m Hk Hm)).
Defined.

Lemma getOrgChart_levels g aid h :
  getOrgChart g aid = Returned h ->
  forall k node, h !! k = Some node -> LevelOf h k ∅ (level node).
Proof.
  unfold getOrgChart.
  destruct (org_steps (init_hierarchy (getAccountContacts g aid))
              (orgEdges (getAccountContacts g aid) (edges g)))
    as [h0| |] eqn:E0; [|discriminate|discriminate].
  intros Hr k node Hk.
  pose proof (assign_levels_spec _ _ _ _ Hr k) as [Hin Hout].
  assert (Hp : same_pointers h0 h).
  { intros k'. pose proof (assign_levels_spec _ _ _ _ Hr k') as [Hi Ho].
    destruct (decide (k' ∈ (map_to_list h0).*1)) as [Hd | Hd].
    - destruct (Hi Hd) as [l [_ ->]]. destruct (h0 !! k'); reflexivity.
    - now rewrite (Ho Hd). }
  destruct (decide (k ∈ (map_to_list h0).*1)) as [Hd | Hd].
  - destruct (Hin Hd) as [l [Hl Hk']]. rewrite Hk in Hk'.
    destruct (h0 !! k) as [n0|]; [|discriminate].
    simpl in Hk'. inversion Hk'; subst node. simpl.
    apply (calculateLevels_sound (S (size h0))).
    rewrite <- (calculateLevels_pointers _ h0 h k ∅ Hp). exact Hl.
  - exfalso. apply Hd. rewrite (Hout Hd) in Hk.
    apply list_elem_of_fmap. exists (k, node). split; [reflexivity|].
    now apply elem_of_map_to_list.
Qed.

Lemma LevelOf_nonneg h k V l : LevelOf h k V l -> 0 <= l.
Proof. induction 1; lia. Qed.

Lemma LevelOf_bound h k (V : gset string) l :
  LevelOf h k V l -> l <= Z.of_nat (size (dom h ∖ V)).
Proof.
  induction 1 as [k V Hin | k V node Hn Hk Ht
                  | k V node m l Hn Hk Hm Ht _ IH]; try lia.
  assert (Hsplit : dom h ∖ V = {[k]} ∪ dom h ∖ ({[k]} ∪ V)).
  { apply set_eq. intros x. rewrite !elem_of_union, !elem_of_difference,
      elem_of_union, elem_of_singleton, elem_of_dom.
    destruct (decide (x = k)) as [-> | Hx]; [|tauto].
    split; [auto|]. intros _. split; [eauto | exact Hn]. }
  assert (Hdisj : ({[k]} : gset string) ## dom h ∖ ({[k]} ∪ V)).
  { intros x Hx Hx'. apply elem_of_difference in Hx'. apply (proj2 Hx').
    apply elem_of_union. now left. }
  rewrite Hsplit, (size_union _ _ Hdisj), size_singleton. lia.
Qed.

(** X15. In a returned hierarchy every level lies between 0 and the number
    of entries, and the entries at level 0 are exactly those that report
    to nobody.  With reporting cycles the upper bound is reached: of two
    contacts that report to each other, both are at level 2 in a
    hierarchy of two entries. *)
Theorem getOrgChart_level_range (g : GraphService) (aid : string)
  (h : gmap string HEntry) :
  (getOrgChart g aid = Returned h ->
   forall k node,
     h !! k = Some node ->
     0 <= level node <= Z.of_nat (size h) /\
     (level node = 0 <-> JS.truthy (reportsTo node) = false)) /\
  (exists hc,
      getOrgChart cyclic_store "acct" = Returned hc /\
      size hc = 2%nat /\
      (level <$> hc !! "a") = Some 2 /\ (level <$> hc !! "b") = Some 2).
Proof.
  split.
  - intros Hr k node Hk.
    pose proof (getOrgChart_levels g aid h Hr k node Hk) as Hl.
    split; [split|].
    + eapply LevelOf_nonneg; exact Hl.
    + pose proof (LevelOf_bound _ _ _ _ Hl) as Hb.
      rewrite difference_empty_L, size_dom in Hb. exact Hb.
    + inversion Hl as [k0 V0 Hin | k0 V0 node' Hn' Hk' Ht'
                       | k0 V0 node' m l0 Hn' Hk' Hm' Ht' Hl']; subst.
      * exfalso. revert Hin. apply not_elem_of_empty.
      * rewrite Hk in Hk'. inversion Hk'; subst node'. tauto.
      * rewrite Hk in Hk'. inversion Hk'; subst node'.
        pose proof (LevelOf_nonneg _ _ _ _ Hl'). rewrite Hm', Ht'.
        split; [lia | discriminate].
  - set (h0 := match getOrgChart cyclic_store "acct" with
               | Returned h => h
               | _ => ∅
               end).
    exists h0. repeat split; vm_compute; reflexivity.
Qed.

(** On the fixture store, which has no cycle, contact_1 reports to nobody
    and is at level 0, and contact_2, who reports to contact_1, is not. *)
Lemma getOrgChart_level_range_witness :
  exists h,
    getOrgChart (loadMockGraphData example_now) "account_1" = Returned h /\
    (reportsTo <$> h !! "contact_1") = Some None /\
    (reportsTo <$> h !! "contact_2") = Some (Some "contact_1") /\
    forall k node,
      h !! k = Some node ->
      0 <= level node <= 4 /\
      (level node = 0 <-> JS.truthy (reportsTo node) = false).
Proof.
  set (h0 := match getOrgChart (loadMockGraphData example_now) "account_1"
             with
             | Returned h => h
             | _ => ∅
             end).
  assert (Hr : getOrgChart (loadMockGraphData example_now) "account_1"
               = Returned h0)
    by (vm_compute; reflexivity).
  assert (Hsize : size h0 = 4%nat) by (vm_compute; reflexivity).
  exists h0. split; [exact Hr|].
  split; [vm_compute; reflexivity|]. split; [vm_compute; reflexivity|].
  intros k node Hk.
  destruct (proj1 (getOrgChart_level_range
                     (loadMockGraphData example_now) "account_1" h0)
              Hr k node Hk)
    as [Hrange Hzero].
  split; [|exact Hzero]. rewrite Hsize in Hrange. exact Hrange.
Defined.

(** ** Deal health: urgency, rankings and signals *)

Lemma flat_map_map_comp {A B C} (f : B -> list C) (g : A -> B) (l : list A) :
  List.flat_map f (List.map g l) = List.flat_map (fun x => f (g x)) l.
Proof. induction l as [|x l IH]; simpl; [reflexivity | now rewrite IH]. Qed.

Lemma firstn_top {A} (R : A -> A -> Prop) n : forall l,
  StronglySorted R l ->
  forall c, In c l ->
            In c (List.firstn n l) \/
            forall x, In x (List.firstn n l) -> R x c.
Proof.
  induction n as [|n IH]; intros l Hs c Hc; [right; intros x []|].
  destruct Hs as [|a l Hs Ha]; [contradiction|]. simpl.
  destruct Hc as [-> | Hc]; [left; now left|].
  destruct (IH l Hs c Hc) as [H | H]; [left; now right|].
  right. intros x [<- | Hx]; [|now apply H].
  rewrite List.Forall_forall in Ha. now apply Ha.
Qed.

Lemma clamp_score_range x z : clamp_score x = Some z -> 1 <= z <= 10.
Proof.
  destruct x; simpl; intros H; inversion H; subst; lia.
Qed.

Lemma urgency_clamped d m s gh z :
  calculateUrgencyScore d m s gh = Some z -> 1 <= z <= 10.
Proof. unfold calculateUrgencyScore. apply clamp_score_range. Qed.

Lemma clamp_score_nan x : clamp_score x = None <-> x = NaN.
Proof. destruct x; simpl; split; congruence. Qed.

Lemma num_add_nan x t : num_add x t = NaN <-> x = NaN \/ t = None.
Proof.
  destruct x, t; simpl; split; intros H; try tauto; try discriminate;
    destruct H; discriminate.
Qed.

Lemma base_score_nan p : base_score p = NaN <-> p = NaN.
Proof. destruct p; simpl; split; congruence. Qed.

Lemma capped_nan days k cap : capped days k cap = None <-> days = None.
Proof. destruct days; simpl; split; congruence. Qed.

(** The score is [NaN] exactly when the probability is, or when a penalty
    is applied to a day count that is. *)
Lemma calculateUrgencyScore_nan d m s gh :
  calculateUrgencyScore d m s gh = None <->
  probability d = NaN \/ penalty_on_nan s gh.
Proof.
  unfold calculateUrgencyScore, penalty_on_nan. cbv zeta.
  rewrite clamp_score_nan.
  destruct (Qlt_le_dec 200000 (value d)), (isGhosting gh), (isStalling s),
    (hasMomentum m);
    rewrite ?num_add_nan, ?capped_nan, ?base_score_nan;
    intuition congruence.
Qed.

Lemma detectStalling_days now d :
  isStalling (detectStalling now d) = true ->
  exists n, daysInStage (detectStalling now d) = Some n.
Proof.
  unfold detectStalling. cbn [isStalling daysInStage].
  destruct (avgDuration (stage d)); cbn [option_map]; [|discriminate].
  intros H. apply gt_num_spec in H. destruct H as [n [Hn _]]. eauto.
Qed.

Lemma detectGhosting_days now d log :
  isGhosting (detectGhosting now d log) = true ->
  exists n, lastContactDays (detectGhosting now d log) = Some n.
Proof.
  unfold detectGhosting. cbn [isGhosting lastContactDays].
  intros H. apply andb_true_iff in H. destruct H as [H _].
  apply gt_num_spec in H. destruct H as [n [Hn _]]. eauto.
Qed.

Lemma no_penalty_on_nan now d log :
  ~ penalty_on_nan (detectStalling now d) (detectGhosting now d log).
Proof.
  intros [[H1 H2] | [H1 H2]].
  - destruct (detectStalling_days now d H1) as [n Hn]. congruence.
  - destruct (detectGhosting_days now d log H1) as [n Hn]. congruence.
Qed.

(** X16. The urgency score is [NaN] exactly when the probability is [NaN],
    as it is for a deal of the CRM, whose probability is parsed from the
    name of its pipeline, or when a penalty is applied to a day count
    that is [NaN].  Otherwise it is a whole number from 1 to 10, and
    raising a finite probability, everything else unchanged, never lowers
    it. *)
Theorem calculateUrgencyScore_monotone
  (d : Deal) (m : Momentum) (s : Stalling) (gh : Ghosting) (p p' : Q) :
  (p <= p')%Q ->
  (forall q,
      calculateUrgencyScore (with_probability d q) m s gh = None <->
      q = NaN \/ penalty_on_nan s gh) /\
  (forall q z,
      calculateUrgencyScore (with_probability d q) m s gh = Some z ->
      1 <= z <= 10) /\
  (forall z,
      calculateUrgencyScore (with_probability d (Number p)) m s gh = Some z ->
      exists z',
        calculateUrgencyScore (with_probability d (Number p')) m s gh
        = Some z' /\ z <= z').
Proof.
  intros Hp. split; [|split].
  - intros q. apply (calculateUrgencyScore_nan (with_probability d q)).
  - intros q z. apply urgency_clamped.
  - unfold calculateUrgencyScore. cbv zeta.
    cbn [probability value with_probability base_score].
    assert (H0 : (1 + inject_Z (JS.floor (p / 10))
                  <= 1 + inject_Z (JS.floor (p' / 10)))%Q).
    { apply Qplus_le_r. rewrite <- Zle_Qle. apply Qfloor_resp_le.
      unfold Qdiv. apply Qmult_le_compat_r; [exact Hp | discriminate]. }
    revert H0.
    generalize (1 + inject_Z (JS.floor (p / 10)))%Q.
    generalize (1 + inject_Z (JS.floor (p' / 10)))%Q.
    intros b a Hab z.
    assert (Hclamp : forall x y : Q,
               (x <= y)%Q ->
               forall z, clamp_score (Number x) = Some z ->
                         exists z', clamp_score (Number y) = Some z' /\
                                    z <= z').
    { intros x y Hxy z0 Hz. simpl in Hz. inversion Hz; subst z0.
      eexists. split; [reflexivity|].
      apply Z.min_le_compat_r, Z.max_le_compat_r, round_mono. exact Hxy. }
    destruct (hasMomentum m), (isStalling s), (daysInStage s),
      (isGhosting gh), (lastContactDays gh),
      (Qlt_le_dec 200000 (value d));
      cbn [num_add capped option_map];
      first [ apply Hclamp; lra | simpl; discriminate ].
Qed.

(** A deal worth 50,000 with no signal scores 2 at 15 percent and 7 at
    65; with a probability that is not a number it has no score. *)
Lemma calculateUrgencyScore_monotone_witness :
  let d := deal_in_stage "qualified" example_now in
  let m := detectMomentum example_now None [] in
  let gh := detectGhosting example_now d [] in
  let s := detectStalling example_now d in
  calculateUrgencyScore (with_probability d (Number 15)) m s gh = Some 2 /\
  calculateUrgencyScore (with_probability d (Number 65)) m s gh = Some 7 /\
  calculateUrgencyScore (with_probability d NaN) m s gh = None /\
  exists z',
    calculateUrgencyScore (with_probability d (Number 65)) m s gh = Some z' /\
    2 <= z'.
Proof.
  cbv zeta. split; [vm_compute; reflexivity|].
  split; [vm_compute; reflexivity|].
  split; [vm_compute; reflexivity|].
  refine (proj2 (proj2 (calculateUrgencyScore_monotone
                          (deal_in_stage "qualified" example_now)
                          _ _ _ 15 65 _)) 2 _).
  - vm_compute. discriminate.
  - vm_compute. reflexivity.
Defined.

Lemma analyze_hot_leads now telemetry acts deals :
  hot_leads (analyze now telemetry acts deals)
  = List.firstn 5
      (js_sort hotter (hot_candidates now telemetry acts deals)).
Proof.
  unfold analyze, hot_candidates, active_deals. cbv zeta.
  cbv beta iota delta [hot_leads]. now rewrite flat_map_map_comp.
Qed.

Lemma analyze_risks now telemetry acts deals :
  risks (analyze now telemetry acts deals)
  = List.firstn 5
      (js_sort (risk_before (active_deals deals))
         (risk_candidates now telemetry acts deals)).
Proof.
  unfold analyze, risk_candidates, active_deals. cbv zeta.
  cbv beta iota delta [risks]. now rewrite flat_map_map_comp.
Qed.

Lemma analyze_smart_actions now telemetry acts deals :
  smart_actions (analyze now telemetry acts deals)
  = List.firstn 5
      (action_candidates now telemetry acts (active_deals deals)).
Proof.
  unfold analyze, action_candidates, active_deals. cbv zeta.
  cbv beta iota delta [smart_actions]. now rewrite flat_map_map_comp.
Qed.

(** What is pushed on [hotLeads] for a deal carries the deal's score. *)
Lemma hot_candidate_score now telemetry acts d hl :
  In hl (fst (fst (analyze_deal now telemetry acts d))) ->
  urgency_score hl
  = calculateUrgencyScore d
      (detectMomentum now (telemetry (d_id d)) (acts (d_id d)))
      (detectStalling now d) (detectGhosting now d (acts (d_id d))).
Proof.
  unfold analyze_deal. cbv beta zeta iota delta [fst snd].
  destruct (hasMomentum _); [|contradiction].
  destruct (signalReason _); [|contradiction].
  intros [<- | []]. reflexivity.
Qed.

(** X17. The hot leads [analyze] returns are at most five of the entries
    pushed for the active deals, each for a deal that is not closed; the
    score of an entry is [NaN] exactly when the probability of its deal
    is, and a whole number from 1 to 10 otherwise.  When no deal has a
    probability of [NaN], they are the five most urgent: in descending
    order of urgency score, every entry left out scoring no higher than
    any entry returned. *)
Theorem analyze_hot_leads_ranked
  (now : Z) (telemetry : string -> option Telemetry)
  (getDealActivities : string -> list Activity) (deals : list Deal) :
  let A := analyze now telemetry getDealActivities deals in
  (List.length (hot_leads A) <= 5)%nat /\
  (forall hl, In hl (hot_leads A) ->
     exists d, In d deals /\ opt_is (stage d) "closed" = false /\
               In hl (fst (fst (analyze_deal now telemetry
                                  getDealActivities d))) /\
               (urgency_score hl = None <-> probability d = NaN) /\
               (forall z, urgency_score hl = Some z -> 1 <= z <= 10)) /\
  (Forall (fun d => probability d <> NaN) deals ->
   StronglySorted outscores (hot_leads A) /\
   (forall c, In c (hot_candidates now telemetry getDealActivities deals) ->
      In c (hot_leads A) \/
      forall hl, In hl (hot_leads A) -> outscores hl c)).
Proof.
  cbv zeta. rewrite analyze_hot_leads.
  set (cands := hot_candidates now telemetry getDealActivities deals).
  assert (Hcand : forall hl, In hl cands ->
            exists d, In d deals /\ opt_is (stage d) "closed" = false /\
                      In hl (fst (fst (analyze_deal now telemetry
                                         getDealActivities d))) /\
                      (urgency_score hl = None <-> probability d = NaN) /\
                      (forall z, urgency_score hl = Some z -> 1 <= z <= 10)).
  { intros hl Hin. unfold cands, hot_candidates in Hin.
    apply in_flat_map in Hin. destruct Hin as [d [Hd Hin]].
    unfold active_deals in Hd. apply List.filter_In in Hd.
    destruct Hd as [Hd Hopen]. exists d. split; [exact Hd|].
    split; [now destruct (opt_is (stage d) "closed")|].
    split; [exact Hin|].
    rewrite (hot_candidate_score _ _ _ _ _ Hin). split.
    - rewrite calculateUrgencyScore_nan. split; [|tauto].
      intros [H | H]; [exact H|].
      exfalso. exact (no_penalty_on_nan _ _ _ H).
    - intros z. apply urgency_clamped. }
  split; [apply firstn_length_le|]. split.
  - intros hl Hin. apply In_firstn_list, In_js_sort in Hin.
    now apply Hcand.
  - intros Hnum.
    assert (Hscored : Forall (fun hl => urgency_score hl <> None) cands).
    { apply List.Forall_forall. intros hl Hin.
      destruct (Hcand hl Hin) as (d & Hd & _ & _ & Hnan & _).
      rewrite List.Forall_forall in Hnum. rewrite Hnan. now apply Hnum. }
    assert (Hsorted : StronglySorted outscores (js_sort hotter cands)).
    { apply (js_sort_sorted hotter (fun hl => urgency_score hl <> None)).
      - intros a b c. unfold outscores.
        destruct (urgency_score a), (urgency_score b), (urgency_score c);
          try tauto. lia.
      - intros a b Ha Hb. unfold hotter, outscores.
        destruct (urgency_score a), (urgency_score b); try congruence.
        intros H. apply Z.ltb_lt in H. lia.
      - intros a b Ha Hb. unfold hotter, outscores.
        destruct (urgency_score a), (urgency_score b); try congruence.
        intros H. apply Z.ltb_ge in H. lia.
      - exact Hscored. }
    split; [now apply firstn_sorted|].
    intros c Hc. apply (firstn_top _ 5 _ Hsorted).
    apply (Permutation_in c (Permutation_sym (js_sort_Permutation hotter cands))).
    exact Hc.
Qed.

Lemma risk_before_value act a b :
  risk_before act a b
  = if Qlt_le_dec (risk_value act b) (risk_value act a) then true else false.
Proof. reflexivity. Qed.

(** X18. The risks [analyze] returns are at most five, in descending order
    of the value of the first active deal carrying the risk's deal id;
    each is pushed for a deal that is not closed and is stalling or
    ghosting, and every risk left out belongs to a deal worth no more
    than any risk returned. *)
Theorem analyze_risks_ranked
  (now : Z) (telemetry : string -> option Telemetry)
  (getDealActivities : string -> list Activity) (deals : list Deal) :
  let A := analyze now telemetry getDealActivities deals in
  let worth := risk_value (active_deals deals) in
  (List.length (risks A) <= 5)%nat /\
  StronglySorted (fun a b => (worth b <= worth a)%Q) (risks A) /\
  (forall r, In r (risks A) ->
     exists d, In d deals /\ opt_is (stage d) "closed" = false /\
               r_deal_id r = d_id d /\
               (isStalling (detectStalling now d) = true \/
                isGhosting (detectGhosting now d (getDealActivities (d_id d)))
                = true)) /\
  (forall c, In c (risk_candidates now telemetry getDealActivities deals) ->
     In c (risks A) \/
     forall r, In r (risks A) -> (worth c <= worth r)%Q).
Proof.
  cbv zeta. rewrite analyze_risks.
  set (cands := risk_candidates now telemetry getDealActivities deals).
  set (act := active_deals deals).
  assert (Hsorted : StronglySorted
                      (fun a b => (risk_value act b <= risk_value act a)%Q)
                      (js_sort (risk_before act) cands)).
  { apply (js_sort_sorted (risk_before act) (fun _ => True)).
    - intros a b c H1 H2. lra.
    - intros a b _ _. rewrite risk_before_value.
      destruct (Qlt_le_dec (risk_value act b) (risk_value act a));
        [lra | discriminate].
    - intros a b _ _. rewrite risk_before_value.
      destruct (Qlt_le_dec (risk_value act b) (risk_value act a));
        [discriminate | lra].
    - apply List.Forall_forall. auto. }
  split; [apply firstn_length_le|]. split; [now apply firstn_sorted|].
  split.
  - intros r Hin. apply In_firstn_list, In_js_sort in Hin.
    unfold cands, risk_candidates in Hin. apply in_flat_map in Hin.
    destruct Hin as [d [Hd Hin]]. unfold active_deals in Hd.
    apply List.filter_In in Hd. destruct Hd as [Hd Hopen].
    exists d. split; [exact Hd|].
    split; [now destruct (opt_is (stage d) "closed")|].
    revert Hin. unfold analyze_deal. cbv beta zeta iota delta [fst snd].
    destruct (isStalling (detectStalling now d)) eqn:Es;
      destruct (isGhosting (detectGhosting now d (getDealActivities (d_id d))))
        eqn:Eg; simpl; intros Hin;
      repeat (destruct Hin as [<- | Hin]; [simpl; auto|]); contradiction.
  - intros c Hc. apply (firstn_top _ 5 _ Hsorted).
    apply (Permutation_in c
             (Permutation_sym (js_sort_Permutation (risk_before act) cands))).
    exact Hc.
Qed.

Lemma generateSmartActions_length now d log m s gh :
  (List.length (generateSmartActions now d log m s gh) <= 3)%nat.
Proof. unfold generateSmartActions. cbv zeta. apply firstn_length_le. Qed.

Lemma action_candidates_app now telemetry acts l1 l2 :
  action_candidates now telemetry acts (l1 ++ l2)
  = (action_candidates now telemetry acts l1
     ++ action_candidates now telemetry acts l2)%list.
Proof. unfold action_candidates. apply List.flat_map_app. Qed.

(** X19. The smart actions [analyze] returns are not ranked: they are the
    first five actions in pipeline order.  The actions of the first active
    deal, at most three, always come first, and a deal behind active deals
    that already yield five actions contributes none. *)
Theorem analyze_smart_actions_pipeline_order
  (now : Z) (telemetry : string -> option Telemetry)
  (getDealActivities : string -> list Activity) (deals : list Deal) :
  let A := analyze now telemetry getDealActivities deals in
  let actions_of d :=
    snd (analyze_deal now telemetry getDealActivities d) in
  (List.length (smart_actions A) <= 5)%nat /\
  (forall d rest,
      active_deals deals = d :: rest ->
      (List.length (actions_of d) <= 3)%nat /\
      exists more, smart_actions A = (actions_of d ++ more)%list) /\
  (forall before d behind,
      active_deals deals = (before ++ d :: behind)%list ->
      (5 <= List.length
              (action_candidates now telemetry getDealActivities before))%nat ->
      smart_actions A
      = List.firstn 5
          (action_candidates now telemetry getDealActivities before)).
Proof.
  cbv zeta. rewrite analyze_smart_actions.
  split; [apply firstn_length_le|]. split.
  - intros d rest ->.
    assert (Hlen : (List.length
                      (snd (analyze_deal now telemetry getDealActivities d))
                    <= 3)%nat).
    { unfold analyze_deal. cbv beta zeta iota delta [snd].
      apply generateSmartActions_length. }
    split; [exact Hlen|].
    change (d :: rest) with ([d] ++ rest)%list.
    rewrite action_candidates_app, List.firstn_app.
    unfold action_candidates at 1 2. simpl List.flat_map.
    rewrite List.app_nil_r.
    rewrite (List.firstn_all2
               (snd (analyze_deal now telemetry getDealActivities d)))
      by lia.
    eauto.
  - intros before d behind -> Hlen.
    rewrite action_candidates_app, List.firstn_app.
    replace (5 - List.length
                   (action_candidates now telemetry getDealActivities before))%nat
      with 0%nat by lia.
    simpl. now rewrite List.app_nil_r.
Qed.

Lemma example_analysis :
  let A := analyze example_now (fun _ => None) example_logs example_pipeline in
  List.map (fun hl => (hl_deal_id hl, urgency_score hl)) (hot_leads A)
  = [("deal_b", Some 7)] /\
  List.map r_deal_id (risks A) = ["deal_a"; "deal_a"] /\
  List.map (fun a => (action_type a, target_name a)) (smart_actions A)
  = [("EMAIL", "Ann Lee"); ("LINKEDIN", "Ann Lee"); ("CALL", "Ann Lee");
     ("EMAIL", "the team")].
Proof. cbv zeta. repeat split; vm_compute; reflexivity. Qed.

(** On the example pipeline, where every probability is a number: one hot
    lead, for the deal whose proposal was opened; the closed deal,
    although the most valuable, yields nothing. *)
Lemma analyze_hot_leads_ranked_witness :
  let A := analyze example_now (fun _ => None) example_logs example_pipeline in
  List.map (fun hl => (hl_deal_id hl, urgency_score hl)) (hot_leads A)
  = [("deal_b", Some 7)] /\
  StronglySorted outscores (hot_leads A) /\
  forall hl z, In hl (hot_leads A) -> urgency_score hl = Some z ->
               1 <= z <= 10.
Proof.
  cbv zeta. split; [exact (proj1 example_analysis)|].
  destruct (analyze_hot_leads_ranked example_now (fun _ => None) example_logs
              example_pipeline) as (_ & Hin & Hs).
  split.
  - apply Hs. unfold example_pipeline.
    repeat (constructor; [simpl; discriminate|]). constructor.
  - intros hl z Hhl. destruct (Hin hl Hhl) as (d & _ & _ & _ & _ & Hz).
    apply Hz.
Defined.

(** On the example pipeline both risks belong to the stalled deal. *)
Lemma analyze_risks_ranked_witness :
  let A := analyze example_now (fun _ => None) example_logs example_pipeline in
  List.map r_deal_id (risks A) = ["deal_a"; "deal_a"] /\
  StronglySorted
    (fun a b => (risk_value (active_deals example_pipeline) b
                 <= risk_value (active_deals example_pipeline) a)%Q)
    (risks A).
Proof.
  cbv zeta. split; [exact (proj1 (proj2 example_analysis))|].
  exact (proj1 (proj2 (analyze_risks_ranked example_now (fun _ => None)
                         example_logs example_pipeline))).
Defined.

(** On the example pipeline the three actions of the first deal come
    first. *)
Lemma analyze_smart_actions_pipeline_order_witness :
  let A := analyze example_now (fun _ => None) example_logs example_pipeline in
  exists more,
    smart_actions A
    = (snd (analyze_deal example_now (fun _ => None) example_logs
              (List.hd (deal_in_stage "new" 0) example_pipeline))
       ++ more)%list.
Proof.
  cbv zeta.
  destruct (analyze_smart_actions_pipeline_order example_now (fun _ => None)
              example_logs example_pipeline) as (_ & Hfirst & _).
  refine (proj2 (Hfirst _ (List.tl (active_deals example_pipeline)) _)).
  vm_compute. reflexivity.
Defined.

(** X20. [generateSmartActions] returns at most three actions, all
    addressed to the deal's first contact (or to the team).  The regular
    follow-up is only ever returned alone and never for a closed deal.
    When a proposal open, ghosting and a probability above 50 all apply,
    the call about the stalled stage is the action cut off. *)
Theorem generateSmartActions_shape
  (now : Z) (d : Deal) (log : list Activity) (m : Momentum) (s : Stalling)
  (gh : Ghosting) :
  let actions := generateSmartActions now d log m s gh in
  (List.length actions <= 3)%nat /\
  (forall a, In a actions -> target_name a = primary_contact d) /\
  (forall a, In a actions -> rationale a = RegularFollowUp ->
             actions = [a] /\ opt_is (stage d) "closed" = false) /\
  (hasMomentum m = true -> 0 < proposalOpens m -> isGhosting gh = true ->
   likely d = true ->
   List.map rationale actions
   = [ProposalOpened; NoContact (lastContactDays gh); GoingCold]).
Proof.
  cbv zeta. split; [apply generateSmartActions_length|].
  unfold generateSmartActions. cbv zeta. fold (primary_contact d).
  set (act := fun ty r => {| action_type := ty;
                             target_name := primary_contact d;
                             rationale := r |}).
  split; [|split].
  - intros a Ha. apply In_firstn_list in Ha. revert Ha.
    destruct (hasMomentum m), (0 <? proposalOpens m), (0 <? pricingClicks m),
      (2 <? emailOpens m), (isGhosting gh), (likely d),
      (isStalling s),
      (negb (opt_is (stage d) "closed") &&
       gt_num (calculateLastContactDays now d log) 3)%bool;
      simpl; intros Ha;
      repeat (destruct Ha as [<- | Ha]; [reflexivity|]); contradiction.
  - intros a Ha Hr. revert Ha.
    destruct (hasMomentum m), (0 <? proposalOpens m), (0 <? pricingClicks m),
      (2 <? emailOpens m), (isGhosting gh), (likely d),
      (isStalling s); simpl;
      try (intros Ha;
           repeat (destruct Ha as [<- | Ha]; [discriminate Hr|]);
           contradiction).
    all: destruct (opt_is (stage d) "closed"); simpl;
      try contradiction;
      destruct (gt_num (calculateLastContactDays now d log) 3); simpl;
      try contradiction;
      intros [<- | []]; auto.
  - intros Hm Hp Hg Hprob. rewrite Hm, Hg.
    apply Z.ltb_lt in Hp. rewrite Hp.
    rewrite Hprob. destruct (isStalling s); reflexivity.
Qed.

(** The stalled deal of the example pipeline at 70 percent with a
    proposal open added: the stalled-stage call is cut off. *)
Lemma generateSmartActions_shape_witness :
  let d := List.hd (deal_in_stage "new" 0) example_pipeline in
  let log := [entry "document_view" (DateAt (example_now - 3600000))] in
  let m := detectMomentum example_now None log in
  let s := detectStalling example_now d in
  let gh := detectGhosting example_now d log in
  isStalling s = true /\
  List.map rationale (generateSmartActions example_now d log m s gh)
  = [ProposalOpened; NoContact (Some 999); GoingCold].
Proof.
  cbv zeta. split; [vm_compute; reflexivity|].
  refine (proj2 (proj2 (proj2
            (generateSmartActions_shape example_now
               (List.hd (deal_in_stage "new" 0) example_pipeline)
               [entry "document_view" (DateAt (example_now - 3600000))]
               _ _ _))) _ _ _ _); vm_compute; reflexivity.
Defined.


Lemma no_earlier_trans a b c : no_earlier a b -> no_earlier b c -> no_earlier a c.
Proof.
  intros (ta & tb & Ha & Hb & H1) (tb' & tc & Hb' & Hc & H2).
  rewrite Hb in Hb'. inversion Hb'; subst tb'.
  exists ta, tc. repeat split; auto. lia.
Qed.

Lemma later_true a b : dated a -> dated b -> later a b = true -> no_earlier a b.
Proof.
  intros [ta Ha] [tb Hb]. unfold later. rewrite Ha, Hb. simpl.
  intros H. apply Z.ltb_lt in H. exists ta, tb. repeat split; auto. lia.
Qed.

Lemma later_false a b : dated a -> dated b -> later a b = false -> no_earlier b a.
Proof.
  intros [ta Ha] [tb Hb]. unfold later. rewrite Ha, Hb. simpl.
  intros H. apply Z.ltb_ge in H. exists tb, ta. repeat split; auto.
Qed.

Lemma filter_none {A} (p : A -> bool) (l : list A) :
  Forall (fun a => p a = false) l -> List.filter p l = [].
Proof.
  induction 1 as [|a l Ha _ IH]; [reflexivity|]. simpl. now rewrite Ha.
Qed.

(** X21. The days since the last contact.  A log that holds entries but
    no dated call, email or meeting gives 999 days whatever the deal's
    last activity, so that a deal that is not closed is reported as
    ghosting; a closed deal never is.  When every call, email and meeting
    of the log has a parseable date and there is at least one, the result
    is the whole number of days since the latest of them. *)
Theorem calculateLastContactDays_latest
  (now : Z) (d : Deal) (log : list Activity) :
  (opt_is (stage d) "closed" = true ->
   isGhosting (detectGhosting now d log) = false) /\
  (log <> [] -> Forall (fun a => is_contact_activity a = false) log ->
   calculateLastContactDays now d log = Some 999 /\
   (opt_is (stage d) "closed" = false ->
    isGhosting (detectGhosting now d log) = true)) /\
  (forall a0,
      In a0 log -> is_contact_activity a0 = true ->
      (forall a, In a log -> is_contact_activity a = true -> dated a) ->
      exists a t,
        In a log /\ is_contact_activity a = true /\ a_date a = DateAt t /\
        (forall b t', In b log -> is_contact_activity b = true ->
                      a_date b = DateAt t' -> t' <= t) /\
        calculateLastContactDays now d log = Some (days_since now t)).
Proof.
  split; [|split].
  - intros Hc. unfold detectGhosting. simpl. rewrite Hc.
    apply andb_false_r.
  - intros Hne Hall.
    assert (Hdays : calculateLastContactDays now d log = Some 999).
    { unfold calculateLastContactDays. destruct log as [|x l]; [contradiction|].
      fold is_contact_activity.
      now rewrite (filter_none is_contact_activity (x :: l) Hall). }
    split; [exact Hdays|]. intros Hopen. unfold detectGhosting. simpl.
    rewrite Hdays, Hopen. reflexivity.
  - intros a0 Ha0 Hc0 Hdated.
    unfold calculateLastContactDays. destruct log as [|x l]; [contradiction|].
    fold is_contact_activity.
    set (kept := List.filter is_contact_activity (x :: l)).
    assert (Hkept : forall a, In a kept <->
                              In a (x :: l) /\ is_contact_activity a = true).
    { intros a. apply List.filter_In. }
    assert (HP : Forall dated kept).
    { apply List.Forall_forall. intros a Ha. apply Hkept in Ha.
      now apply Hdated. }
    pose proof (js_sort_sorted later dated no_earlier no_earlier_trans
                  later_true later_false kept HP) as Hsorted.
    pose proof (js_sort_Permutation later kept) as Hperm.
    destruct (js_sort later kept) as [|a rest] eqn:Es.
    + exfalso. apply (Permutation_in a0 (Permutation_sym Hperm)).
      apply Hkept. auto.
    + assert (Ha : In a kept)
        by (apply (Permutation_in a Hperm); now left).
      destruct (proj1 (List.Forall_forall _ _) HP a Ha) as [t Ht].
      exists a, t. apply Hkept in Ha. destruct Ha as [Ha Hca].
      split; [exact Ha|]. split; [exact Hca|]. split; [exact Ht|]. split.
      * intros b t' Hb Hcb Hbt.
        assert (Hin : In b (a :: rest)).
        { apply (Permutation_in b (Permutation_sym Hperm)).
          apply Hkept. auto. }
        destruct Hin as [<- | Hin]; [rewrite Ht in Hbt; inversion Hbt; lia|].
        inversion Hsorted as [|a' rest' _ Hfa]; subst.
        rewrite List.Forall_forall in Hfa.
        destruct (Hfa b Hin) as (ta & tb & E1 & E2 & Hle).
        rewrite Ht in E1. rewrite Hbt in E2. inversion E1; inversion E2; lia.
      * rewrite Ht. reflexivity.
Qed.

(** deal_b of the example pipeline had its last call three days ago; a
    deal whose log only holds a proposal view is told to have had no
    contact for 999 days. *)
Lemma calculateLastContactDays_latest_witness :
  let d := deal_in_stage "proposal" example_now in
  calculateLastContactDays example_now d (example_logs "deal_b") = Some 3 /\
  calculateLastContactDays example_now d
    [entry "document_view" (DateAt (example_now - 3600000))] = Some 999 /\
  isGhosting (detectGhosting example_now d
                [entry "document_view" (DateAt (example_now - 3600000))])
  = true.
Proof.
  cbv zeta. split; [vm_compute; reflexivity|].
  destruct (calculateLastContactDays_latest example_now
              (deal_in_stage "proposal" example_now)
              [entry "document_view" (DateAt (example_now - 3600000))])
    as (_ & Hnone & _).
  assert (Hne : [entry "document_view" (DateAt (example_now - 3600000))] <> [])
    by discriminate.
  assert (Hall : Forall (fun a => is_contact_activity a = false)
                   [entry "document_view" (DateAt (example_now - 3600000))])
    by (constructor; [vm_compute; reflexivity | constructor]).
  destruct (Hnone Hne Hall) as [Hdays Hghost].
  split; [exact Hdays|]. apply Hghost. vm_compute. reflexivity.
Defined.




Lemma filter_filter_implied {A} (p q : A -> bool) (l : list A) :
  (forall x, p x = true -> q x = true) ->
  List.filter p (List.filter q l) = List.filter p l.
Proof.
  intros H. induction l as [|x l IH]; [reflexivity|]. simpl.
  destruct (q x) eqn:Eq; simpl.
  - destruct (p x); [now rewrite IH | exact IH].
  - destruct (p x) eqn:Ep; [|exact IH].
    rewrite (H x Ep) in Eq. discriminate.
Qed.

Lemma existsb_filter_implied {A} (p q : A -> bool) (l : list A) :
  (forall x, p x = true -> q x = true) ->
  List.existsb p (List.filter q l) = List.existsb p l.
Proof.
  intros H. induction l as [|x l IH]; [reflexivity|]. simpl.
  destruct (q x) eqn:Eq; simpl.
  - now rewrite IH.
  - destruct (p x) eqn:Ep; [|exact IH].
    rewrite (H x Ep) in Eq. discriminate.
Qed.

Lemma at_or_after_not_before cutoff dt :
  at_or_after cutoff dt = true -> not_before cutoff dt = true.
Proof.
  destruct dt as [| |t]; simpl; try discriminate.
  intros H. apply Z.leb_le in H. apply negb_true_iff, Z.ltb_ge. exact H.
Qed.

Lemma detectMomentum_drop now telemetryData log :
  detectMomentum now telemetryData log
  = detectMomentum now telemetryData
      (List.filter (fun a => not_before (last24Hours now) (a_date a)) log).
Proof.
  unfold detectMomentum, count. cbv zeta. fold (last24Hours now).
  rewrite !filter_filter_implied, existsb_filter_implied; [reflexivity| ..];
    intros x Hx;
    repeat match type of Hx with
           | (_ && _)%bool = true =>
               apply andb_true_iff in Hx; destruct Hx as [Hx ?]
           end;
    try assumption; now apply at_or_after_not_before.
Qed.

Lemma all_stale_dropped cutoff log :
  all_stale cutoff log ->
  List.filter (fun a => not_before cutoff (a_date a)) log = [].
Proof.
  induction 1 as [|a l Ha _ IH]; [reflexivity|]. simpl.
  destruct (a_date a) as [| |t]; simpl; [exact IH | contradiction|].
  apply Z.ltb_lt in Ha. rewrite Ha. exact IH.
Qed.

Lemma count_positive {A} (p : A -> bool) (l : list A) a :
  In a l -> p a = true -> 0 < count p l.
Proof.
  induction l as [|x l IH]; [contradiction|]. intros Ha Hp.
  rewrite count_cons. pose proof (count_nonneg p l).
  destruct Ha as [-> | Ha].
  - rewrite Hp. lia.
  - specialize (IH Ha Hp). destruct (p x); lia.
Qed.

(** X23. [detectMomentum] only looks at the last 24 hours of the log:
    dropping every entry that is undated or dated before the cut-off
    changes nothing.  Without telemetry a log of such entries alone shows
    no momentum.  An entry whose date cannot be parsed is not dropped: a
    proposal view with such a date counts as recent and gives momentum. *)
Theorem detectMomentum_recent_only
  (now : Z) (telemetryData : option Telemetry) (log : list Activity) :
  detectMomentum now telemetryData log
  = detectMomentum now telemetryData
      (List.filter (fun a => not_before (last24Hours now) (a_date a)) log) /\
  (all_stale (last24Hours now) log ->
   detectMomentum now None log
   = {| emailOpens := 0; emailClicks := 0; pricingClicks := 0;
        proposalOpens := 0; meetingAccepted := false;
        hasMomentum := false |}) /\
  (forall a, In a log -> a_type a = "document_view" -> a_date a = BadDate ->
             0 < proposalOpens (detectMomentum now None log) /\
             hasMomentum (detectMomentum now None log) = true).
Proof.
  split; [apply detectMomentum_drop|]. split.
  - intros Hstale.
    now rewrite detectMomentum_drop, (all_stale_dropped _ _ Hstale).
  - intros a Ha Hty Hbad.
    assert (Hcount : 0 < count (fun a => (String.eqb (a_type a) "document_view"
                                          && not_before (last24Hours now)
                                               (a_date a))%bool) log).
    { apply (count_positive _ log a Ha). now rewrite Hty, Hbad. }
    unfold detectMomentum. cbv zeta. fold (last24Hours now).
    cbv beta iota delta [proposalOpens hasMomentum].
    set (c := count _ log) in *.
    change (num_or 0 c) with c.
    split; [exact Hcount|].
    apply Z.ltb_lt in Hcount. rewrite Hcount.
    rewrite !orb_true_r. reflexivity.
Qed.

(** A proposal viewed two days ago gives no momentum; the same view with
    a date that cannot be parsed does. *)
Lemma detectMomentum_recent_only_witness :
  hasMomentum (detectMomentum example_now None
                 [entry "document_view"
                    (DateAt (example_now - 2 * JS.ms_per_day))]) = false /\
  hasMomentum (detectMomentum example_now None
                 [entry "document_view" BadDate]) = true.
Proof.
  split.
  - rewrite (proj1 (proj2 (detectMomentum_recent_only example_now None
                             [entry "document_view"
                                (DateAt (example_now - 2 * JS.ms_per_day))])));
      [reflexivity|].
    constructor; [vm_compute; reflexivity | constructor].
  - refine (proj2 (proj2 (proj2 (detectMomentum_recent_only example_now None
                                   [entry "document_view" BadDate]))
                     (entry "document_view" BadDate) _ _ _));
      [now left | reflexivity | reflexivity].
Defined.

(** X24. [hasHotSignals] and the momentum [detectMomentum] reads off the
    same telemetry differ in one case only: with an empty activity log,
    the deal has hot signals exactly when it has momentum or exactly two
    of its emails were opened in the last 24 hours. *)
Theorem hasHotSignals_vs_momentum
  (now : Z) (ts : TelemetryStores) (dealId : string) :
  let recent := getRecentEngagement now ts dealId 24 in
  hasHotSignals now ts dealId
  = (hasMomentum (detectMomentum now (Some (telemetry_of recent)) [])
     || (re_emails_opened recent =? 2))%bool.
Proof.
  cbv zeta. unfold hasHotSignals, detectMomentum. cbv zeta.
  set (r := getRecentEngagement now ts dealId 24).
  unfold telemetry_of.
  cbv beta iota delta [emails_opened emails_clicked documents_viewed
                       calendar_accepted hasMomentum].
  change (count _ []) with 0. simpl List.existsb.
  rewrite !num_or_zero.
  destruct (Z.leb_spec 2 (re_emails_opened r)),
    (Z.leb_spec 1 (re_emails_clicked r)),
    (Z.leb_spec 1 (re_documents_viewed r)),
    (Z.leb_spec 1 (re_calendar_accepted r)),
    (Z.ltb_spec 2 (re_emails_opened r)),
    (Z.ltb_spec 0 (re_emails_clicked r)),
    (Z.ltb_spec 0 (re_documents_viewed r)),
    (Z.ltb_spec 0 (re_calendar_accepted r)),
    (Z.eqb_spec (re_emails_opened r) 2); simpl; try reflexivity; lia.
Qed.

(** ** Enrichment *)

Section Enrichment.

#[local] Arguments JS.truthy : simpl never.

Lemma enrich_loop_cons li all n rest es :
  enrich_loop li all (n :: rest) es
  = if NodeType_eqb (n_type n) contact
    then
      let step := enrich_step li
                    (List.filter (fun i => negb (String.eqb i (n_id n))) all)
                    es n in
      (fst step :: fst (enrich_loop li all rest (snd step)),
       snd (enrich_loop li all rest (snd step)))
    else (n :: fst (enrich_loop li all rest es),
          snd (enrich_loop li all rest es)).
Proof.
  simpl. destruct (NodeType_eqb (n_type n) contact).
  - set (es' := if linkedin_verified (enrichContact li n) then _ else es).
    now destruct (enrich_loop li all rest es').
  - now destruct (enrich_loop li all rest es).
Qed.

Lemma or_else_idem (a b : option string) :
  JS.or_else (JS.or_else a b) b = JS.or_else a b.
Proof.
  unfold JS.or_else. destruct (JS.truthy a) eqn:Ea.
  - now rewrite Ea.
  - now destruct (JS.truthy b).
Qed.

(** Merging the same profile again changes none of the fields the model
    carries. *)
Lemma mergeLinkedInData_idem n p :
  mergeLinkedInData (mergeLinkedInData n p) p = mergeLinkedInData n p.
Proof. unfold mergeLinkedInData. simpl. now rewrite or_else_idem. Qed.

Lemma enrichContact_cases li n :
  enrichContact li n = n \/
  exists p, enrichContact li n = mergeLinkedInData n p /\
            enrichContact li (mergeLinkedInData n p) = mergeLinkedInData n p.
Proof.
  unfold enrichContact. simpl.
  destruct (n_email n) as [email|] eqn:Ee.
  - destruct (JS.truthy (Some email)) eqn:Et.
    + destruct (getProfileByEmail li email) as [p|] eqn:Ep.
      * right. exists p. split; [reflexivity|]. rewrite ?Et, ?Ep.
        apply mergeLinkedInData_idem.
      * destruct (JS.truthy (Some (n_name n)) && JS.truthy (n_company n))%bool
          eqn:Ec; [|now left].
        destruct (searchProfile li (n_name n) (default "" (n_company n)))
          as [p|] eqn:Es; [|now left].
        right. exists p. split; [reflexivity|]. rewrite ?Et, ?Ep, ?Es.
        apply mergeLinkedInData_idem.
    + destruct (JS.truthy (Some (n_name n)) && JS.truthy (n_company n))%bool
        eqn:Ec; [|now left].
      destruct (searchProfile li (n_name n) (default "" (n_company n)))
        as [p|] eqn:Es; [|now left].
      right. exists p. split; [reflexivity|]. rewrite ?Et, ?Es.
      apply mergeLinkedInData_idem.
  - destruct (JS.truthy (Some (n_name n)) && JS.truthy (n_company n))%bool
      eqn:Ec; [|now left].
    destruct (searchProfile li (n_name n) (default "" (n_company n)))
      as [p|] eqn:Es; [|now left].
    right. exists p. split; [reflexivity|]. rewrite ?Es.
    apply mergeLinkedInData_idem.
Qed.

Lemma enriched_from_refl n : enriched_from n n.
Proof. unfold enriched_from. tauto. Qed.

Lemma enrichContact_from li n :
  n_type n = contact -> enriched_from n (enrichContact li n).
Proof.
  intros Hc. destruct (enrichContact_cases li n) as [-> | (p & -> & _)];
    [apply enriched_from_refl|].
  unfold enriched_from, mergeLinkedInData. simpl.
  repeat split; try reflexivity.
  - intros H. congruence.
  - intros Ht. unfold JS.or_else at 1. now rewrite Ht.
Qed.

Lemma joins_existsb es (a b : string) :
  List.existsb (fun e =>
      ((String.eqb (source e) a && String.eqb (target e) b) ||
       (String.eqb (source e) b && String.eqb (target e) a))%bool) es = true
  <-> exists e, In e es /\ joins e a b.
Proof.
  rewrite existsb_exists. unfold joins.
  split; intros [e [He H]]; exists e; (split; [exact He|]).
  - apply orb_true_iff in H.
    rewrite !andb_true_iff, !String.eqb_eq in H. exact H.
  - apply orb_true_iff. rewrite !andb_true_iff, !String.eqb_eq. exact H.
Qed.

Lemma pushed_onto_trans a b c :
  pushed_onto a b -> pushed_onto b c -> pushed_onto a c.
Proof.
  intros Hab Hbc. induction Hbc as [|es' e Hbc IH Hconf Hnew]; [exact Hab|].
  now apply pushed_one.
Qed.

Lemma add_suggestion_pushed es s : pushed_onto es (add_suggestion es s).
Proof.
  unfold add_suggestion.
  destruct (List.existsb _ es) eqn:E; [constructor|].
  apply pushed_one; [constructor | reflexivity|].
  simpl. intros e' He' Hj.
  assert (Ht : List.existsb (fun e =>
      ((String.eqb (source e) (s_source s) && String.eqb (target e) (s_target s)) ||
       (String.eqb (source e) (s_target s) && String.eqb (target e) (s_source s)))%bool)
              es = true) by (apply joins_existsb; eauto).
  rewrite Ht in E. discriminate.
Qed.

Lemma fold_add_pushed l : forall es,
  pushed_onto es (List.fold_left add_suggestion l es).
Proof.
  induction l as [|s l IH]; intros es; simpl; [constructor|].
  eapply pushed_onto_trans; [apply add_suggestion_pushed | apply IH].
Qed.

Lemma pushed_onto_app es es' :
  pushed_onto es es' ->
  exists added, es' = (es ++ added)%list /\
                Forall (fun e => confirmed e = false) added.
Proof.
  induction 1 as [|es' e _ [added [-> Hf]] Hconf _].
  - exists []. split; [now rewrite List.app_nil_r | constructor].
  - exists (added ++ [e])%list. split; [now rewrite List.app_assoc|].
    apply Forall_app. split; [exact Hf|]. constructor; [exact Hconf|constructor].
Qed.

Lemma pushed_onto_incl es es' e :
  pushed_onto es es' -> In e es -> In e es'.
Proof.
  intros H He. destruct (pushed_onto_app es es' H) as [added [-> _]].
  apply List.in_or_app. now left.
Qed.

Lemma enrich_step_pushed li others es n :
  pushed_onto es (snd (enrich_step li others es n)).
Proof.
  unfold enrich_step. simpl.
  destruct (linkedin_verified (enrichContact li n)); [|constructor].
  apply fold_add_pushed.
Qed.

Lemma enrich_loop_spec li all : forall todo es,
  Forall2 enriched_from todo (fst (enrich_loop li all todo es)) /\
  pushed_onto es (snd (enrich_loop li all todo es)).
Proof.
  induction todo as [|n rest IH]; intros es.
  - simpl. split; constructor.
  - rewrite enrich_loop_cons.
    destruct (NodeType_eqb (n_type n) contact) eqn:Ec; cbv zeta; simpl.
    + destruct (IH (snd (enrich_step li
                           (List.filter (fun i => negb (String.eqb i (n_id n)))
                              all) es n))) as [Hn Hp].
      split.
      * constructor; [|exact Hn]. unfold enrich_step. simpl.
        apply enrichContact_from. now destruct (n_type n).
      * eapply pushed_onto_trans; [apply enrich_step_pushed | exact Hp].
    + destruct (IH es) as [Hn Hp]. split; [|exact Hp].
      constructor; [apply enriched_from_refl | exact Hn].
Qed.

Lemma enrichWithLinkedIn_unfold li g :
  enrichWithLinkedIn (Some li) g
  = let all := List.map n_id
                 (List.filter (fun n => NodeType_eqb (n_type n) contact)
                    (nodes g)) in
    {| nodes := fst (enrich_loop li all (nodes g) (edges g));
       edges := snd (enrich_loop li all (nodes g) (edges g));
       interactions := interactions g |}.
Proof.
  unfold enrichWithLinkedIn. cbv zeta.
  now destruct (enrich_loop li _ (nodes g) (edges g)).
Qed.

(** X25. Enrichment never removes or rewrites what the store holds: the
    interactions are untouched; node by node the ids, types, names,
    metadata and scores are kept, nodes that are no contacts are kept
    whole, and a contact that has a title keeps it; the edges of the
    store stay in place, and what is pushed behind them is unconfirmed
    and joins, each time, a pair of ids that no earlier edge joins in
    either direction. *)
Theorem enrichWithLinkedIn_extends (service : option LinkedIn)
  (g : GraphService) :
  let g' := enrichWithLinkedIn service g in
  interactions g' = interactions g /\
  Forall2 enriched_from (nodes g) (nodes g') /\
  pushed_onto (edges g) (edges g') /\
  exists added, edges g' = (edges g ++ added)%list /\
                Forall (fun e => confirmed e = false) added.
Proof.
  cbv zeta. destruct service as [li|].
  - rewrite enrichWithLinkedIn_unfold. cbv zeta. simpl.
    set (all := List.map n_id _).
    destruct (enrich_loop_spec li all (nodes g) (edges g)) as [Hn Hp].
    split; [reflexivity|]. split; [exact Hn|]. split; [exact Hp|].
    now apply pushed_onto_app.
  - simpl. split; [reflexivity|]. split.
    + clear. induction (nodes g); constructor; auto using enriched_from_refl.
    + split; [constructor|]. exists []. split; [now rewrite List.app_nil_r|].
      constructor.
Qed.

Lemma Forall2_ids (l l' : list Node) :
  Forall2 enriched_from l l' ->
  List.map n_id
    (List.filter (fun n => NodeType_eqb (n_type n) contact) l')
  = List.map n_id
      (List.filter (fun n => NodeType_eqb (n_type n) contact) l).
Proof.
  induction 1 as [|n n' l l' (Hid & Hty & _) _ IH]; [reflexivity|].
  simpl. rewrite Hty. destruct (NodeType_eqb (n_type n) contact); simpl;
    [now rewrite Hid, IH | exact IH].
Qed.

Lemma fold_add_covers l : forall es s,
  In s l ->
  exists e, In e (List.fold_left add_suggestion l es) /\
            joins e (s_source s) (s_target s).
Proof.
  induction l as [|s0 l IH]; intros es s Hs; [contradiction|].
  simpl. destruct Hs as [-> | Hs]; [|now apply IH].
  assert (Hnow : exists e, In e (add_suggestion es s) /\
                           joins e (s_source s) (s_target s)).
  { unfold add_suggestion.
    destruct (List.existsb _ es) eqn:E.
    - now apply joins_existsb.
    - eexists. split; [apply List.in_or_app; right; now left|].
      left. split; reflexivity. }
  destruct Hnow as [e [He Hj]]. exists e. split; [|exact Hj].
  eapply pushed_onto_incl; [apply fold_add_pushed | exact He].
Qed.

Lemma fold_add_noop l : forall ES,
  (forall s, In s l -> exists e, In e ES /\ joins e (s_source s) (s_target s)) ->
  List.fold_left add_suggestion l ES = ES.
Proof.
  induction l as [|s l IH]; intros ES H; [reflexivity|]. simpl.
  assert (E : add_suggestion ES s = ES).
  { unfold add_suggestion.
    rewrite (proj2 (joins_existsb ES (s_source s) (s_target s))
               (H s (or_introl eq_refl))). reflexivity. }
  rewrite E. apply IH. intros s' Hs'. apply H. now right.
Qed.

(** Enriching a contact again changes none of those fields. *)
Lemma enrichContact_idem li n :
  enrichContact li (enrichContact li n) = enrichContact li n.
Proof.
  destruct (enrichContact_cases li n) as [E | (p & E & Hp)].
  - now rewrite !E.
  - now rewrite E, Hp.
Qed.

Lemma enrich_loop_again li all : forall todo es ES,
  (forall e, In e (snd (enrich_loop li all todo es)) -> In e ES) ->
  enrich_loop li all (fst (enrich_loop li all todo es)) ES
  = (fst (enrich_loop li all todo es), ES).
Proof.
  induction todo as [|n rest IH]; intros es ES Hin; [reflexivity|].
  rewrite enrich_loop_cons in Hin |- *.
  destruct (NodeType_eqb (n_type n) contact) eqn:Ec; cbv zeta in *;
    simpl fst in *; simpl snd in *.
  - set (others := List.filter (fun i => negb (String.eqb i (n_id n))) all)
      in *.
    set (n1 := enrichContact li n) in *.
    assert (Hfrom : enriched_from n n1).
    { apply enrichContact_from. now destruct (n_type n). }
    destruct Hfrom as (Hid & Hty & _).
    rewrite enrich_loop_cons, Hty, Ec, Hid. cbv zeta. fold others.
    assert (Hstep : enrich_step li others ES n1 = (n1, ES)).
    { unfold enrich_step. unfold n1 at 1 2 3.
      rewrite enrichContact_idem. fold n1. f_equal.
      destruct (linkedin_verified n1) eqn:Ev; [|reflexivity].
      apply fold_add_noop. intros s Hs.
      destruct (fold_add_covers _ es s Hs) as [e [He Hj]].
      exists e. split; [|exact Hj]. apply Hin.
      apply (pushed_onto_incl _ _ e
               (proj2 (enrich_loop_spec li all rest _))).
      exact He. }
    rewrite Hstep. simpl fst. simpl snd. rewrite Hid in Hin.
    now rewrite (IH _ ES Hin).
  - rewrite enrich_loop_cons, Ec. now rewrite (IH es ES Hin).
Qed.

(** X26. A second enrichment, the profile service giving the same
    answers, adds no edge and no interaction, and leaves every node with
    the id, type, name, title, company, email, influence score, role, CRM
    id, metadata and [verified] flag that the first pass left.  The time
    stamp [lastEnriched], which every pass writes anew, is not among
    them. *)
Theorem enrichWithLinkedIn_again (service : option LinkedIn)
  (g : GraphService) :
  let g1 := enrichWithLinkedIn service g in
  let g2 := enrichWithLinkedIn service g1 in
  edges g2 = edges g1 /\
  interactions g2 = interactions g1 /\
  Forall2 same_fields (nodes g1) (nodes g2).
Proof.
  cbv zeta.
  assert (E : enrichWithLinkedIn service (enrichWithLinkedIn service g)
              = enrichWithLinkedIn service g).
  { destruct service as [li|]; [|reflexivity].
    rewrite (enrichWithLinkedIn_unfold li g). cbv zeta.
    set (all := List.map n_id _).
    rewrite enrichWithLinkedIn_unfold. cbv zeta. simpl nodes. simpl edges.
    simpl interactions.
    rewrite (Forall2_ids _ _
               (proj1 (enrich_loop_spec li all (nodes g) (edges g)))).
    fold all.
    rewrite (enrich_loop_again li all (nodes g) (edges g)
               (snd (enrich_loop li all (nodes g) (edges g))) (fun e H => H)).
    reflexivity. }
  rewrite E. split; [reflexivity|]. split; [reflexivity|].
  induction (nodes (enrichWithLinkedIn service g)) as [|n l IH];
    constructor; [|exact IH].
  unfold same_fields. tauto.
Qed.

(** On the fixture store with a profile service that suggests a link to
    contact_5 for every contact: the fifteen edges stay in front, and the
    pair contact_1, contact_5, already joined, gets no second edge. *)
Lemma enrichWithLinkedIn_extends_witness :
  let g := {| nodes := Mock.mock_nodes; edges := Mock.mock_edges;
              interactions := Mock.mock_interactions |} in
  let g' := enrichWithLinkedIn (Some example_linkedin) g in
  List.map e_id (List.skipn 15 (edges g'))
  = ["edge_linkedin_contact_2_contact_5"; "edge_linkedin_contact_3_contact_5";
     "edge_linkedin_contact_4_contact_5";
     "edge_linkedin_contact_5_contact_5"] /\
  pushed_onto (edges g) (edges g').
Proof.
  cbv zeta. split; [vm_compute; reflexivity|].
  exact (proj1 (proj2 (proj2 (enrichWithLinkedIn_extends
                                (Some example_linkedin) _)))).
Defined.

End Enrichment.

(** ** Normalising what the profile service and the CRM send *)

Lemma determineRelationshipType_values (type : option string) :
  (forall t, determineRelationshipType type = Some t ->
             In t linkedin_types) /\
  (determineRelationshipType type = None <->
   exists k, type = Some k /\ In k JS.prototype_members).
Proof.
  unfold determineRelationshipType, JS.read, linkedin_types.
  destruct type as [k|].
  2:{ split; [intros t H; inversion H; subst; simpl; auto 10|].
      split; [discriminate | intros [k [H _]]; discriminate]. }
  destruct (List.find (fun kv => String.eqb (fst kv) k) relationship_typeMap)
    as [[k' v]|] eqn:E.
  - apply List.find_some in E. destruct E as [Hin Hk].
    simpl in Hk. apply String.eqb_eq in Hk. subst k'.
    unfold relationship_typeMap in Hin. simpl in Hin. split.
    + intros t H.
      repeat (destruct Hin as [Hin | Hin];
              [inversion Hin; subst; inversion H; subst; simpl; auto 10|]).
      contradiction.
    + split; [discriminate|]. intros [k0 [Hk0 Hm]].
      inversion Hk0; subst k0. exfalso.
      repeat (destruct Hin as [Hin | Hin];
              [inversion Hin; subst; simpl in Hm;
               repeat (destruct Hm as [Hm | Hm]; [discriminate Hm|]);
               exact Hm|]).
      exact Hin.
  - destruct (List.existsb (String.eqb k) JS.prototype_members) eqn:Ex.
    + split; [discriminate|]. split; [|reflexivity]. intros _.
      apply List.existsb_exists in Ex. destruct Ex as [x [Hx Hkx]].
      apply String.eqb_eq in Hkx. subst x. eauto.
    + split; [intros t H; inversion H; subst; simpl; auto 10|].
      split; [discriminate|]. intros [k0 [Hk0 Hm]].
      inversion Hk0; subst k0.
      assert (Ht : List.existsb (String.eqb k) JS.prototype_members = true).
      { apply List.existsb_exists. exists k. split; [exact Hm|].
        apply String.eqb_refl. }
      congruence.
Qed.

(** X27. The type of a normalised relationship suggestion is one of
    former_colleague, alumni, connected, mutual_connection and suggested,
    unless the type the backend sent is named like a member every object
    inherits (constructor, toString, ...): then the type map answers with
    that member and the type is no string.  The strength is never 0 (a
    missing or zero confidence and strength give 0.5).  The edge pushed
    for a suggestion whose type is a string is unconfirmed, counts for
    path search and connections, and is neither part of the org chart,
    nor a works_at or belongs_to edge, nor a deal edge. *)
Theorem normalizeRelationship_types (r : RawRelationship) :
  let n := normalizeRelationship r in
  (forall t, nr_type n = Some t -> In t linkedin_types) /\
  (nr_type n = None <->
   exists k, JS.or_else (rr_type r) (rr_relationshipType r) = Some k /\
             In k JS.prototype_members) /\
  ~ (nr_strength n == 0)%Q /\
  (rr_confidence r = None -> rr_strength r = None ->
   (nr_strength n == 1 # 2)%Q) /\
  (forall e, suggested_edge n = Some e ->
             confirmed e = false /\ non_structural e = true /\
             is_org_type e = false /\
             JS.includes (e_type e) "deal" = false).
Proof.
  cbv zeta. unfold normalizeRelationship. simpl.
  destruct (determineRelationshipType_values
              (JS.or_else (rr_type r) (rr_relationshipType r)))
    as [Hty Hnone].
  split; [exact Hty|]. split; [exact Hnone|]. split; [|split].
  - unfold normalized_strength, truthy_num.
    destruct (rr_confidence r) as [c|]; simpl.
    + destruct (Qeq_bool c 0) eqn:Ec; simpl.
      * destruct (rr_strength r) as [s|]; simpl; [|discriminate].
        destruct (Qeq_bool s 0) eqn:Es; simpl; [discriminate|].
        intros H. apply Qeq_bool_iff in H. congruence.
      * intros H. apply Qeq_bool_iff in H. congruence.
    + destruct (rr_strength r) as [s|]; simpl; [|discriminate].
      destruct (Qeq_bool s 0) eqn:Es; simpl; [discriminate|].
      intros H. apply Qeq_bool_iff in H. congruence.
  - intros Hc Hs. unfold normalized_strength. rewrite Hc, Hs. reflexivity.
  - intros e. unfold suggested_edge. simpl.
    destruct (JS.or_else (rr_sourceId r) (rr_source r)) as [s|]; [|discriminate].
    destruct (JS.or_else (rr_targetId r) (rr_target r)) as [t|]; [|discriminate].
    destruct (determineRelationshipType _) as [ty|]; [|discriminate].
    specialize (Hty ty eq_refl).
    intros He. inversion He; subst e. clear He.
    unfold non_structural, is_org_type. simpl.
    unfold linkedin_types in Hty. simpl in Hty.
    repeat (destruct Hty as [<- | Hty]; [repeat split; reflexivity|]).
    contradiction.
Qed.

(** A suggestion between colleagues with a confidence of 0: the strength
    becomes 0.5 and the edge is a former_colleague edge.  A suggestion of
    type constructor has no string for a type. *)
Lemma normalizeRelationship_types_witness :
  let r := {| rr_sourceId := Some "contact_2"; rr_source := None;
              rr_targetId := Some "contact_4"; rr_target := None;
              rr_type := Some "colleague"; rr_relationshipType := None;
              rr_confidence := Some 0%Q; rr_strength := None;
              rr_confirmed := true |} in
  let odd := {| rr_sourceId := Some "contact_2"; rr_source := None;
                rr_targetId := Some "contact_4"; rr_target := None;
                rr_type := Some "constructor"; rr_relationshipType := None;
                rr_confidence := None; rr_strength := None;
                rr_confirmed := false |} in
  option_map (fun e => (e_type e, Qeq_bool (strength e) 0.5, confirmed e))
    (suggested_edge (normalizeRelationship r))
  = Some ("former_colleague", true, false) /\
  nr_type (normalizeRelationship odd) = None /\
  (nr_strength (normalizeRelationship odd) == 1 # 2)%Q /\
  forall e, suggested_edge (normalizeRelationship r) = Some e ->
            non_structural e = true /\ is_org_type e = false.
Proof.
  cbv zeta. split; [vm_compute; reflexivity|].
  split; [vm_compute; reflexivity|].
  split.
  - refine (proj1 (proj2 (proj2 (proj2 (normalizeRelationship_types _)))) _ _);
      reflexivity.
  - intros e He.
    destruct (proj2 (proj2 (proj2 (proj2 (normalizeRelationship_types _))))
                e He)
      as (_ & Hn & Ho & _).
    split; assumption.
Defined.

Lemma title_text (t : string) :
  default "" (JS.or_else (Some t) (Some "")) = t.
Proof.
  unfold JS.or_else, JS.truthy.
  destruct (String.eqb_spec t ""); simpl; [now subst | reflexivity].
Qed.

(** X28. The two readings of a job title agree in one direction only.
    [determineRole] answers decision_maker, influencer or end_user; a
    title that contains director always contains cto and is a
    decision_maker, so the director test of [determineRole] is never
    reached with success.  A title the scorer gives 20 points or more is
    a decision_maker, and a title that is an end_user gets at most 5
    role points. *)
Theorem determineRole_vs_role_points (title : string) :
  In (determineRole title) ["decision_maker"; "influencer"; "end_user"] /\
  (JS.includes (JS.toLowerCase title) "director" = true ->
   determineRole title = "decision_maker") /\
  (20 <= role_points (Some title) ->
   determineRole title = "decision_maker") /\
  (determineRole title = "end_user" -> role_points (Some title) <= 5).
Proof.
  unfold role_points. rewrite title_text. unfold determineRole.
  set (s := JS.toLowerCase title).
  unfold roleScores. cbn [List.find fst snd].
  assert (Hd : JS.includes s "director" = true -> JS.includes s "cto" = true).
  { intros H. eapply includes_trans; [exact H | reflexivity]. }
  destruct (JS.includes s "ceo") eqn:E1; simpl.
  { repeat split; auto; try lia; discriminate. }
  destruct (JS.includes s "chief executive") eqn:E1'; simpl;
    destruct (JS.includes s "cto") eqn:E2; simpl;
    try (repeat split; auto; try lia; discriminate).
  all: destruct (JS.includes s "director") eqn:E5;
    [specialize (Hd eq_refl); discriminate|].
  all: destruct (JS.includes s "chief technology"),
         (JS.includes s "cfo"), (JS.includes s "chief financial"),
         (JS.includes s "vp"), (JS.includes s "vice president"),
         (JS.includes s "manager"), (JS.includes s "other"); simpl;
    repeat split; auto 10; try lia; try discriminate.
Qed.

(** A sales director is a decision_maker and scores the 25 points of
    cto; an intern is an end_user without role points. *)
Lemma determineRole_vs_role_points_witness :
  determineRole "Sales Director" = "decision_maker" /\
  role_points (Some "Sales Director") = 25 /\
  determineRole "Intern" = "end_user" /\
  role_points (Some "Intern") <= 5.
Proof.
  split.
  - refine (proj1 (proj2 (determineRole_vs_role_points "Sales Director")) _).
    vm_compute. reflexivity.
  - split; [vm_compute; reflexivity|]. split; [vm_compute; reflexivity|].
    refine (proj2 (proj2 (proj2 (determineRole_vs_role_points "Intern"))) _).
    vm_compute. reflexivity.
Defined.

(** ** CRM import on raw records, and [initialize] *)

Lemma NoDup_app_disjoint {A} (l l' : list A) :
  List.NoDup l -> List.NoDup l' -> (forall x, In x l -> ~ In x l') ->
  List.NoDup (l ++ l').
Proof.
  induction 1 as [|a l Ha Hl IH]; intros Hl' Hd; [exact Hl'|].
  simpl. constructor.
  - intros H. apply List.in_app_or in H. destruct H as [H | H];
      [contradiction|]. apply (Hd a); [now left | exact H].
  - apply IH; [exact Hl'|]. intros x Hx. apply Hd. now right.
Qed.

Lemma NoDup_map_prefix {A} (pre : string) (f : A -> string) (l : list A) :
  List.NoDup (List.map f l) ->
  List.NoDup (List.map (fun x => (pre ++ f x)%string) l).
Proof.
  assert (Hinj : forall a b : string, (pre ++ a = pre ++ b)%string -> a = b).
  { induction pre as [|c pre IH]; intros a b H; [exact H|].
    rewrite !append_cons in H. inversion H. now apply IH. }
  induction l as [|x l IH]; simpl; intros H; [constructor|].
  inversion H as [|y l' Hx Hl]; subst. constructor; [|now apply IH].
  intros Hin. apply Hx. apply in_map_iff in Hin.
  destruct Hin as [z [Hz Hzl]]. apply Hinj in Hz. rewrite <- Hz.
  now apply List.in_map.
Qed.

Lemma find_node_NoDup (ns : list Node) (n : Node) :
  List.NoDup (List.map n_id ns) -> In n ns ->
  find_node ns (n_id n) = Some n.
Proof.
  unfold find_node. induction ns as [|m ns IH]; intros Hnd Hin; [contradiction|].
  simpl in Hnd. inversion Hnd as [|x l Hm Hns]; subst. simpl.
  destruct Hin as [-> | Hin]; [now rewrite String.eqb_refl|].
  destruct (String.eqb_spec (n_id m) (n_id n)) as [E | E]; [|now apply IH].
  exfalso. apply Hm. rewrite E. now apply List.in_map.
Qed.

Lemma find_exists {A} (p : A -> bool) (l : list A) x :
  In x l -> p x = true -> exists y, List.find p l = Some y.
Proof.
  intros Hx Hp. destruct (List.find p l) as [y|] eqn:E; [eauto|].
  rewrite (List.find_none p l E x Hx) in Hp. discriminate.
Qed.

Lemma import_raw_ids now history ints0 contacts deals companies :
  List.map n_id (nodes (import_raw now history ints0 contacts deals companies))
  = (List.map (fun c => "hubspot_contact_" ++ rc_id c)%string contacts ++
     List.map (fun c => "hubspot_company_" ++ rco_id c)%string companies ++
     List.map (fun d => "hubspot_deal_" ++ rd_id d)%string deals)%list.
Proof.
  unfold import_raw, loadFromHubSpot.
  rewrite (proj1 (loadInteractionHistory_ids _ _ _)). simpl nodes.
  unfold normalizeContacts, normalizeCompanies, normalizeDeals.
  now rewrite !List.map_app, !List.map_map.
Qed.

Section RawImport.

#[local] Arguments JS.truthy : simpl never.

(** X29. The import run on the backend's records gives every node an id
    made of its kind and its CRM id, so that records with distinct CRM
    ids within each kind give nodes with distinct ids, each found again
    under its id.  A contact whose reports_to names the CRM id of an
    imported contact gets a reports_to edge to a contact that this id
    names. *)
Theorem import_raw_unique_ids
  (now : Z) (history : string -> list HInteraction) (ints0 : list Interaction)
  (contacts : list RawContact) (deals : list RawDeal)
  (companies : list RawCompany) :
  let g := import_raw now history ints0 contacts deals companies in
  (List.NoDup (List.map rc_id contacts) ->
   List.NoDup (List.map rco_id companies) ->
   List.NoDup (List.map rd_id deals) ->
   List.NoDup (List.map n_id (nodes g)) /\
   forall n, In n (nodes g) -> find_node (nodes g) (n_id n) = Some n) /\
  (forall c m mid,
      In c contacts -> In m contacts ->
      rc_reports_to c = Some mid -> JS.truthy (Some mid) = true ->
      rc_id m = mid ->
      exists e m',
        In e (edges g) /\ e_type e = "reports_to" /\
        source e = ("hubspot_contact_" ++ rc_id c)%string /\
        In m' contacts /\
        target e = ("hubspot_contact_" ++ rc_id m')%string /\
        (rc_id m' = mid \/ ("hubspot_contact_" ++ rc_id m')%string = mid)).
Proof.
  cbv zeta. split.
  - intros Hc Hco Hd.
    assert (Hnd : List.NoDup
                    (List.map n_id
                       (nodes (import_raw now history ints0 contacts deals
                                 companies)))).
    { rewrite import_raw_ids.
      apply NoDup_app_disjoint; [now apply NoDup_map_prefix| |].
      - apply NoDup_app_disjoint; [now apply NoDup_map_prefix
                                  | now apply NoDup_map_prefix|].
        intros x Hx Hx'. apply in_map_iff in Hx, Hx'.
        destruct Hx as [a [<- _]]. destruct Hx' as [b [Hb _]].
        rewrite !append_cons in Hb. discriminate.
      - intros x Hx Hx'. apply in_map_iff in Hx. destruct Hx as [a [<- _]].
        apply List.in_app_or in Hx'.
        destruct Hx' as [Hx' | Hx']; apply in_map_iff in Hx';
          destruct Hx' as [b [Hb _]]; rewrite !append_cons in Hb;
          discriminate. }
    split; [exact Hnd|]. intros n Hn. now apply find_node_NoDup.
  - intros c m mid Hc Hm Hr Ht Hmid.
    unfold import_raw, loadFromHubSpot.
    rewrite (proj2 (loadInteractionHistory_ids _ _ _)). simpl edges.
    set (cs := normalizeContacts contacts).
    assert (Hto : JS.or_else (hc_reportsTo (normalizeContact c))
                    (hc_managerId (normalizeContact c)) = Some mid).
    { simpl. rewrite Hr. unfold JS.or_else at 2. rewrite Ht.
      unfold JS.or_else. now rewrite Ht. }
    assert (Hfind : exists m0,
               List.find (fun x => (String.eqb (hc_id x) mid ||
                                    opt_is (hc_hubspotId x) mid)%bool) cs
               = Some m0).
    { apply (find_exists _ cs (normalizeContact m)).
      - unfold cs, normalizeContacts. now apply List.in_map.
      - simpl. rewrite Hmid, String.eqb_refl. apply orb_true_r. }
    destruct Hfind as [m0 Hm0].
    pose proof (List.find_some _ _ Hm0) as [Hin0 Hp0].
    unfold cs, normalizeContacts in Hin0. apply in_map_iff in Hin0.
    destruct Hin0 as [m' [<- Hm']].
    eexists. exists m'. split.
    + unfold build_edges. apply List.in_or_app. left.
      apply in_flat_map. exists (normalizeContact c). split.
      * unfold normalizeContacts. now apply List.in_map.
      * apply List.in_or_app. left. unfold reports_edge.
        rewrite Hto, Ht. fold cs. rewrite Hm0. now left.
    + simpl. split; [reflexivity|]. split; [reflexivity|].
      split; [exact Hm'|]. split; [reflexivity|].
      cbn [hc_id hc_hubspotId normalizeContact opt_is] in Hp0.
      apply orb_true_iff in Hp0. rewrite !String.eqb_eq in Hp0. tauto.
Qed.

End RawImport.

(** Bob reports to Ann: the import of the example records holds the edge
    between their two nodes, and the four node ids are distinct. *)
Lemma import_raw_unique_ids_witness :
  let g := import_raw example_now (fun _ => []) [] example_raw_contacts
             example_raw_deals example_raw_companies in
  List.map n_id (nodes g)
  = ["hubspot_contact_1"; "hubspot_contact_2"; "hubspot_company_9";
     "hubspot_deal_7"] /\
  List.NoDup (List.map n_id (nodes g)) /\
  In ("hubspot_contact_2", "hubspot_contact_1", "reports_to")
    (List.map (fun e => (source e, target e, e_type e)) (edges g)).
Proof.
  cbv zeta. split; [vm_compute; reflexivity|]. split.
  - refine (proj1 (proj1 (import_raw_unique_ids example_now (fun _ => []) []
                            example_raw_contacts example_raw_deals
                            example_raw_companies) _ _ _)).
    + simpl. repeat constructor; simpl; intuition discriminate.
    + simpl. repeat constructor; simpl; intuition discriminate.
    + simpl. repeat constructor; simpl; intuition discriminate.
  - vm_compute. tauto.
Defined.


